(** * ragbase: adaptive query processing

    A shallow embedding of [ragbase/optimizers.py] (text normalisation,
    truncation, complexity scoring) and [ragbase/chain.py] (chain rebinding,
    the streaming orchestrator), followed by the properties established
    about them.

    Conventions of the embedding.
    - A Python [str] is the list of its Unicode code points ([list N]).
    - A Python [float] is the rational it denotes ([Q]).  The scorer is
      given twice: in [Binary64] every operation is rounded to the nearest
      binary64 number, as the interpreter does; the definitions outside
      that module carry out the same computation without rounding, and are
      used for properties that hold with a margin no rounding can consume.
    - Python objects live in a heap ([gmap loc object]); an object is its
      attribute dictionary, identity is the location. *)

From Stdlib Require Import ZArith NArith QArith Qminmax Qround Qpower Lqa Lia.
From Stdlib Require Import List Ascii String Bool.
From stdpp Require Import gmap strings list fin_maps.
Import ListNotations.

Local Open Scope nat_scope.
Set Warnings "-register-all".

(* ===================================================================== *)
(** * Part I: definitions *)
(* ===================================================================== *)

(** ** Python strings *)

Abbreviation str := (list N).

(** The code points of a literal. *)
Definition py (s : string) : str :=
  map N_of_ascii (list_ascii_of_string s).

(** [Py_UNICODE_ISSPACE]: the characters matched by [\s] in a [str]
    pattern, removed by [str.strip()] and separating the words of
    [str.split()]. *)
Definition is_space (c : N) : bool :=
  ((9 <=? c) && (c <=? 13) || (28 <=? c) && (c <=? 32)
   || (c =? 133) || (c =? 160) || (c =? 5760)
   || (8192 <=? c) && (c <=? 8202)
   || (c =? 8232) || (c =? 8233) || (c =? 8239) || (c =? 8287)
   || (c =? 12288))%N.

Fixpoint lstrip (s : str) : str :=
  match s with
  | [] => []
  | c :: s' => if is_space c then lstrip s' else s
  end.

Fixpoint rstrip (s : str) : str :=
  match s with
  | [] => []
  | c :: s' =>
      match rstrip s' with
      | [] => if is_space c then [] else [c]
      | r => c :: r
      end
  end.

(** [s.strip()] *)
Definition strip (s : str) : str := rstrip (lstrip s).

(** ** Regular-expression substitution of runs

    [re.sub] scans left to right and replaces every leftmost, greedy
    (hence maximal) match.  For a pattern [cls{k,}] with [1 <= k], a match
    is a maximal run of class characters of length at least [k].  The scan
    keeps the run read so far in [pend]; when the run ends it is emitted,
    replaced by [repl] if it is long enough. *)

Definition flush_run (k : nat) (repl pend : str) : str :=
  if k <=? length pend then repl else pend.

Fixpoint re_sub_run (cls : N -> bool) (k : nat) (repl pend s : str) : str :=
  match s with
  | [] => flush_run k repl pend
  | c :: s' =>
      if cls c then re_sub_run cls k repl (pend ++ [c]) s'
      else flush_run k repl pend ++ c :: re_sub_run cls k repl [] s'
  end.

Definition re_sub (cls : N -> bool) (k : nat) (repl s : str) : str :=
  re_sub_run cls k repl [] s.

Definition chr_dot : N := 46.
Definition chr_bang : N := 33.
Definition chr_qmark : N := 63.

(** ** TokenOptimizationPipeline *)

(** [i] normalised to an offset into a sequence of length [len], as Python
    slicing does: negative indexes count from the end, and everything is
    clamped to [0, len]. *)
Definition slice_index (len i : Z) : Z :=
  if (i <? 0)%Z then Z.max 0 (i + len) else Z.min i len.

(** [s[lo:hi]]; an omitted bound is [None]. *)
Definition slice (s : str) (lo hi : option Z) : str :=
  let len := Z.of_nat (length s) in
  let a := match lo with Some i => slice_index len i | None => 0%Z end in
  let b := match hi with Some i => slice_index len i | None => len end in
  firstn (Z.to_nat (b - a)) (skipn (Z.to_nat a) s).

Definition truncate_text (text : str) (max_length : Z) : str :=
  if (Z.of_nat (length text) <=? max_length)%Z then text
  else
    let intro_length := (max_length / 3)%Z in
    let conclusion_length := (max_length / 3)%Z in
    let middle_length := (max_length - intro_length - conclusion_length)%Z in
    let intro := slice text None (Some intro_length) in
    let conclusion := slice text (Some (- conclusion_length)%Z) None in
    intro ++ py "..."
      ++ slice text
           (Some (Z.of_nat (length text) - middle_length - conclusion_length)%Z)
           (Some (- conclusion_length)%Z)
      ++ conclusion.

Definition default_max_length : Z := 8000.

Definition optimize_prompt (prompt : str) : str :=
  let prompt := re_sub is_space 1 (py " ") prompt in
  let prompt := strip prompt in
  let prompt := re_sub (N.eqb chr_dot) 2 (py "...") prompt in
  let prompt := re_sub (N.eqb chr_bang) 2 (py "!") prompt in
  let prompt := re_sub (N.eqb chr_qmark) 2 (py "?") prompt in
  prompt.

(** ** DynamicComplexityRouter *)

(** [query.lower()].  The case mapping is that of the code points below
    256 (ASCII and Latin-1 capitals); every other code point is left as it
    is.  The range of the score is proved of every lower-cased text and
    does not depend on this table; the effect of appending a term uses
    only that the terms are in lower case and that lower-casing goes
    character by character. *)
Definition lower_char (c : N) : N :=
  (if (65 <=? c) && (c <=? 90)
      || (192 <=? c) && (c <=? 222) && negb (c =? 215)
   then c + 32 else c)%N.

Definition lower (s : str) : str := map lower_char s.

Fixpoint startswith (prefix s : str) : bool :=
  match prefix, s with
  | [], _ => true
  | _ :: _, [] => false
  | a :: prefix', b :: s' => (a =? b)%N && startswith prefix' s'
  end.

(** [needle in hay] *)
Fixpoint contains (needle hay : str) : bool :=
  startswith needle hay
  || match hay with
     | [] => false
     | _ :: hay' => contains needle hay'
     end.

Fixpoint str_eqb (a b : str) : bool :=
  match a, b with
  | [], [] => true
  | x :: a', y :: b' => (x =? y)%N && str_eqb a' b'
  | _, _ => false
  end.

(** [d.get(key, default)] on a dictionary given by its items. *)
Fixpoint dict_get (d : list (str * Q)) (key : str) (default : Q) : Q :=
  match d with
  | [] => default
  | (k, v) :: d' => if str_eqb k key then v else dict_get d' key default
  end.

(** [min(a, b)] of two numbers: the first argument unless the second is
    strictly smaller. *)
Definition py_min (a b : Q) : Q :=
  if Qlt_le_dec b a then b else a.

Definition COMPLEXITY_INDICATORS : list str :=
  map py
    [ "analyze"; "synthesize"; "evaluate"; "compare"; "contrast";
      "implications"; "consequences"; "relationship between";
      "multi-step"; "complex"; "reasoning"; "why"; "how does";
      "explain in detail"; "elaborate"; "what would happen if";
      "critically"; "argument"; "evidence"; "theory"; "hypothesis";
      "infer"; "deduce"; "prove"; "concept"; "discuss"; "explore";
      "technical"; "scientific"; "mathematical"; "algorithm";
      "architecture"; "framework"; "implementation"; "methodology";
      "mechanism"; "approach"; "statistics"; "correlation";
      "philosophical"; "ethical"; "moral"; "metaphysical"; "epistemological";
      "consciousness"; "existence"; "meaning"; "purpose"; "free will";
      "determinism"; "relativism"; "utilitarianism"; "deontological";
      "virtue ethics"; "social contract"; "rights"; "justice";
      "dialectic"; "ontology"; "phenomenology"; "hermeneutics";
      "considerations"; "implications"; "paradox"; "dilemma";
      "dimensions"; "aspects"; "autonomy"; "autonomous"; "relate";
      "connection"; "relationship"; "impact";
      "domain knowledge"; "specialized"; "expert"; "discipline";
      "paradigm"; "school of thought"; "perspective"; "worldview" ]%string.

Definition COMPLEX_PHRASES : list str :=
  map py
    [ "free will"; "moral dimension"; "ethical implication";
      "philosophical issue"; "autonomous system"; "consciousness in";
      "deterministic model"; "causal relationship"; "relate to";
      "connection between"; "dimensions of"; "aspects of" ]%string.

Definition TERM_WEIGHTS : list (str * Q) :=
  map (fun kv => (py (fst kv), snd kv))
    [ ("philosophical", 3.0); ("ethical", 3.0); ("epistemological", 3.0);
      ("ontology", 3.0); ("metaphysical", 3.0); ("consciousness", 3.0);
      ("free will", 3.0); ("moral dimension", 3.0);
      ("ethical implication", 3.0); ("determinism", 3.0);
      ("analyze", 2.0); ("synthesize", 2.0); ("evaluate", 2.0);
      ("explore", 2.0); ("discuss", 2.0);
      ("complex", 1.8); ("theory", 1.8); ("implications", 1.8);
      ("considerations", 1.8); ("paradox", 1.8); ("dilemma", 1.8);
      ("moral", 1.8); ("dimensions", 1.8); ("autonomous", 1.8);
      ("relate", 1.8) ]%string%Q.

Definition AI_TERMS : list str :=
  map py [ "ai"; "artificial intelligence" ]%string.

Definition ETHICS_TERMS : list str :=
  map py [ "ethics"; "ethical"; "moral"; "philosophy"; "consciousness";
           "free will"; "determinism" ]%string.

(** One [for] loop over a table of terms: every term found in the query
    adds its weight to the running count. *)
Definition count_terms (terms : list str) (default : Q) (query : str)
    (indicator_count : Q) : Q :=
  fold_left
    (fun count term =>
       if contains term query
       then (count + dict_get TERM_WEIGHTS term default)%Q
       else count)
    terms indicator_count.

Definition topic_boost (query : str) (indicator_count : Q) : Q :=
  if existsb (fun term => contains term query) AI_TERMS then
    if existsb (fun term => contains term query) ETHICS_TERMS
    then (indicator_count + 1.5)%Q
    else indicator_count
  else indicator_count.

(** [indicator_count] after both loops and the topic boost; [query] is
    already lower-cased. *)
Definition indicator_count (query : str) : Q :=
  let count := 0%Q in
  let count := count_terms COMPLEXITY_INDICATORS 1.0%Q query count in
  let count := count_terms COMPLEX_PHRASES 2.0%Q query count in
  topic_boost query count.

(** [re.split(cls, s)] for a one-character class: the pieces between the
    separators, empty ones included. *)
Fixpoint re_split (cls : N -> bool) (piece s : str) : list str :=
  match s with
  | [] => [piece]
  | c :: s' =>
      if cls c then piece :: re_split cls [] s'
      else re_split cls (piece ++ [c]) s'
  end.

(** [s.split()]: the maximal runs of characters that are not whitespace. *)
Fixpoint split_run (word s : str) : list str :=
  match s with
  | [] => match word with [] => [] | _ => [word] end
  | c :: s' =>
      if is_space c
      then match word with
           | [] => split_run [] s'
           | _ => word :: split_run [] s'
           end
      else split_run (word ++ [c]) s'
  end.

Definition split (s : str) : list str := split_run [] s.

Definition is_sentence_end (c : N) : bool :=
  (c =? chr_dot)%N || (c =? chr_bang)%N || (c =? chr_qmark)%N.

Definition nonempty (s : str) : bool :=
  match s with [] => false | _ => true end.

(** [[s.strip() for s in re.split(r'[.!?]', query) if s.strip()]] *)
Definition sentences (query : str) : list str :=
  map strip (List.filter (fun s => nonempty (strip s))
               (re_split is_sentence_end [] query)).

Definition of_nat (n : nat) : Q := inject_Z (Z.of_nat n).

(** The scores in exact arithmetic: what the expressions of the source
    denote before any rounding.  [Binary64], below, has the same
    expressions as the interpreter evaluates them. *)
Definition length_score (query : str) : Q :=
  py_min (of_nat (length query) / 200) 1.0.

Definition indicator_score (query : str) : Q :=
  py_min (indicator_count query / 6) 1.0.

Definition avg_words_per_sentence (query : str) : Q :=
  let sentences := sentences query in
  (of_nat (list_sum (map (fun s => length (split s)) sentences))
   / of_nat (Nat.max (length sentences) 1))%Q.

Definition sentence_score (query : str) : Q :=
  py_min (avg_words_per_sentence query / 20) 1.0.

(** The part of [assess_complexity] that follows the lower-casing. *)
Definition complexity_score (query : str) : Q :=
  (0.20 * length_score query
   + 0.70 * indicator_score query
   + 0.10 * sentence_score query)%Q.

Definition assess_lowered (query : str) : bool * Q :=
  let complexity_score := complexity_score query in
  let is_complex :=
    if Qlt_le_dec 0.30 complexity_score then true else false in
  (is_complex, complexity_score).

Definition assess_complexity (query : str) : bool * Q :=
  let query := lower query in
  assess_lowered query.

(** The terms for which one of the two loops adds a weight, with the weight
    added, in the order the loops meet them.  The code does not build this
    list; it is what the return value is compared with. *)
Definition matched_in (terms : list str) (default : Q) (query : str)
    : list (str * Q) :=
  map (fun term => (term, dict_get TERM_WEIGHTS term default))
    (List.filter (fun term => contains term query) terms).

Definition matched_indicators (query : str) : list (str * Q) :=
  let query := lower query in
  matched_in COMPLEXITY_INDICATORS 1.0%Q query
  ++ matched_in COMPLEX_PHRASES 2.0%Q query.

(** The keys of [TERM_WEIGHTS] whose weight is 3.0. *)
Definition HIGH_WEIGHT_TERMS : list str :=
  map fst (List.filter (fun kv => Qeq_bool (snd kv) 3.0) TERM_WEIGHTS).

(** ** Python floats

    A Python [float] is an IEEE 754 binary64 number: a significand of 53
    bits, exponents down to that of the subnormal numbers, and every
    operation rounded to the nearest representable number, ties to the
    even significand.  Overflow is not modelled: no quantity of
    [assess_complexity] comes near [2 ^ 1024], each being bounded by the
    length of the query. *)
Module Binary64.

(** The integer nearest to [x], ties to even. *)
Definition rne (x : Q) : Z :=
  let f := Qfloor x in
  match (x - inject_Z f ?= 1 # 2)%Q with
  | Lt => f
  | Gt => (f + 1)%Z
  | Eq => if Z.even f then f else (f + 1)%Z
  end.

(** [floor (log2 x)] for a positive [x]. *)
Definition floor_log2 (x : Q) : Z :=
  let k := (Z.log2 (Qnum x) - Z.log2 (Zpos (Qden x)))%Z in
  if Qle_bool (2 ^ k) x then k else (k - 1)%Z.

(** The exponent of the unit in the last place of a positive [x]. *)
Definition exponent (x : Q) : Z := Z.max (floor_log2 x - 52) (-1074).

Definition round_pos (x : Q) : Q :=
  let e := exponent x in
  (inject_Z (rne (x / 2 ^ e)) * 2 ^ e)%Q.

(** The binary64 number nearest to [x], as a fraction in lowest terms. *)
Definition round (x : Q) : Q :=
  Qred match Qnum x with
       | Z0 => 0
       | Zpos _ => round_pos x
       | Zneg _ => - round_pos (- x)
       end.

(** [a + b], [a * b] and [a / b] on floats; [int / int] is the quotient
    rounded once, which [div] gives as well. *)
Definition add (a b : Q) : Q := round (a + b).
Definition mul (a b : Q) : Q := round (a * b).
Definition div (a b : Q) : Q := round (a / b).

(** A float literal of the source. *)
Definition literal (x : Q) : Q := round x.

Definition count_terms (terms : list str) (default : Q) (query : str)
    (indicator_count : Q) : Q :=
  fold_left
    (fun count term =>
       if contains term query
       then add count (literal (dict_get TERM_WEIGHTS term default))
       else count)
    terms indicator_count.

Definition topic_boost (query : str) (indicator_count : Q) : Q :=
  if existsb (fun term => contains term query) AI_TERMS then
    if existsb (fun term => contains term query) ETHICS_TERMS
    then add indicator_count (literal 1.5)
    else indicator_count
  else indicator_count.

Definition indicator_count (query : str) : Q :=
  let count := 0%Q in
  let count := count_terms COMPLEXITY_INDICATORS 1.0%Q query count in
  let count := count_terms COMPLEX_PHRASES 2.0%Q query count in
  topic_boost query count.

Definition length_score (query : str) : Q :=
  py_min (div (of_nat (length query)) 200) (literal 1.0).

Definition indicator_score (query : str) : Q :=
  py_min (div (indicator_count query) 6) (literal 1.0).

Definition avg_words_per_sentence (query : str) : Q :=
  let sentences := sentences query in
  div (of_nat (list_sum (map (fun s => length (split s)) sentences)))
      (of_nat (Nat.max (length sentences) 1)).

Definition sentence_score (query : str) : Q :=
  py_min (div (avg_words_per_sentence query) 20) (literal 1.0).

Definition complexity_score (query : str) : Q :=
  add (add (mul (literal 0.20) (length_score query))
           (mul (literal 0.70) (indicator_score query)))
      (mul (literal 0.10) (sentence_score query)).

(** The part of [assess_complexity] that follows the lower-casing. *)
Definition assess_lowered (query : str) : bool * Q :=
  let complexity_score := complexity_score query in
  let is_complex :=
    if Qlt_le_dec (literal 0.30) complexity_score then true else false in
  (is_complex, complexity_score).

Definition assess_complexity (query : str) : bool * Q :=
  let query := lower query in
  assess_lowered query.

End Binary64.

(** The code points of ISO 8859-1, on which [lower] is [str.lower]. *)
Definition latin1 (s : str) : bool := forallb (fun c => (c <? 256)%N) s.

(** ** Python objects, exceptions and effects *)

Abbreviation loc := positive.

Inductive value :=
| VNone
| VStr (s : string)
| VFun (name : string)
| VGetter (key : string)
| VRef (l : loc)
| VList (vs : list value).

(** An object is an instance of some class and carries attributes.
    [runnable] tells whether the class derives from LangChain's [Runnable],
    whose instances offer [with_config] and the [|] operator. *)
Record object := Object {
  cls : string;
  runnable : bool;
  attrs : gmap string value
}.

(** An exception object: its class and [str(e)].  [Exn] is an instance of
    a class that derives from [Exception]; [BaseExn] is an instance of a
    class that derives from [BaseException] only ([KeyboardInterrupt],
    [SystemExit], [GeneratorExit], [asyncio.CancelledError]). *)
Inductive exn :=
| Exn (class : string) (message : str)
| BaseExn (class : string) (message : str).

Definition exn_class (e : exn) : string :=
  match e with Exn class _ | BaseExn class _ => class end.

Definition exn_str (e : exn) : str :=
  match e with Exn _ message | BaseExn _ message => message end.

(** [isinstance(e, Exception)] *)
Definition is_Exception (e : exn) : bool :=
  match e with Exn _ _ => true | BaseExn _ _ => false end.

Record document := Document { page_content : str }.

(** The stream events of [astream_events(version="v2")] that the
    orchestrator tells apart. *)
Inductive event :=
| on_retriever_end (output : list document)
| on_chain_stream (chunk_content : str)
| on_other (event_type : string).

(** What the generator [ask_question] yields: a list of documents or a
    piece of text. *)
Inductive item :=
| Documents (docs : list document)
| Text (s : str).

Record invocation := Invocation {
  inv_chain : loc;
  inv_question : str;
  inv_session_id : str;
  inv_debug : bool
}.

(** The state a turn runs in: the heap, what has been printed, and the
    calls of [astream_events] made so far. *)
Record world := World {
  objects : gmap loc object;
  stdout : list str;
  invocations : list invocation
}.

Inductive outcome (A : Type) :=
| Return (a : A)
| Raise (e : exn).
Arguments Return {A} a.
Arguments Raise {A} e.

Definition M (A : Type) : Type := world -> outcome A * world.

#[global] Instance M_ret : MRet M := fun A a w => (Return a, w).

#[global] Instance M_bind : MBind M := fun A B f m w =>
  match m w with
  | (Return a, w') => f a w'
  | (Raise e, w') => (Raise e, w')
  end.

Definition raise {A} (e : exn) : M A := fun w => (Raise e, w).

(** [try: body except Exception as e: handler(e)]: an exception that is
    not an [Exception] passes through. *)
Definition try_except {A} (body : M A) (handler : exn -> M A) : M A :=
  fun w =>
    match body w with
    | (Return a, w') => (Return a, w')
    | (Raise e, w') =>
        if is_Exception e then handler e w' else (Raise e, w')
    end.

Definition print (line : str) : M unit := fun w =>
  (Return tt, World (objects w) (stdout w ++ [line]) (invocations w)).

(** Instantiating a class: the object is stored at a location not in use. *)
Definition new (o : object) : M loc := fun w =>
  let l := fresh (dom (objects w)) in
  (Return l, World (<[l := o]> (objects w)) (stdout w) (invocations w)).

Definition lookup_attr (h : gmap loc object) (v : value) (name : string)
    : option value :=
  match v with
  | VRef l => o ← h !! l; attrs o !! name
  | _ => None
  end.

Definition hasattr (v : value) (name : string) : M bool := fun w =>
  (Return (match lookup_attr (objects w) v name with
           | Some _ => true
           | None => false
           end), w).

(** [type(v).__name__], as the message of an [AttributeError] shows it.
    A reference to no object has no counterpart in Python. *)
Definition type_name (h : gmap loc object) (v : value) : string :=
  match v with
  | VNone => "NoneType"
  | VStr _ => "str"
  | VFun _ => "function"
  | VGetter _ => "operator.itemgetter"
  | VList _ => "list"
  | VRef l => match h !! l with Some o => cls o | None => "object" end
  end.

(** What the interpreter raises when [v] has no attribute [name]. *)
Definition attribute_error (h : gmap loc object) (v : value)
    (name : string) : exn :=
  Exn "AttributeError"
    (py ("'" ++ type_name h v ++ "' object has no attribute '" ++ name
         ++ "'")).

Definition getattr (v : value) (name : string) : M value := fun w =>
  match lookup_attr (objects w) v name with
  | Some x => (Return x, w)
  | None => (Raise (attribute_error (objects w) v name), w)
  end.

Definition is_none (v : value) : bool :=
  match v with VNone => true | _ => false end.

Definition is_runnable (h : gmap loc object) (v : value) : bool :=
  match v with
  | VRef l => match h !! l with Some o => runnable o | None => false end
  | _ => false
  end.

(** ** chain.py *)

Definition SYSTEM_PROMPT : string := "
Utilize the provided contextual information to respond to the user question.
If the answer is not found within the context, state that the answer cannot be found.
Prioritize concise responses (maximum of 3 sentences) and use a list where applicable.
The contextual information is organized with the most relevant source appearing first.
Each source is separated by a horizontal rule (---).

Context:
{context}

Use markdown formatting where appropriate.
".

(** [ChatPromptTemplate.from_messages([...])] *)
Definition chat_prompt_template : M loc :=
  new (Object "ChatPromptTemplate" true
         {[ "messages" :=
              VList [ VList [VStr "system"; VStr SYSTEM_PROMPT];
                      VList [VStr "MessagesPlaceholder"; VStr "chat_history"];
                      VList [VStr "human"; VStr "{question}"] ] ]}).

(** [v.with_config({"run_name": run_name})]: a binding around [v], which
    stays as it is.  Only a [Runnable] has the method. *)
Definition with_config (v : value) (run_name : string) : M loc := fun w =>
  if is_runnable (objects w) v
  then new (Object "RunnableBinding" true
              {[ "bound" := v; "run_name" := VStr run_name ]}) w
  else (Raise (attribute_error (objects w) v "with_config"), w).

(** [first | middle | last]: the sequence of the three operands. *)
Definition pipe (first middle last : value) : M loc :=
  new (Object "RunnableSequence" true
         {[ "first" := first; "middle" := VList [middle]; "last" := last ]}).

(** [RunnablePassthrough.assign(context=v)] *)
Definition assign_context (v : value) : M loc :=
  new (Object "RunnableAssign" true {[ "context" := v ]}).

(** [RunnableWithMessageHistory(chain, get_session_history,
      input_messages_key="question", history_messages_key="chat_history")] *)
Definition with_message_history (chain : value) : M loc :=
  new (Object "RunnableWithMessageHistory" true
         {[ "runnable" := chain;
            "get_session_history" := VFun "get_session_history";
            "input_messages_key" := VStr "question";
            "history_messages_key" := VStr "chat_history" ]}).

(** The pipeline both branches of [update_chain_llm] build once they hold
    a retriever (lines 104-120 and 140-155). *)
Definition build_chain (retriever : value) (prompt llm : loc) : M loc :=
  context_retriever ← with_config retriever "context_retriever";
  context ← pipe (VGetter "question") (VRef context_retriever)
                 (VFun "format_documents");
  assigned ← assign_context (VRef context);
  updated_chain ← pipe (VRef assigned) (VRef prompt) (VRef llm);
  history ← with_message_history (VRef updated_chain);
  with_config (VRef history) "chain_answer".

Definition update_chain_llm (chain llm : loc) : M loc :=
  has_runnable ← hasattr (VRef chain) "runnable";
  if (has_runnable : bool) then
    inner_chain ← getattr (VRef chain) "runnable";
    has_retriever ← hasattr inner_chain "retriever";
    retriever ←
      (if (has_retriever : bool) then getattr inner_chain "retriever"
       else
         has_first ← hasattr inner_chain "first";
         nested ←
           (if (has_first : bool) then
              first ← getattr inner_chain "first";
              hasattr first "retriever"
            else mret false);
         if (nested : bool) then
           first ← getattr inner_chain "first";
           getattr first "retriever"
         else mret VNone);
    if is_none retriever then mret chain
    else
      prompt ← chat_prompt_template;
      build_chain retriever prompt llm
  else
    prompt ← chat_prompt_template;
    has_retriever ← hasattr (VRef chain) "retriever";
    retriever ←
      (if (has_retriever : bool) then getattr (VRef chain) "retriever"
       else mret VNone);
    if is_none retriever then mret chain
    else build_chain retriever prompt llm.

(** The retrieval stage of a pipeline, as the probing of
    [update_chain_llm] locates it: [chain.runnable.retriever], else
    [chain.runnable.first.retriever], or [chain.retriever] for a chain
    without [runnable]; [None] when there is none. *)
Definition retrieval_reference (h : gmap loc object) (chain : loc) : value :=
  match lookup_attr h (VRef chain) "runnable" with
  | Some inner_chain =>
      match lookup_attr h inner_chain "retriever" with
      | Some retriever => retriever
      | None =>
          match lookup_attr h inner_chain "first" with
          | Some first =>
              match lookup_attr h first "retriever" with
              | Some retriever => retriever
              | None => VNone
              end
          | None => VNone
          end
      end
  | None =>
      match lookup_attr h (VRef chain) "retriever" with
      | Some retriever => retriever
      | None => VNone
      end
  end.

(** The object a pipeline made by [build_chain] retrieves with: what the
    binding in the middle of its context sequence is bound to. *)
Definition built_retriever (h : gmap loc object) (chain : loc)
    : option value :=
  history ← lookup_attr h (VRef chain) "bound";
  updated_chain ← lookup_attr h history "runnable";
  assigned ← lookup_attr h updated_chain "first";
  context ← lookup_attr h assigned "context";
  middle ← lookup_attr h context "middle";
  match middle with
  | VList [context_retriever] => lookup_attr h context_retriever "bound"
  | _ => None
  end.

(** The model a pipeline made by [build_chain] ends with. *)
Definition built_model (h : gmap loc object) (chain : loc) : option value :=
  history ← lookup_attr h (VRef chain) "bound";
  updated_chain ← lookup_attr h history "runnable";
  lookup_attr h updated_chain "last".

(** ** config.py and model.py *)

Record config := Config {
  AUTO_COMPLEXITY_ROUTING : bool;
  USE_TOKEN_OPTIMIZATION : bool;
  DEBUG : bool
}.

Definition GENERAL_LLM : string := "llama-3.3-70b-versatile".
Definition COMPLEX_LLM : string := "deepseek-r1-distill-llama-70b".
Definition TEMPERATURE : Q := 0.0.
Definition MAX_TOKENS : Z := 8000.

(** ** The collaborators outside the repository

    [ChatGroq temperature model_name max_tokens] is what the constructor of
    the provider's client does: it raises, or gives the attributes of the
    new client.  [astream_events h chain question session_id callbacks] is
    the run of the pipeline [chain] in the heap [h], with the given
    callback handlers. *)

(** What a run does, as far as the orchestrator can tell: the events it
    delivers, the exception it ends with if it raises, the heap it leaves
    (the session history is written during the run) and the lines it
    prints (those of the console handler among them). *)
Record run := Run {
  run_events : list event;
  run_failure : option exn;
  run_objects : gmap loc object;
  run_stdout : list str
}.

(** What an asynchronous generator does when it is consumed to its end:
    the items it yields, in order, and the exception it ends with if it
    raises instead of returning. *)
Record generated := Generated {
  yielded : list item;
  raised : option exn
}.

Section Orchestrator.

Variable ChatGroq : Q -> string -> Z -> outcome (gmap string value).

Variable astream_events :
  gmap loc object -> loc -> str -> str -> list loc -> run.

Definition create_llm (use_complex_model : bool) : M loc :=
  let model_name := if use_complex_model then COMPLEX_LLM else GENERAL_LLM in
  match ChatGroq TEMPERATURE model_name MAX_TOKENS with
  | Return fields => new (Object "ChatGroq" true fields)
  | Raise e => raise e
  end.

Definition get_appropriate_llm (query : str) : M (loc * bool) :=
  let '(is_complex, score) := Binary64.assess_complexity query in
  llm ← create_llm is_complex;
  mret (llm, is_complex).

(** Lines 162-172 of [ask_question], the body of the first [try]: the
    rebound chain, or the original one when the rebinding gave it back. *)
Definition select_chain (chain : loc) (question : str) : M loc :=
  let '(is_complex, complexity_score) :=
    Binary64.assess_complexity question in
  '(llm, _) ← get_appropriate_llm question;
  updated_chain ← update_chain_llm chain llm;
  if negb (Pos.eqb updated_chain chain) then mret updated_chain
  else
    _ ← print (py "Warning: Could not update chain with dynamic routing, using original chain");
    mret chain.

(** Lines 160-175: the chain the turn goes on with. *)
Definition route (cfg : config) (chain : loc) (question : str) : M loc :=
  if AUTO_COMPLEXITY_ROUTING cfg then
    try_except (select_chain chain question)
      (fun e =>
         _ ← print (py "Error in dynamic complexity routing: " ++ exn_str e
                    ++ py ". Using original chain.");
         mret chain)
  else mret chain.

(** Lines 178-186: the question the turn goes on with.
    [optimize_prompt] is total, so the handler of this [try] has nothing
    to catch. *)
Definition optimize_question (cfg : config) (question : str) : str :=
  if USE_TOKEN_OPTIMIZATION cfg then
    let optimized_question := optimize_prompt question in
    if nonempty optimized_question then optimized_question else question
  else question.

(** The body of the [async for]: what one event makes the generator yield. *)
Definition forward (ev : event) : list item :=
  match ev with
  | on_retriever_end output => [Documents output]
  | on_chain_stream chunk_content => [Text chunk_content]
  | on_other _ => []
  end.

Definition error_message (e : exn) : str :=
  py "An error occurred while processing your question: " ++ exn_str e.

(** [[ConsoleCallbackHandler()] if Config.DEBUG else []] *)
Definition console_callbacks (cfg : config) (w : world)
    : list loc * world :=
  if DEBUG cfg then
    let handler := fresh (dom (objects w)) in
    ([handler],
     World (<[handler := Object "ConsoleCallbackHandler" false ∅]>
              (objects w))
       (stdout w) (invocations w))
  else ([], w).

(** Lines 188-207: one call of [astream_events]; every event is forwarded
    as it arrives.  An [Exception] ends the loop with one more item, the
    message; any other exception leaves the generator. *)
Definition stream (cfg : config) (chain : loc) (question session_id : str)
    (w : world) : generated * world :=
  let '(callbacks, w) := console_callbacks cfg w in
  let r := astream_events (objects w) chain question session_id callbacks in
  let w := World (run_objects r) (stdout w ++ run_stdout r)
             (invocations w
              ++ [Invocation chain question session_id (DEBUG cfg)]) in
  let items := flat_map forward (run_events r) in
  match run_failure r with
  | None => (Generated items None, w)
  | Some e =>
      if is_Exception e then
        let w := World (objects w)
                   (stdout w ++ [py "Chain execution error: " ++ exn_str e])
                   (invocations w) in
        (Generated (items ++ [Text (error_message e)]) None, w)
      else (Generated items (Some e), w)
  end.

(** [ask_question]: what the generator yields in one turn and how it
    ends, and the state the turn leaves.  An exception that leaves the
    routing step leaves the generator before anything is yielded. *)
Definition ask_question (cfg : config) (chain : loc)
    (question session_id : str) (w : world) : generated * world :=
  match route cfg chain question w with
  | (Return chain, w) =>
      let question := optimize_question cfg question in
      stream cfg chain question session_id w
  | (Raise e, w) => (Generated [] (Some e), w)
  end.

End Orchestrator.

(** The weights of a list of matched indicators, added to [count] in the
    order of the list. *)
Fixpoint sum_weights (matched : list (str * Q)) (count : Q) : Q :=
  match matched with
  | [] => count
  | (_, weight) :: matched' => sum_weights matched' (count + weight)%Q
  end.

(** ** Shapes of strings used in the statements *)

(** [s] is empty or starts with a character outside the class. *)
Definition starts_outside (cls : N -> bool) (s : str) : bool :=
  match s with
  | [] => true
  | c :: _ => negb (cls c)
  end.

(** Every whitespace character of [s] is a space that is not followed by
    whitespace. *)
Fixpoint single_spaced (s : str) : bool :=
  match s with
  | [] => true
  | c :: s' =>
      (if is_space c
       then (c =? 32)%N && starts_outside is_space s'
       else true)
      && single_spaced s'
  end.

(** [w'] has every object of [w], unchanged, and possibly new ones;
    nothing was printed and no pipeline was run in between. *)
Definition extends (w w' : world) : Prop :=
  objects w ⊆ objects w'
  /\ stdout w' = stdout w
  /\ invocations w' = invocations w.

(** ** Sample collaborators and heaps *)

(** A provider whose client cannot be constructed. *)
Definition failing_factory (temperature : Q) (model_name : string)
    (max_tokens : Z) : outcome (gmap string value) :=
  Raise (Exn "GroqError" (py "The api_key client option must be set")).

Definition working_factory (temperature : Q) (model_name : string)
    (max_tokens : Z) : outcome (gmap string value) :=
  Return {[ "model_name" := VStr model_name ]}.

(** A provider whose client is interrupted while it is constructed. *)
Definition interrupted_factory (temperature : Q) (model_name : string)
    (max_tokens : Z) : outcome (gmap string value) :=
  Raise (BaseExn "KeyboardInterrupt" []).

(** The events of the sample runs: the retrieved documents and two
    deltas. *)
Definition sample_events : list event :=
  [ on_other "on_chain_start";
    on_retriever_end [Document (py "Embeddings are vectors.")];
    on_chain_stream (py "Embeddings ");
    on_chain_stream (py "are") ]%string.

(** A run that delivers the sample events, then raises an [Exception]. *)
Definition interrupted_run (h : gmap loc object) (chain : loc)
    (question session_id : str) (callbacks : list loc) : run :=
  Run sample_events
    (Some (Exn "APIConnectionError" (py "Connection error."))) h [].

(** A run that delivers the sample events and is then cancelled. *)
Definition cancelled_run (h : gmap loc object) (chain : loc)
    (question session_id : str) (callbacks : list loc) : run :=
  Run sample_events (Some (BaseExn "CancelledError" [])) h [].

(** A run that ends normally after streaming, as a delta, the very text
    of an error message. *)
Definition parroting_run (h : gmap loc object) (chain : loc)
    (question session_id : str) (callbacks : list loc) : run :=
  Run [ on_chain_stream
          (py "An error occurred while processing your question: Connection error.") ]
    None h [].

(** A run that delivers nothing and raises an [Exception]. *)
Definition failing_run (h : gmap loc object) (chain : loc)
    (question session_id : str) (callbacks : list loc) : run :=
  Run [] (Some (Exn "APIConnectionError" (py "Connection error."))) h [].

Definition sample_config : config := Config true true false.

Definition empty_world : world := World ∅ [] [].

(** A chain wrapped with its message history, whose inner sequence starts
    with a stage that holds the retriever (object 1). *)
Definition wrapped_world : world :=
  World
    (<[1%positive := Object "VectorStoreRetriever" true ∅]>
       (<[2%positive := Object "RunnableAssign" true
                          {[ "retriever" := VRef 1%positive ]}]>
          (<[3%positive := Object "RunnableSequence" true
                             {[ "first" := VRef 2%positive ]}]>
             (<[4%positive := Object "RunnableWithMessageHistory" true
                                {[ "runnable" := VRef 3%positive ]}]>
                (<[5%positive := Object "ChatGroq" true ∅]> ∅)))))
    [] [].

(** A chain whose [retriever] attribute is not a Runnable. *)
Definition unbindable_world : world :=
  World
    (<[1%positive := Object "Chain" true
                       {[ "retriever" := VStr "docs-db" ]}]> ∅)
    [] [].

(** ** Proof steps *)

(** A comparison of rationals that evaluated, as the relation it decides. *)
Ltac qcompare H :=
  first [ apply (proj2 (Qeq_alt _ _)) in H
        | apply (proj2 (Qlt_alt _ _)) in H
        | apply (proj2 (Qgt_alt _ _)) in H ].

(** Division by one of the constants of the scorer, as a product. *)
Ltac div_by_constant :=
  unfold Qdiv;
  change (/ 200)%Q with (1 # 200)%Q;
  change (/ 20)%Q with (1 # 20)%Q;
  change (/ 6)%Q with (1 # 6)%Q.

(** ** chain.py: remove_links, format_documents, create_chain *)

Definition LINK_PREFIXES : list str :=
  map py [ "http://"; "https://"; "www." ]%string.

(** [s] starts with [prefix] followed by one character that is not
    whitespace. *)
Fixpoint starts_link (prefix s : str) : bool :=
  match prefix, s with
  | [], [] => false
  | [], c :: _ => negb (is_space c)
  | _ :: _, [] => false
  | a :: prefix', b :: s' => (a =? b)%N && starts_link prefix' s'
  end.

(** A match of [https?://\S+|www\.\S+] starts at the head of [s].  The
    prefixes hold no whitespace and [\S+] is greedy, so the match is the
    whole run of characters up to the next whitespace. *)
Definition link_starts (s : str) : bool :=
  existsb (fun prefix => starts_link prefix s) LINK_PREFIXES.

(** [re.sub(url_pattern, "", text)], scanning from the left; [inside]
    tells that the scan is within a match. *)
Fixpoint remove_links_from (inside : bool) (s : str) : str :=
  match s with
  | [] => []
  | c :: s' =>
      if inside then
        if is_space c then c :: remove_links_from false s'
        else remove_links_from true s'
      else if link_starts s then remove_links_from true s'
      else c :: remove_links_from false s'
  end.

Definition remove_links (text : str) : str := remove_links_from false text.

(** [sep.join(parts)] *)
Fixpoint join (sep : str) (parts : list str) : str :=
  match parts with
  | [] => []
  | [part] => part
  | part :: parts' => part ++ sep ++ join sep parts'
  end.

Definition chr_newline : N := 10.

Definition format_documents (documents : list document) : str :=
  let texts :=
    fold_left
      (fun texts doc => (texts ++ [page_content doc]) ++ [py "---"])
      documents [] in
  remove_links (join [chr_newline] texts).

Definition create_chain (llm retriever : loc) : M loc :=
  prompt ← chat_prompt_template;
  build_chain (VRef retriever) prompt llm.

(** ** optimizers.py: optimize_messages *)

(** The content of a message: a string, or the list form. *)
Inductive content :=
| CStr (s : str)
| CParts (parts : list value).

(** A message: its class, its content, and the other entries of
    [message.dict()]. *)
Record message := Message {
  message_class : string;
  message_content : content;
  message_fields : gmap string value
}.

Section Messages.

(** [isinstance(message, HumanMessage)], by the class of the message, and
    the fields of [HumanMessage(content=...)] that the call leaves to
    their defaults. *)
Variable is_human_message : string -> bool.
Variable human_defaults : gmap string value.

Definition optimize_message (m : message) : message :=
  match message_content m with
  | CStr s =>
      let optimized_content := optimize_prompt s in
      if is_human_message (message_class m)
      then Message "HumanMessage" (CStr optimized_content) human_defaults
      else Message (message_class m) (CStr optimized_content)
             (message_fields m)
  | CParts _ => m
  end.

Definition optimize_messages (messages : list message) : list message :=
  fold_left
    (fun optimized_messages m => optimized_messages ++ [optimize_message m])
    messages [].

End Messages.

(** ** app.py: ask_chain *)

(** What the page shows and keeps while a turn is consumed: the response
    so far, the documents, and every text handed to
    [message_placeholder.markdown]. *)
Record chat := Chat {
  full_response : str;
  documents : list document;
  shown : list str
}.

(** The body of the [async for] of [ask_chain]. *)
Definition receive (c : chat) (event : item) : chat :=
  match event with
  | Text s =>
      let full_response := full_response c ++ s in
      Chat full_response (documents c) (shown c ++ [full_response])
  | Documents docs =>
      Chat (full_response c) (documents c ++ docs) (shown c)
  end.

(** The expanders written after the loop: [Source #i+1] and the content. *)
Fixpoint sources_from (i : nat) (docs : list document) : list (nat * str) :=
  match docs with
  | [] => []
  | doc :: docs' => (i + 1, page_content doc) :: sources_from (S i) docs'
  end.

(** What [ask_chain] leaves: the sources shown and the assistant message
    appended to [st.session_state.messages]. *)
Record answer := Answer {
  answer_sources : list (nat * str);
  answer_shown : list str;
  answer_message : string * str
}.

Definition ask_chain_consume (events : list item) : answer :=
  let c := fold_left receive events (Chat [] [] []) in
  Answer (sources_from 0 (documents c)) (shown c)
         ("assistant"%string, full_response c).

(** [ask_chain]: the turn is run with the session id of the page and
    consumed to its end.  When the generator raises, the exception leaves
    [ask_chain] from inside the loop: no source is written and no message
    is appended. *)
Definition ask_chain
    (ChatGroq : Q -> string -> Z -> outcome (gmap string value))
    (astream_events :
       gmap loc object -> loc -> str -> str -> list loc -> run)
    (cfg : config) (question : str) (chain : loc) : M answer := fun w =>
  let '(g, w) := ask_question ChatGroq astream_events cfg chain question
                   (py "session-id-42") w in
  match raised g with
  | None => (Return (ask_chain_consume (yielded g)), w)
  | Some e => (Raise e, w)
  end.



(* ===================================================================== *)
(** * Part II: properties *)
(* ===================================================================== *)

(** ** truncate_text *)

Lemma slice_prefix_length (s : str) (n : Z) :
  (0 <= n <= Z.of_nat (length s))%Z ->
  Z.of_nat (length (slice s None (Some n))) = n.
Proof.
  intros Hn. unfold slice, slice_index.
  destruct (Z.ltb_spec n 0) as [Hneg | _]; [lia |].
  rewrite length_firstn, length_skipn. lia.
Qed.

Lemma slice_suffix_length (s : str) (n : Z) :
  (0 < n <= Z.of_nat (length s))%Z ->
  Z.of_nat (length (slice s (Some (- n)%Z) None)) = n.
Proof.
  intros Hn. unfold slice, slice_index.
  destruct (Z.ltb_spec (- n) 0) as [_ | Hpos]; [| lia].
  rewrite length_firstn, length_skipn. lia.
Qed.

Lemma slice_middle_length (s : str) (a n : Z) :
  (0 <= a)%Z -> (0 < n)%Z -> (a <= Z.of_nat (length s) - n)%Z ->
  Z.of_nat (length (slice s (Some a) (Some (- n)%Z)))
  = (Z.of_nat (length s) - n - a)%Z.
Proof.
  intros Ha Hn Hle. unfold slice, slice_index.
  destruct (Z.ltb_spec a 0) as [Hneg | _]; [lia |].
  destruct (Z.ltb_spec (- n) 0) as [_ | Hpos]; [| lia].
  rewrite length_firstn, length_skipn. lia.
Qed.

(** C9, as amended: a text no longer than [max_length] comes back
    unchanged, whatever [max_length] is; when [max_length] is at least 3
    (the default 8000 is), a longer text comes back with exactly
    [max_length + 3] characters, three more than the stated maximum. *)
Theorem truncate_text_length (text : str) (max_length : Z) :
  ((Z.of_nat (length text) <= max_length)%Z ->
   truncate_text text max_length = text)
  /\ ((3 <= max_length)%Z -> (max_length < Z.of_nat (length text))%Z ->
      Z.of_nat (length (truncate_text text max_length))
      = (max_length + 3)%Z
      /\ (max_length < Z.of_nat (length (truncate_text text max_length)))%Z).
Proof.
  unfold truncate_text. split.
  - intros Hle. destruct (Z.leb_spec (Z.of_nat (length text)) max_length);
      [reflexivity | lia].
  - intros H3 Hlt.
    destruct (Z.leb_spec (Z.of_nat (length text)) max_length) as [Hle | _];
      [lia |].
    assert (Hq : (1 <= max_length / 3)%Z)
      by (apply Z.div_le_lower_bound; lia).
    assert (Hq' : (3 * (max_length / 3) <= max_length)%Z)
      by (apply Z.mul_div_le; lia).
    rewrite !length_app, !Nat2Z.inj_add.
    rewrite slice_prefix_length by lia.
    rewrite slice_suffix_length by lia.
    rewrite slice_middle_length by lia.
    change (Z.of_nat (length (py "..."))) with 3%Z. lia.
Qed.

Lemma truncate_text_length_witness :
  truncate_text (py "abc") 8000 = py "abc"
  /\ Z.of_nat (length (truncate_text (repeat 97%N (Z.to_nat 8001)) default_max_length))
     = 8003%Z.
Proof.
  split.
  - apply (proj1 (truncate_text_length (py "abc") 8000)). vm_compute.
    discriminate.
  - apply (proj2 (truncate_text_length (repeat 97%N (Z.to_nat 8001)) default_max_length)).
    + vm_compute. discriminate.
    + vm_compute. reflexivity.
Defined.

(** C9 as stated fails for a maximum below 3: the conclusion is then taken
    with [text[-0:]], which is the whole text. *)
Lemma truncate_text_length_counterexample :
  ~ (forall (text : str) (max_length : Z),
       (max_length < Z.of_nat (length text))%Z ->
       Z.of_nat (length (truncate_text text max_length))
       = (max_length + 3)%Z).
Proof.
  intros H. specialize (H (py "abc") 2%Z). vm_compute in H.
  assert (Hlt : Lt = Lt) by reflexivity.
  specialize (H Hlt). discriminate H.
Qed.

(** ** optimize_prompt on given prompts *)

(** C6: the two trailing runs are collapsed one after the other. *)
Theorem optimize_prompt_embeddings :
  optimize_prompt
    (py "What is embeddings???????? And how do they work??????!!!!")
  = py "What is embeddings? And how do they work?!"
  /\ re_sub (N.eqb chr_bang) 2 (py "!") (py "??????!!!!") = py "??????!"
  /\ re_sub (N.eqb chr_qmark) 2 (py "?") (py "??????!") = py "?!".
Proof. repeat split; vm_compute; reflexivity. Qed.

(** C10: the normaliser can lengthen its input; two dots become three. *)
Theorem optimize_prompt_can_grow :
  optimize_prompt (py "..") = py "..."
  /\ exists x : str, length x < length (optimize_prompt x).
Proof.
  split; [vm_compute; reflexivity |].
  exists (py ".."). vm_compute. lia.
Qed.

(** ** Numbers *)

Lemma py_min_cases (a b : Q) :
  (b < a /\ py_min a b = b)%Q \/ (a <= b /\ py_min a b = a)%Q.
Proof. unfold py_min. destruct (Qlt_le_dec b a); [left | right]; auto. Qed.

Lemma py_min_range (a : Q) : (0 <= a -> 0 <= py_min a 1.0 <= 1)%Q.
Proof. intros Ha. destruct (py_min_cases a 1.0) as [[? ->] | [? ->]]; lra. Qed.


Lemma of_nat_nonneg (n : nat) : (0 <= of_nat n)%Q.
Proof.
  unfold of_nat. change 0%Q with (inject_Z 0). rewrite <- Zle_Qle. lia.
Qed.

Lemma of_nat_mono (n m : nat) : n <= m -> (of_nat n <= of_nat m)%Q.
Proof. intros H. unfold of_nat. rewrite <- Zle_Qle. lia. Qed.

Lemma of_nat_pos (n : nat) : 0 < n -> (0 < of_nat n)%Q.
Proof.
  intros H. unfold of_nat. change 0%Q with (inject_Z 0).
  rewrite <- Zlt_Qlt. lia.
Qed.

(** ** Rounding to binary64 *)

Lemma rne_bounds (x : Q) :
  (inject_Z (Qfloor x) <= inject_Z (Binary64.rne x) <= inject_Z (Qfloor x) + 1)%Q.
Proof.
  unfold Binary64.rne.
  assert (H1 : (inject_Z (Qfloor x + 1) == inject_Z (Qfloor x) + 1)%Q)
    by (rewrite inject_Z_plus; reflexivity).
  destruct (x - inject_Z (Qfloor x) ?= 1 # 2)%Q;
    [destruct (Z.even (Qfloor x)) | |]; rewrite ?H1; lra.
Qed.

Lemma rne_mono (x y : Q) : (x <= y)%Q -> (Binary64.rne x <= Binary64.rne y)%Z.
Proof.
  intros Hxy.
  pose proof (Qfloor_resp_le x y Hxy) as Hf.
  destruct (Z.eq_dec (Qfloor x) (Qfloor y)) as [E | NE].
  - unfold Binary64.rne. rewrite <- E.
    destruct (x - inject_Z (Qfloor x) ?= 1 # 2)%Q eqn:Cx;
      destruct (y - inject_Z (Qfloor x) ?= 1 # 2)%Q eqn:Cy;
      try (destruct (Z.even (Qfloor x))); try lia;
      exfalso; qcompare Cx; qcompare Cy; lra.
  - pose proof (rne_bounds x) as [_ Hx]. pose proof (rne_bounds y) as [Hy _].
    assert (Hlt : (Qfloor x + 1 <= Qfloor y)%Z) by lia.
    rewrite Zle_Qle, inject_Z_plus in Hlt. rewrite Zle_Qle.
    change (inject_Z 1) with 1%Q in Hlt. lra.
Qed.

Lemma rne_Z (k : Z) : Binary64.rne (inject_Z k) = k.
Proof.
  unfold Binary64.rne. rewrite Qfloor_Z.
  assert (H : (inject_Z k - inject_Z k ?= 1 # 2)%Q = Lt).
  { rewrite <- Qlt_alt. lra. }
  rewrite H. reflexivity.
Qed.

Lemma two_nonzero : ~ (2 == 0)%Q.
Proof. intros H. discriminate H. Qed.

Lemma pow2_pos (e : Z) : (0 < 2 ^ e)%Q.
Proof. apply Qpower_0_lt. reflexivity. Qed.

Lemma pow2_le (a b : Z) : (a <= b)%Z -> (2 ^ a <= 2 ^ b)%Q.
Proof. intros H. apply Qpower_le_compat_l; [exact H | discriminate]. Qed.

Lemma pow2_succ (a : Z) : (2 ^ (a + 1) == 2 * 2 ^ a)%Q.
Proof.
  rewrite Qpower_plus by exact two_nonzero. change (2 ^ 1)%Q with 2%Q. ring.
Qed.

Lemma pow2_Z (a : Z) : (0 <= a)%Z -> (inject_Z (2 ^ a) == 2 ^ a)%Q.
Proof. intros H. rewrite Zpower_Qpower by exact H. reflexivity. Qed.

(** [2 ^ Binary64.floor_log2 x <= x < 2 ^ (Binary64.floor_log2 x + 1)] for a positive [x]. *)
Lemma floor_log2_spec (x : Q) :
  (0 < x)%Q -> (2 ^ Binary64.floor_log2 x <= x < 2 ^ (Binary64.floor_log2 x + 1))%Q.
Proof.
  intros Hx. destruct x as [n d]. unfold Binary64.floor_log2. cbn [Qnum Qden].
  assert (Hn : (0 < n)%Z).
  { unfold Qlt in Hx. cbn in Hx. lia. }
  set (a := Z.log2 n). set (b := Z.log2 (Z.pos d)).
  destruct (Z.log2_spec n Hn) as [Ha1 Ha2].
  destruct (Z.log2_spec (Z.pos d) ltac:(lia)) as [Hb1 Hb2].
  fold a in Ha1, Ha2. fold b in Hb1, Hb2.
  assert (Ha0 : (0 <= a)%Z) by apply Z.log2_nonneg.
  assert (Hb0 : (0 <= b)%Z) by apply Z.log2_nonneg.
  rewrite Zle_Qle, pow2_Z in Ha1, Hb1 by assumption.
  rewrite Zlt_Qlt, pow2_Z in Ha2, Hb2 by lia.
  replace (Z.succ a) with (a + 1)%Z in Ha2 by lia.
  replace (Z.succ b) with (b + 1)%Z in Hb2 by lia.
  rewrite pow2_succ in Ha2, Hb2.
  assert (Hnd : (n # d == inject_Z n / inject_Z (Z.pos d))%Q)
    by (rewrite Qmake_Qdiv; reflexivity).
  assert (Hd : (0 < inject_Z (Z.pos d))%Q) by reflexivity.
  pose proof (pow2_pos a) as Pa. pose proof (pow2_pos b) as Pb.
  pose proof (pow2_pos (a - b)) as Pab.
  assert (Hab : (2 ^ a == 2 ^ (a - b) * 2 ^ b)%Q).
  { rewrite <- Qpower_plus by exact two_nonzero.
    replace (a - b + b)%Z with a by lia. reflexivity. }
  set (X := (n # d)%Q) in *. set (N := inject_Z n) in *.
  set (D := inject_Z (Z.pos d)) in *.
  assert (HX : (X * D == N)%Q).
  { rewrite Hnd. field. lra. }
  destruct (Qle_bool (2 ^ (a - b)) X) eqn:Hle.
  - apply Qle_bool_iff in Hle. split; [exact Hle |].
    rewrite pow2_succ.
    set (A := (2 ^ a)%Q) in *. set (B := (2 ^ b)%Q) in *.
    set (P := (2 ^ (a - b))%Q) in *.
    (* X * D = N < 2 * 2^a = 2 * 2^(a-b) * 2^b <= 2 * 2^(a-b) * D *)
    apply Qnot_le_lt. intros Hge.
    assert (H1 : (2 * P * D <= X * D)%Q).
    { apply Qmult_le_compat_r; lra. }
    assert (H2 : (2 * P * B <= 2 * P * D)%Q).
    { apply Qmult_le_l; [lra | exact Hb1]. }
    lra.
  - assert (Hlt : (X < 2 ^ (a - b))%Q).
    { apply Qnot_le_lt. intros H. apply Qle_bool_iff in H. congruence. }
    replace (a - b - 1 + 1)%Z with (a - b)%Z by lia.
    split; [| exact Hlt].
    assert (Hhalf : (2 ^ (a - b) == 2 * 2 ^ (a - b - 1))%Q).
    { rewrite <- pow2_succ. replace (a - b - 1 + 1)%Z with (a - b)%Z by lia.
      reflexivity. }
    pose proof (pow2_pos (a - b - 1)) as Pab1.
    set (A := (2 ^ a)%Q) in *. set (B := (2 ^ b)%Q) in *.
    set (P := (2 ^ (a - b))%Q) in *. set (P1 := (2 ^ (a - b - 1))%Q) in *.
    (* 2^(a-b-1) * D < 2^(a-b-1) * 2 * 2^b = 2^a <= N = X * D *)
    apply Qnot_lt_le. intros Hsmall.
    assert (H1 : (X * D <= P1 * D)%Q).
    { apply Qmult_le_compat_r; lra. }
    assert (H2 : (P1 * D < P1 * (2 * B))%Q).
    { apply Qmult_lt_l; [exact Pab1 | exact Hb2]. }
    assert (H3 : (P * B == 2 * P1 * B)%Q) by (rewrite Hhalf; reflexivity).
    lra.
Qed.

Lemma floor_log2_mono (x y : Q) :
  (0 < x)%Q -> (x <= y)%Q -> (Binary64.floor_log2 x <= Binary64.floor_log2 y)%Z.
Proof.
  intros Hx Hxy.
  destruct (floor_log2_spec x Hx) as [Lx _].
  destruct (floor_log2_spec y ltac:(lra)) as [_ Uy].
  destruct (Z_le_gt_dec (Binary64.floor_log2 x) (Binary64.floor_log2 y)) as [H | H];
    [exact H | exfalso].
  pose proof (pow2_le (Binary64.floor_log2 y + 1) (Binary64.floor_log2 x) ltac:(lia)). lra.
Qed.

Lemma exponent_mono (x y : Q) :
  (0 < x)%Q -> (x <= y)%Q -> (Binary64.exponent x <= Binary64.exponent y)%Z.
Proof.
  intros Hx Hxy. unfold Binary64.exponent.
  pose proof (floor_log2_mono x y Hx Hxy). lia.
Qed.

(** The significand of a positive [x] is below [2 ^ 53], and at least
    [2 ^ 52] unless [x] is subnormal. *)
Lemma significand_upper (x : Q) :
  (0 < x)%Q -> (x / 2 ^ Binary64.exponent x <= inject_Z (2 ^ 53))%Q.
Proof.
  intros Hx. destruct (floor_log2_spec x Hx) as [_ U].
  pose proof (pow2_pos (Binary64.exponent x)) as P.
  apply Qle_shift_div_r; [exact P |].
  rewrite pow2_Z by lia. rewrite <- Qpower_plus by exact two_nonzero.
  pose proof (pow2_le (Binary64.floor_log2 x + 1) (53 + Binary64.exponent x)
                ltac:(unfold Binary64.exponent; lia)). lra.
Qed.

Lemma significand_lower (x : Q) :
  (0 < x)%Q -> (-1074 < Binary64.exponent x)%Z ->
  (inject_Z (2 ^ 52) <= x / 2 ^ Binary64.exponent x)%Q.
Proof.
  intros Hx He. destruct (floor_log2_spec x Hx) as [L _].
  pose proof (pow2_pos (Binary64.exponent x)) as P.
  apply Qle_shift_div_l; [exact P |].
  rewrite pow2_Z by lia. rewrite <- Qpower_plus by exact two_nonzero.
  replace (52 + Binary64.exponent x)%Z with (Binary64.floor_log2 x)
    by (unfold Binary64.exponent in *; lia).
  exact L.
Qed.

Lemma round_pos_nonneg (x : Q) : (0 < x)%Q -> (0 <= Binary64.round_pos x)%Q.
Proof.
  intros Hx. unfold Binary64.round_pos.
  pose proof (pow2_pos (Binary64.exponent x)) as P.
  apply Qmult_le_0_compat; [| lra].
  change 0%Q with (inject_Z 0). rewrite <- Zle_Qle.
  rewrite <- (rne_Z 0). apply rne_mono.
  apply Qle_shift_div_l; [exact P |]. change (inject_Z 0) with 0%Q. lra.
Qed.

Lemma round_pos_mono (x y : Q) :
  (0 < x)%Q -> (x <= y)%Q -> (Binary64.round_pos x <= Binary64.round_pos y)%Q.
Proof.
  intros Hx Hxy. pose proof (exponent_mono x y Hx Hxy) as He.
  unfold Binary64.round_pos.
  pose proof (pow2_pos (Binary64.exponent x)) as Px.
  pose proof (pow2_pos (Binary64.exponent y)) as Py.
  destruct (Z.eq_dec (Binary64.exponent x) (Binary64.exponent y)) as [E | NE].
  - rewrite <- E. apply Qmult_le_compat_r; [| lra].
    rewrite <- Zle_Qle. apply rne_mono.
    apply Qmult_le_compat_r; [exact Hxy |].
    apply Qlt_le_weak, Qinv_lt_0_compat, Px.
  - assert (Hup : (Binary64.rne (x / 2 ^ Binary64.exponent x) <= 2 ^ 53)%Z).
    { rewrite <- (rne_Z (2 ^ 53)). apply rne_mono, significand_upper, Hx. }
    assert (Hlo : (2 ^ 52 <= Binary64.rne (y / 2 ^ Binary64.exponent y))%Z).
    { rewrite <- (rne_Z (2 ^ 52)). apply rne_mono, significand_lower; [lra |].
      unfold Binary64.exponent in *. lia. }
    rewrite Zle_Qle in Hup, Hlo.
    apply Qle_trans with (inject_Z (2 ^ 53) * 2 ^ Binary64.exponent x)%Q;
      [apply Qmult_le_compat_r; [exact Hup | lra] |].
    apply Qle_trans with (inject_Z (2 ^ 52) * 2 ^ Binary64.exponent y)%Q;
      [| apply Qmult_le_compat_r; [exact Hlo | lra]].
    rewrite !pow2_Z by lia. rewrite <- !Qpower_plus by exact two_nonzero.
    apply pow2_le. lia.
Qed.

Lemma round_zero (x : Q) : (x == 0)%Q -> Binary64.round x = 0%Q.
Proof.
  intros H. unfold Binary64.round. destruct x as [[| p | p] d]; try reflexivity;
    discriminate H.
Qed.

Lemma round_positive (x : Q) : (0 < x)%Q -> (Binary64.round x == Binary64.round_pos x)%Q.
Proof.
  intros H. unfold Binary64.round. rewrite Qred_correct.
  destruct x as [[| p | p] d]; try reflexivity; discriminate H.
Qed.

(** Rounding is monotone on the non-negative numbers. *)
Lemma round_mono (x y : Q) : (0 <= x)%Q -> (x <= y)%Q -> (Binary64.round x <= Binary64.round y)%Q.
Proof.
  intros Hx Hxy.
  destruct (Qlt_le_dec 0 x) as [Px | Zx].
  - rewrite !round_positive by lra. apply round_pos_mono; assumption.
  - rewrite (round_zero x) by lra.
    destruct (Qlt_le_dec 0 y) as [Py | Zy].
    + rewrite round_positive by exact Py. apply round_pos_nonneg, Py.
    + rewrite (round_zero y) by lra. lra.
Qed.

Lemma round_nonneg (x : Q) : (0 <= x)%Q -> (0 <= Binary64.round x)%Q.
Proof.
  intros H. change 0%Q with (Binary64.round 0) at 1. apply round_mono; lra.
Qed.

Lemma round_pos_comp (x y : Q) :
  (0 < x)%Q -> (x == y)%Q -> (Binary64.round_pos x == Binary64.round_pos y)%Q.
Proof.
  intros Hx E. apply Qle_antisym; apply round_pos_mono; lra.
Qed.

(** Rounding depends on the number alone, not on the fraction that
    denotes it. *)
Lemma round_comp (x y : Q) : (x == y)%Q -> Binary64.round x = Binary64.round y.
Proof.
  intros E. unfold Binary64.round. apply Qred_complete.
  destruct x as [[| p | p] d], y as [[| p' | p'] d']; cbn [Qnum];
    try reflexivity; try discriminate E.
  - apply round_pos_comp; [reflexivity | exact E].
  - apply Qopp_comp, round_pos_comp; [reflexivity |]. rewrite E. reflexivity.
Qed.

(** ** Float arithmetic *)

Lemma add_mono (a a' b b' : Q) :
  (0 <= a)%Q -> (a <= a')%Q -> (0 <= b)%Q -> (b <= b')%Q ->
  (Binary64.add a b <= Binary64.add a' b')%Q.
Proof. intros. apply round_mono; lra. Qed.

Lemma add_nonneg (a b : Q) :
  (0 <= a)%Q -> (0 <= b)%Q -> (0 <= Binary64.add a b)%Q.
Proof. intros. apply round_nonneg. lra. Qed.

Lemma mul_mono (a b b' : Q) :
  (0 <= a)%Q -> (0 <= b)%Q -> (b <= b')%Q ->
  (Binary64.mul a b <= Binary64.mul a b')%Q.
Proof.
  intros Ha Hb Hbb. apply round_mono.
  - apply Qmult_le_0_compat; assumption.
  - rewrite (Qmult_comm a b), (Qmult_comm a b').
    apply Qmult_le_compat_r; assumption.
Qed.

Lemma mul_nonneg (a b : Q) :
  (0 <= a)%Q -> (0 <= b)%Q -> (0 <= Binary64.mul a b)%Q.
Proof. intros. apply round_nonneg, Qmult_le_0_compat; assumption. Qed.

Lemma div_mono (a a' b : Q) :
  (0 <= a)%Q -> (a <= a')%Q -> (0 < b)%Q ->
  (Binary64.div a b <= Binary64.div a' b)%Q.
Proof.
  intros Ha Haa Hb. apply round_mono.
  - apply Qle_shift_div_l; [exact Hb | lra].
  - unfold Qdiv. apply Qmult_le_compat_r; [exact Haa |].
    apply Qlt_le_weak, Qinv_lt_0_compat, Hb.
Qed.

Lemma div_nonneg (a b : Q) :
  (0 <= a)%Q -> (0 <= b)%Q -> (0 <= Binary64.div a b)%Q.
Proof.
  intros Ha Hb. apply round_nonneg. unfold Qdiv.
  apply Qmult_le_0_compat; [exact Ha |]. apply Qinv_le_0_compat, Hb.
Qed.

Lemma literal_one : Binary64.literal 1.0 = 1%Q.
Proof. vm_compute. reflexivity. Qed.

Lemma literal_nonneg (x : Q) : (0 <= x)%Q -> (0 <= Binary64.literal x)%Q.
Proof. apply round_nonneg. Qed.

(** The weights and the threshold of the scorer, and the greatest score. *)
Lemma literal_weights :
  Binary64.literal 0.20 = (3602879701896397 # 18014398509481984)%Q
  /\ Binary64.literal 0.70 = (3152519739159347 # 4503599627370496)%Q
  /\ Binary64.literal 0.10 = (3602879701896397 # 36028797018963968)%Q
  /\ Binary64.literal 0.30 = (5404319552844595 # 18014398509481984)%Q.
Proof. vm_compute. repeat split; reflexivity. Qed.

(** ** Substrings *)

Lemma str_eqb_eq (a b : str) : str_eqb a b = true <-> a = b.
Proof.
  revert b. induction a as [| x a IH]; intros [| y b]; simpl;
    try (split; [discriminate | congruence]); [tauto |].
  rewrite andb_true_iff, N.eqb_eq, IH. split; [intros []; congruence |].
  intros [= -> ->]. auto.
Qed.


Lemma startswith_self (p b : str) : startswith p (p ++ b) = true.
Proof.
  induction p as [| x p IH]; simpl; [reflexivity |].
  rewrite N.eqb_refl. exact IH.
Qed.


Lemma contains_app_l (n a h : str) :
  contains n h = true -> contains n (a ++ h) = true.
Proof.
  intros H. induction a as [| y a IH]; simpl; [exact H |].
  rewrite IH. apply orb_true_r.
Qed.

Lemma contains_self (n : str) : contains n n = true.
Proof.
  destruct n; simpl; [reflexivity |].
  rewrite N.eqb_refl. rewrite <- (app_nil_r n0) at 2.
  rewrite startswith_self. reflexivity.
Qed.

(** ** The indicator loops *)

Lemma dict_get_nonneg (d : list (str * Q)) (key : str) (default : Q) :
  forallb (fun kv => Qle_bool 0 (snd kv)) d = true ->
  (0 <= default)%Q -> (0 <= dict_get d key default)%Q.
Proof.
  intros Hd Hdef. induction d as [| [k v] d IH]; simpl in *; [exact Hdef |].
  apply andb_true_iff in Hd as [Hv Hd]. destruct (str_eqb k key); auto.
  apply Qle_bool_iff. exact Hv.
Qed.

Lemma term_weight_nonneg (term : str) (default : Q) :
  (0 <= default)%Q -> (0 <= dict_get TERM_WEIGHTS term default)%Q.
Proof. apply dict_get_nonneg. vm_compute. reflexivity. Qed.

Lemma count_terms_cons (x : str) (terms : list str) (default : Q)
    (query : str) (count : Q) :
  count_terms (x :: terms) default query count
  = count_terms terms default query
      (if contains x query
       then (count + dict_get TERM_WEIGHTS x default)%Q else count).
Proof. reflexivity. Qed.

Section Extension.

(** [query'] contains every term that [query] contains. *)
Variables query query' : str.
Hypothesis Hext :
  forall n, contains n query = true -> contains n query' = true.




End Extension.

Lemma count_terms_ge (terms : list str) (default : Q) (query : str)
    (count : Q) :
  (0 <= default)%Q -> (count <= count_terms terms default query count)%Q.
Proof.
  intros Hdef. revert count.
  induction terms as [| x terms IH]; intros count; [apply Qle_refl |].
  rewrite count_terms_cons.
  pose proof (term_weight_nonneg x default Hdef) as Hw.
  eapply Qle_trans; [| apply IH].
  destruct (contains x query); lra.
Qed.


Lemma topic_boost_ge (query : str) (count : Q) :
  (count <= topic_boost query count)%Q.
Proof.
  unfold topic_boost.
  destruct (existsb _ AI_TERMS); [| lra].
  destruct (existsb _ ETHICS_TERMS); lra.
Qed.

Lemma indicator_count_nonneg (query : str) : (0 <= indicator_count query)%Q.
Proof.
  unfold indicator_count.
  eapply Qle_trans; [| apply topic_boost_ge].
  eapply Qle_trans; [| apply count_terms_ge; lra].
  apply count_terms_ge. lra.
Qed.

(** ** The three component scores *)

Lemma length_score_range (query : str) : (0 <= length_score query <= 1)%Q.
Proof.
  unfold length_score. apply py_min_range.
  pose proof (of_nat_nonneg (length query)). div_by_constant. lra.
Qed.

Lemma indicator_score_range (query : str) :
  (0 <= indicator_score query <= 1)%Q.
Proof.
  unfold indicator_score. apply py_min_range.
  pose proof (indicator_count_nonneg query). div_by_constant. lra.
Qed.

Lemma avg_words_per_sentence_nonneg (query : str) :
  (0 <= avg_words_per_sentence query)%Q.
Proof.
  unfold avg_words_per_sentence.
  apply Qle_shift_div_l; [apply of_nat_pos; lia |].
  rewrite Qmult_0_l. apply of_nat_nonneg.
Qed.

Lemma sentence_score_range (query : str) : (0 <= sentence_score query <= 1)%Q.
Proof.
  unfold sentence_score. apply py_min_range.
  pose proof (avg_words_per_sentence_nonneg query). div_by_constant. lra.
Qed.

Lemma complexity_score_range (query : str) :
  (0 <= complexity_score query <= 1)%Q.
Proof.
  unfold complexity_score.
  pose proof (length_score_range query).
  pose proof (indicator_score_range query).
  pose proof (sentence_score_range query). lra.
Qed.


(** The two scenarios of the test scripts. *)
Example assess_complexity_pdf :
  fst (assess_complexity (py "What is a PDF?")) = false.
Proof. vm_compute. reflexivity. Qed.

Example assess_complexity_philosophical :
  fst (assess_complexity
         (py "Explain the philosophical considerations of implementing AI systems"))
  = true.
Proof. vm_compute. reflexivity. Qed.

(** ** The score as the interpreter computes it *)

Lemma py_min_unit (a : Q) : (0 <= a -> 0 <= py_min a 1 <= 1)%Q.
Proof. intros H. destruct (py_min_cases a 1) as [[? ->] | [? ->]]; lra. Qed.

Lemma binary64_count_terms_cons (x : str) (terms : list str) (default : Q)
    (query : str) (count : Q) :
  Binary64.count_terms (x :: terms) default query count
  = Binary64.count_terms terms default query
      (if contains x query
       then Binary64.add count
              (Binary64.literal (dict_get TERM_WEIGHTS x default))
       else count).
Proof. reflexivity. Qed.

Lemma binary64_count_terms_nonneg (terms : list str) (default : Q)
    (query : str) (count : Q) :
  (0 <= default)%Q -> (0 <= count)%Q ->
  (0 <= Binary64.count_terms terms default query count)%Q.
Proof.
  intros Hdef. revert count.
  induction terms as [| x terms IH]; intros count Hc; [exact Hc |].
  rewrite binary64_count_terms_cons. apply IH.
  destruct (contains x query); [| exact Hc].
  apply add_nonneg; [exact Hc |].
  apply literal_nonneg, term_weight_nonneg, Hdef.
Qed.

Lemma binary64_indicator_count_nonneg (query : str) :
  (0 <= Binary64.indicator_count query)%Q.
Proof.
  unfold Binary64.indicator_count, Binary64.topic_boost.
  assert (H : (0 <= Binary64.count_terms COMPLEX_PHRASES 2.0 query
                      (Binary64.count_terms COMPLEXITY_INDICATORS 1.0 query 0))%Q).
  { apply binary64_count_terms_nonneg; [lra |].
    apply binary64_count_terms_nonneg; lra. }
  destruct (existsb _ AI_TERMS); [| exact H].
  destruct (existsb _ ETHICS_TERMS); [| exact H].
  apply add_nonneg; [exact H |]. apply literal_nonneg. lra.
Qed.

Lemma binary64_length_score_range (query : str) :
  (0 <= Binary64.length_score query <= 1)%Q.
Proof.
  unfold Binary64.length_score. rewrite literal_one. apply py_min_unit.
  apply div_nonneg; [apply of_nat_nonneg | lra].
Qed.

Lemma binary64_indicator_score_range (query : str) :
  (0 <= Binary64.indicator_score query <= 1)%Q.
Proof.
  unfold Binary64.indicator_score. rewrite literal_one. apply py_min_unit.
  apply div_nonneg; [apply binary64_indicator_count_nonneg | lra].
Qed.

Lemma binary64_sentence_score_range (query : str) :
  (0 <= Binary64.sentence_score query <= 1)%Q.
Proof.
  unfold Binary64.sentence_score. rewrite literal_one. apply py_min_unit.
  apply div_nonneg; [| lra]. unfold Binary64.avg_words_per_sentence.
  apply div_nonneg; apply of_nat_nonneg.
Qed.

(** The weighted sum grows with each component. *)
Lemma weighted_sum_mono (l i s l' i' s' : Q) :
  (0 <= l <= l')%Q -> (0 <= i <= i')%Q -> (0 <= s <= s')%Q ->
  (Binary64.add
     (Binary64.add (Binary64.mul (Binary64.literal 0.20) l)
                   (Binary64.mul (Binary64.literal 0.70) i))
     (Binary64.mul (Binary64.literal 0.10) s)
   <= Binary64.add
        (Binary64.add (Binary64.mul (Binary64.literal 0.20) l')
                      (Binary64.mul (Binary64.literal 0.70) i'))
        (Binary64.mul (Binary64.literal 0.10) s'))%Q.
Proof.
  intros [Hl Hll] [Hi Hii] [Hs Hss].
  assert (H20 : (0 <= Binary64.literal 0.20)%Q) by (apply literal_nonneg; lra).
  assert (H70 : (0 <= Binary64.literal 0.70)%Q) by (apply literal_nonneg; lra).
  assert (H10 : (0 <= Binary64.literal 0.10)%Q) by (apply literal_nonneg; lra).
  apply add_mono.
  - apply add_nonneg; apply mul_nonneg; assumption.
  - apply add_mono; try (apply mul_nonneg; assumption);
      apply mul_mono; assumption.
  - apply mul_nonneg; assumption.
  - apply mul_mono; assumption.
Qed.

Lemma binary64_complexity_score_range (query : str) :
  (0 <= Binary64.complexity_score query <= 1)%Q.
Proof.
  pose proof (binary64_length_score_range query) as [HL0 HL1].
  pose proof (binary64_indicator_score_range query) as [HI0 HI1].
  pose proof (binary64_sentence_score_range query) as [HS0 HS1].
  unfold Binary64.complexity_score. split.
  - apply add_nonneg; [apply add_nonneg |]; apply mul_nonneg;
      try assumption; apply literal_nonneg; lra.
  - eapply Qle_trans;
      [apply (weighted_sum_mono _ _ _ 1 1 1); split; assumption |].
    vm_compute. discriminate.
Qed.

Lemma binary64_assess_lowered_is_complex (query : str) :
  fst (Binary64.assess_lowered query) = true
  <-> (Binary64.literal 0.30 < snd (Binary64.assess_lowered query))%Q.
Proof.
  unfold Binary64.assess_lowered. cbn [fst snd].
  destruct (Qlt_le_dec (Binary64.literal 0.30)
              (Binary64.complexity_score query)) as [Hlt | Hle].
  - tauto.
  - split; [discriminate | intros H; exfalso; lra].
Qed.

(** C1: the score is the weighted sum of three components, each within
    [0, 1], so it is within [0, 1]; the query is complex exactly when the
    score exceeds 0.30; and the result depends on the query alone.  The
    sum, the components and the comparison are those of binary64
    arithmetic, and the bounds hold of every text that stands for the
    lower-cased query. *)
Theorem assess_complexity_score (q : str) :
  Binary64.assess_complexity q = Binary64.assess_lowered (lower q)
  /\ (forall query : str,
        let is_complex := fst (Binary64.assess_lowered query) in
        let score := snd (Binary64.assess_lowered query) in
        score
        = Binary64.add
            (Binary64.add
               (Binary64.mul (Binary64.literal 0.20)
                  (Binary64.length_score query))
               (Binary64.mul (Binary64.literal 0.70)
                  (Binary64.indicator_score query)))
            (Binary64.mul (Binary64.literal 0.10)
               (Binary64.sentence_score query))
        /\ Binary64.length_score query
           = py_min (Binary64.div (of_nat (length query)) 200)
               (Binary64.literal 1.0)
        /\ Binary64.indicator_score query
           = py_min (Binary64.div (Binary64.indicator_count query) 6)
               (Binary64.literal 1.0)
        /\ Binary64.sentence_score query
           = py_min (Binary64.div (Binary64.avg_words_per_sentence query) 20)
               (Binary64.literal 1.0)
        /\ (0 <= Binary64.length_score query <= 1)%Q
        /\ (0 <= Binary64.indicator_score query <= 1)%Q
        /\ (0 <= Binary64.sentence_score query <= 1)%Q
        /\ (0 <= score <= 1)%Q
        /\ (is_complex = true <-> (Binary64.literal 0.30 < score)%Q))
  /\ (forall q' : str,
        q' = q -> Binary64.assess_complexity q' = Binary64.assess_complexity q).
Proof.
  split; [reflexivity |]. split; [| intros q' ->; reflexivity].
  intros query. cbv zeta.
  split; [reflexivity |]. split; [reflexivity |]. split; [reflexivity |].
  split; [reflexivity |].
  split; [apply binary64_length_score_range |].
  split; [apply binary64_indicator_score_range |].
  split; [apply binary64_sentence_score_range |].
  split; [apply binary64_complexity_score_range |].
  apply binary64_assess_lowered_is_complex.
Qed.

(** The two scenarios of the test scripts (scores 0.034 and 0.667), a
    query that adds the weight 1.8 three times, and a query whose score is
    the sum 0.2 + 0.1 of binary64, just above the threshold. *)
Example binary64_assess_complexity_pdf :
  Binary64.assess_complexity (py "What is a PDF?")
  = (false, (1224979098644775 # 36028797018963968)%Q).
Proof. vm_compute. reflexivity. Qed.

Example binary64_assess_complexity_philosophical :
  Binary64.assess_complexity
    (py "Explain the philosophical considerations of implementing AI systems")
  = (true, (3003900951456121 # 4503599627370496)%Q).
Proof. vm_compute. reflexivity. Qed.

Example binary64_assess_complexity_three_terms :
  Binary64.assess_complexity (py "complex theory paradox")
  = (true, (3003900951456121 # 4503599627370496)%Q).
Proof. vm_compute. reflexivity. Qed.

Example binary64_assess_complexity_threshold :
  Binary64.assess_complexity (concat (repeat (py "x ") 100))
  = (true, (1351079888211149 # 4503599627370496)%Q).
Proof. vm_compute. reflexivity. Qed.

(** ** What [assess_complexity] returns *)

Lemma matched_in_cons (x : str) (terms : list str) (default : Q)
    (query : str) :
  matched_in (x :: terms) default query
  = if contains x query
    then (x, dict_get TERM_WEIGHTS x default) :: matched_in terms default query
    else matched_in terms default query.
Proof.
  unfold matched_in. cbn [List.filter]. destruct (contains x query); reflexivity.
Qed.

Lemma count_terms_matched (terms : list str) (default : Q) (query : str)
    (count : Q) :
  count_terms terms default query count
  = sum_weights (matched_in terms default query) count.
Proof.
  revert count. induction terms as [| x terms IH]; intros count;
    [reflexivity |].
  rewrite count_terms_cons, matched_in_cons.
  destruct (contains x query); cbn [sum_weights]; apply IH.
Qed.

Lemma sum_weights_app (a b : list (str * Q)) (count : Q) :
  sum_weights (a ++ b) count = sum_weights b (sum_weights a count).
Proof.
  revert count. induction a as [| [k v] a IH]; intros count; simpl; auto.
Qed.

(** C4, as amended: the result is the pair of the classification and the
    score and nothing more.  The matched indicators are not returned; each
    adds its weight to the indicator count from which the score is
    computed. *)
Theorem assess_complexity_returns_pair (q : str) :
  assess_complexity q
  = ((if Qlt_le_dec 0.30 (complexity_score (lower q)) then true else false),
     complexity_score (lower q))
  /\ indicator_count (lower q)
     = topic_boost (lower q) (sum_weights (matched_indicators q) 0).
Proof.
  split; [reflexivity |].
  unfold indicator_count, matched_indicators.
  rewrite sum_weights_app, !count_terms_matched. reflexivity.
Qed.

(** C4 as stated fails: the matched indicators cannot be read off the
    result, since two queries that match different indicators get the same
    result. *)
Lemma matched_indicators_not_returned :
  ~ (exists matched : bool * Q -> list (str * Q),
       forall q : str, matched (assess_complexity q) = matched_indicators q).
Proof.
  intros [matched H].
  pose proof (H (py "analyze")) as H1. pose proof (H (py "explore")) as H2.
  assert (Heq : assess_complexity (py "analyze")
                = assess_complexity (py "explore"))
    by (vm_compute; reflexivity).
  rewrite Heq, H2 in H1. vm_compute in H1. discriminate H1.
Qed.

(** ** Adding a high-weight term *)

Lemma existsb_str_eqb_In (t : str) (l : list str) :
  existsb (str_eqb t) l = true -> In t l.
Proof.
  rewrite existsb_exists. intros (x & Hin & Heq).
  apply str_eqb_eq in Heq. subst x. exact Hin.
Qed.

(** Every key of weight 3.0 is in lower case, is looked for by one of the
    two loops, and weighs 3.0 whatever the default of that loop. *)
Lemma high_weight_terms_spec (t : str) :
  In t HIGH_WEIGHT_TERMS ->
  lower t = t
  /\ (3 <= dict_get TERM_WEIGHTS t 1.0)%Q
  /\ (3 <= dict_get TERM_WEIGHTS t 2.0)%Q
  /\ (In t COMPLEXITY_INDICATORS \/ In t COMPLEX_PHRASES).
Proof.
  intros Hin.
  assert (Hall :
    forallb (fun t => str_eqb (lower t) t
                      && Qle_bool 3 (dict_get TERM_WEIGHTS t 1.0)
                      && Qle_bool 3 (dict_get TERM_WEIGHTS t 2.0)
                      && (existsb (str_eqb t) COMPLEXITY_INDICATORS
                          || existsb (str_eqb t) COMPLEX_PHRASES))
      HIGH_WEIGHT_TERMS = true) by (vm_compute; reflexivity).
  rewrite forallb_forall in Hall. specialize (Hall t Hin).
  rewrite !andb_true_iff, orb_true_iff in Hall.
  destruct Hall as [[[Hlow H1] H2] Hmem].
  apply str_eqb_eq in Hlow. apply Qle_bool_iff in H1, H2.
  repeat split; auto.
  destruct Hmem as [H | H]; [left | right]; exact (existsb_str_eqb_In _ _ H).
Qed.







(** ** One substitution pass *)

Section Pass.

Variable cls : N -> bool.
Variable k : nat.
Variable repl : str.
Hypothesis Hk : 1 <= k.

Lemma flush_run_nil : flush_run k repl [] = [].
Proof using Hk.
  unfold flush_run. destruct (Nat.leb_spec k (length (@nil N))) as [H | H];
    [simpl in H; lia | reflexivity].
Qed.

Lemma flush_run_idem (pend : str) :
  flush_run k repl (flush_run k repl pend) = flush_run k repl pend.
Proof.
  unfold flush_run at 2 3. destruct (k <=? length pend) eqn:Hp.
  - unfold flush_run. destruct (k <=? length repl); reflexivity.
  - unfold flush_run. rewrite Hp. reflexivity.
Qed.

Lemma flush_run_cls (pend : str) :
  forallb cls repl = true -> forallb cls pend = true ->
  forallb cls (flush_run k repl pend) = true.
Proof. intros Hr Hp. unfold flush_run. destruct (k <=? length pend); auto. Qed.

Lemma flush_run_nonempty (pend : str) :
  repl <> [] -> pend <> [] -> flush_run k repl pend <> [].
Proof. intros Hr Hp. unfold flush_run. destruct (k <=? length pend); auto. Qed.

(** A run of class characters joins the pending run. *)
Lemma re_sub_run_run (pend r s : str) :
  forallb cls r = true ->
  re_sub_run cls k repl pend (r ++ s) = re_sub_run cls k repl (pend ++ r) s.
Proof.
  revert pend. induction r as [| c r IH]; intros pend Hr; simpl.
  - rewrite app_nil_r. reflexivity.
  - simpl in Hr. apply andb_true_iff in Hr as [Hc Hr]. rewrite Hc.
    rewrite IH by exact Hr. rewrite <- app_assoc. reflexivity.
Qed.

(** At a character outside the class, or at the end, the pending run is
    flushed. *)
Lemma re_sub_run_outside (pend s : str) :
  starts_outside cls s = true ->
  re_sub_run cls k repl pend s
  = flush_run k repl pend ++ re_sub_run cls k repl [] s.
Proof using Hk.
  destruct s as [| c s]; simpl.
  - intros _. rewrite flush_run_nil, app_nil_r. reflexivity.
  - intros Hc. apply negb_true_iff in Hc. rewrite Hc, flush_run_nil.
    reflexivity.
Qed.

(** Characters outside the class are copied. *)
Lemma re_sub_run_skip (r s : str) :
  forallb (fun c => negb (cls c)) r = true ->
  re_sub_run cls k repl [] (r ++ s) = r ++ re_sub_run cls k repl [] s.
Proof using Hk.
  induction r as [| c r IH]; intros Hr; simpl; [reflexivity |].
  simpl in Hr. apply andb_true_iff in Hr as [Hc Hr].
  apply negb_true_iff in Hc. rewrite Hc, flush_run_nil, IH by exact Hr.
  reflexivity.
Qed.

Lemma re_sub_run_cons_outside (pend : str) (c : N) (s : str) :
  cls c = false ->
  re_sub_run cls k repl pend (c :: s)
  = flush_run k repl pend ++ c :: re_sub_run cls k repl [] s.
Proof. intros Hc. simpl. rewrite Hc. reflexivity. Qed.

Lemma re_sub_run_cons_inside (pend : str) (c : N) (s : str) :
  cls c = true ->
  re_sub_run cls k repl pend (c :: s)
  = re_sub_run cls k repl (pend ++ [c]) s.
Proof. intros Hc. simpl. rewrite Hc. reflexivity. Qed.

(** With a pending run, the output starts with a class character. *)
Lemma re_sub_run_head (pend s : str) :
  repl <> [] -> forallb cls repl = true ->
  pend <> [] -> forallb cls pend = true ->
  exists d u, re_sub_run cls k repl pend s = d :: u /\ cls d = true.
Proof.
  intros Hne Hr. revert pend. induction s as [| c s IH]; intros pend Hp Hc.
  - simpl. pose proof (flush_run_nonempty pend Hne Hp) as Hf.
    pose proof (flush_run_cls pend Hr Hc) as Hfc.
    destruct (flush_run k repl pend) as [| d u]; [contradiction |].
    simpl in Hfc. apply andb_true_iff in Hfc as [Hd _]. eauto.
  - destruct (cls c) eqn:Hcc.
    + rewrite re_sub_run_cons_inside by exact Hcc. apply IH.
      * destruct pend; discriminate.
      * rewrite forallb_app, Hc. simpl. rewrite Hcc. reflexivity.
    + rewrite re_sub_run_cons_outside by exact Hcc.
      pose proof (flush_run_nonempty pend Hne Hp) as Hf.
      pose proof (flush_run_cls pend Hr Hc) as Hfc.
      destruct (flush_run k repl pend) as [| d u]; [contradiction |].
      simpl in Hfc. apply andb_true_iff in Hfc as [Hd _]. simpl. eauto.
Qed.

(** The pass is idempotent: a flushed run is flushed to itself. *)
Lemma re_sub_run_idem (pend s : str) :
  forallb cls repl = true -> forallb cls pend = true ->
  re_sub cls k repl (re_sub_run cls k repl pend s)
  = re_sub_run cls k repl pend s.
Proof using Hk.
  intros Hr. unfold re_sub. revert pend.
  induction s as [| c s IH]; intros pend Hp.
  - simpl. rewrite <- (app_nil_r (flush_run k repl pend)) at 1.
    rewrite re_sub_run_run by (apply flush_run_cls; assumption).
    simpl. apply flush_run_idem.
  - destruct (cls c) eqn:Hc.
    + rewrite re_sub_run_cons_inside by exact Hc. apply IH.
      rewrite forallb_app, Hp. simpl. rewrite Hc. reflexivity.
    + rewrite re_sub_run_cons_outside by exact Hc.
      rewrite re_sub_run_run by (apply flush_run_cls; assumption).
      rewrite re_sub_run_cons_outside by exact Hc. simpl.
      rewrite flush_run_idem, IH by reflexivity. reflexivity.
Qed.

Lemma re_sub_idem (s : str) :
  forallb cls repl = true ->
  re_sub cls k repl (re_sub cls k repl s) = re_sub cls k repl s.
Proof using Hk. intros Hr. apply re_sub_run_idem; auto. Qed.

End Pass.

(** ** Two passes over disjoint classes commute *)

Section TwoPasses.

Variables cls cls' : N -> bool.
Variables k k' : nat.
Variables repl repl' : str.
Hypothesis Hk : 1 <= k.
Hypothesis Hk' : 1 <= k'.
Hypothesis Hdisjoint : forall c, cls c = true -> cls' c = false.
Hypothesis Hrepl : forallb cls repl = true.
Hypothesis Hrepl' : forallb cls' repl' = true.
Hypothesis Hne' : repl' <> [].

Lemma forallb_outside (r : str) :
  forallb cls r = true -> forallb (fun c => negb (cls' c)) r = true.
Proof using Hdisjoint.
  rewrite !forallb_forall. intros H c Hc.
  rewrite (Hdisjoint c (H c Hc)). reflexivity.
Qed.

Lemma commute_nil (pend : str) :
  forallb cls pend = true ->
  re_sub_run cls' k' repl' [] (re_sub_run cls k repl pend [])
  = re_sub_run cls k repl pend (re_sub_run cls' k' repl' [] []).
Proof using Hk' Hdisjoint Hrepl.
  intros Hp. simpl. rewrite (flush_run_nil k' repl' Hk'). simpl.
  rewrite <- (app_nil_r (flush_run k repl pend)) at 1.
  rewrite (re_sub_run_skip cls' k' repl' Hk').
  - simpl. rewrite (flush_run_nil k' repl' Hk'). apply app_nil_r.
  - apply forallb_outside, flush_run_cls; assumption.
Qed.

Lemma commute_cons (c : N) (s : str) :
  (forall pend, forallb cls pend = true ->
     re_sub_run cls' k' repl' [] (re_sub_run cls k repl pend s)
     = re_sub_run cls k repl pend (re_sub_run cls' k' repl' [] s)) ->
  (forall pend', forallb cls' pend' = true ->
     re_sub_run cls k repl [] (re_sub_run cls' k' repl' pend' s)
     = re_sub_run cls' k' repl' pend' (re_sub_run cls k repl [] s)) ->
  forall pend, forallb cls pend = true ->
    re_sub_run cls' k' repl' [] (re_sub_run cls k repl pend (c :: s))
    = re_sub_run cls k repl pend (re_sub_run cls' k' repl' [] (c :: s)).
Proof using Hk Hk' Hdisjoint Hrepl Hrepl' Hne'.
  intros IH IH' pend Hp.
  assert (Hflush : forallb (fun c => negb (cls' c)) (flush_run k repl pend)
                   = true)
    by (apply forallb_outside, flush_run_cls; assumption).
  destruct (cls c) eqn:Hc; [| destruct (cls' c) eqn:Hc'].
  - (* [c] belongs to the first class *)
    pose proof (Hdisjoint c Hc) as Hc'.
    rewrite (re_sub_run_cons_inside cls k repl pend c s Hc).
    rewrite (re_sub_run_cons_outside cls' k' repl' [] c s Hc').
    rewrite (flush_run_nil k' repl' Hk'). simpl app.
    rewrite (re_sub_run_cons_inside cls k repl pend c _ Hc).
    apply IH. rewrite forallb_app, Hp. simpl. rewrite Hc. reflexivity.
  - (* [c] belongs to the second class *)
    rewrite (re_sub_run_cons_outside cls k repl pend c s Hc).
    rewrite (re_sub_run_skip cls' k' repl' Hk') by exact Hflush.
    rewrite (re_sub_run_cons_inside cls' k' repl' [] c _ Hc').
    rewrite (re_sub_run_cons_inside cls' k' repl' [] c s Hc').
    simpl app.
    assert (Hhead : starts_outside cls (re_sub_run cls' k' repl' [c] s)
                    = true).
    { destruct (re_sub_run_head cls' k' repl' [c] s Hne' Hrepl')
        as (d & u & -> & Hd); [discriminate | simpl; rewrite Hc' |];
        [reflexivity |].
      simpl. destruct (cls d) eqn:Hcd; [| reflexivity].
      rewrite (Hdisjoint d Hcd) in Hd. discriminate. }
    rewrite (re_sub_run_outside cls k repl Hk pend _ Hhead).
    rewrite IH' by (simpl; rewrite Hc'; reflexivity). reflexivity.
  - (* [c] belongs to neither *)
    rewrite (re_sub_run_cons_outside cls k repl pend c s Hc).
    rewrite (re_sub_run_skip cls' k' repl' Hk') by exact Hflush.
    rewrite !(re_sub_run_cons_outside cls' k' repl' [] c _ Hc').
    rewrite (flush_run_nil k' repl' Hk'). simpl app.
    rewrite (re_sub_run_cons_outside cls k repl pend c _ Hc).
    rewrite IH by reflexivity. reflexivity.
Qed.

End TwoPasses.

Lemma re_sub_run_commute (cls cls' : N -> bool) (k k' : nat)
    (repl repl' : str) :
  1 <= k -> 1 <= k' ->
  (forall c, cls c = true -> cls' c = false) ->
  forallb cls repl = true -> forallb cls' repl' = true ->
  repl <> [] -> repl' <> [] ->
  forall s,
    (forall pend, forallb cls pend = true ->
       re_sub_run cls' k' repl' [] (re_sub_run cls k repl pend s)
       = re_sub_run cls k repl pend (re_sub_run cls' k' repl' [] s))
    /\ (forall pend', forallb cls' pend' = true ->
          re_sub_run cls k repl [] (re_sub_run cls' k' repl' pend' s)
          = re_sub_run cls' k' repl' pend' (re_sub_run cls k repl [] s)).
Proof.
  intros Hk Hk' Hd Hr Hr' Hne Hne'.
  assert (Hd' : forall c, cls' c = true -> cls c = false).
  { intros c Hc. destruct (cls c) eqn:E; [| reflexivity].
    rewrite (Hd c E) in Hc. discriminate. }
  induction s as [| c s [IH IH']]; split.
  - apply commute_nil; assumption.
  - apply commute_nil; assumption.
  - apply commute_cons; assumption.
  - apply commute_cons; assumption.
Qed.

Lemma re_sub_commute (cls cls' : N -> bool) (k k' : nat)
    (repl repl' : str) (s : str) :
  1 <= k -> 1 <= k' ->
  (forall c, cls c = true -> cls' c = false) ->
  forallb cls repl = true -> forallb cls' repl' = true ->
  repl <> [] -> repl' <> [] ->
  re_sub cls' k' repl' (re_sub cls k repl s)
  = re_sub cls k repl (re_sub cls' k' repl' s).
Proof.
  intros Hk Hk' Hd Hr Hr' Hne Hne'. unfold re_sub.
  apply (re_sub_run_commute cls cls' k k' repl repl'); auto.
Qed.

(** ** Stripping *)

Lemma rstrip_cons_nonspace (c : N) (s : str) :
  is_space c = false -> rstrip (c :: s) = c :: rstrip s.
Proof. intros Hc. simpl. rewrite Hc. destruct (rstrip s); reflexivity. Qed.

Lemma rstrip_cons_nonempty (c : N) (s : str) :
  rstrip s <> [] -> rstrip (c :: s) = c :: rstrip s.
Proof. intros Hs. simpl. destruct (rstrip s); [contradiction | reflexivity]. Qed.

Lemma rstrip_nonspace (r s : str) :
  forallb (fun c => negb (is_space c)) r = true ->
  rstrip (r ++ s) = r ++ rstrip s.
Proof.
  induction r as [| c r IH]; intros Hr; [reflexivity |].
  simpl in Hr. apply andb_true_iff in Hr as [Hc Hr].
  apply negb_true_iff in Hc. simpl app.
  rewrite rstrip_cons_nonspace, IH by assumption. reflexivity.
Qed.

Lemma rstrip_head (s : str) (d : N) (r : str) :
  rstrip s = d :: r -> exists t, s = d :: t.
Proof.
  destruct s as [| c t]; simpl; [discriminate |].
  destruct (rstrip t); [destruct (is_space c) |]; intros [= <- <-]; eauto.
Qed.

Lemma rstrip_idem (s : str) : rstrip (rstrip s) = rstrip s.
Proof.
  induction s as [| c s IH]; [reflexivity |].
  simpl. destruct (rstrip s) as [| d r] eqn:Hs.
  - destruct (is_space c) eqn:Hc; [reflexivity |].
    simpl. rewrite Hc. reflexivity.
  - rewrite rstrip_cons_nonempty; rewrite IH; [reflexivity | discriminate].
Qed.

Lemma lstrip_fixed (s : str) :
  starts_outside is_space s = true -> lstrip s = s.
Proof.
  destruct s as [| c s]; simpl; [reflexivity |].
  intros Hc. apply negb_true_iff in Hc. rewrite Hc. reflexivity.
Qed.

Lemma starts_outside_lstrip (s : str) :
  starts_outside is_space (lstrip s) = true.
Proof.
  induction s as [| c s IH]; simpl; [reflexivity |].
  destruct (is_space c) eqn:Hc; [exact IH |]. simpl. rewrite Hc. reflexivity.
Qed.

Lemma starts_outside_rstrip (s : str) :
  starts_outside is_space s = true ->
  starts_outside is_space (rstrip s) = true.
Proof.
  intros Hs. destruct (rstrip s) as [| d r] eqn:Hr; [reflexivity |].
  destruct (rstrip_head s d r Hr) as [t ->]. exact Hs.
Qed.

Lemma single_spaced_lstrip (s : str) :
  single_spaced s = true -> single_spaced (lstrip s) = true.
Proof.
  induction s as [| c s IH]; simpl; [auto |].
  intros H. apply andb_true_iff in H as [Hc Hs].
  destruct (is_space c) eqn:E; [auto |].
  simpl. rewrite E, Hs. reflexivity.
Qed.

Lemma single_spaced_rstrip (s : str) :
  single_spaced s = true -> single_spaced (rstrip s) = true.
Proof.
  induction s as [| c s IH]; [auto |].
  intros H. cbn [single_spaced] in H. apply andb_true_iff in H as [Hc Hs].
  specialize (IH Hs). cbn [rstrip].
  destruct (rstrip s) as [| d r] eqn:Hr.
  - destruct (is_space c) eqn:E; [reflexivity |].
    simpl. rewrite E. reflexivity.
  - cbn [single_spaced]. cbn [single_spaced] in IH. rewrite IH, andb_true_r.
    destruct (rstrip_head s d r Hr) as [t ->].
    destruct (is_space c); [| reflexivity]. exact Hc.
Qed.

(** ** The whitespace pass *)

Lemma single_spaced_cons_nonspace (c : N) (s : str) :
  is_space c = false -> single_spaced (c :: s) = single_spaced s.
Proof. intros Hc. cbn [single_spaced]. rewrite Hc. reflexivity. Qed.

Lemma single_spaced_cons_space (s : str) :
  starts_outside is_space s = true ->
  single_spaced (32%N :: s) = single_spaced s.
Proof.
  intros Hs. cbn [single_spaced]. change (is_space 32) with true.
  rewrite Hs. reflexivity.
Qed.

Lemma single_spaced_re_sub_run (pend s : str) :
  forallb is_space pend = true ->
  single_spaced (re_sub_run is_space 1 (py " ") pend s) = true.
Proof.
  revert pend. induction s as [| c s IH]; intros pend Hp.
  - simpl. unfold flush_run. destruct (1 <=? length pend) eqn:E.
    + reflexivity.
    + destruct pend; [reflexivity | discriminate].
  - destruct (is_space c) eqn:Hc.
    + rewrite re_sub_run_cons_inside by exact Hc. apply IH.
      rewrite forallb_app, Hp. simpl. rewrite Hc. reflexivity.
    + rewrite re_sub_run_cons_outside by exact Hc.
      specialize (IH [] eq_refl).
      unfold flush_run. destruct (1 <=? length pend) eqn:E.
      * change (py " ") with [32%N]. simpl app.
        rewrite single_spaced_cons_space
          by (simpl; rewrite Hc; reflexivity).
        rewrite single_spaced_cons_nonspace by exact Hc. exact IH.
      * destruct pend; [| discriminate]. simpl app.
        rewrite single_spaced_cons_nonspace by exact Hc. exact IH.
Qed.

Lemma re_sub_single_spaced (s : str) :
  single_spaced s = true -> re_sub is_space 1 (py " ") s = s.
Proof.
  unfold re_sub. induction s as [| c s IH]; [reflexivity |].
  cbn [single_spaced]. intros H. apply andb_true_iff in H as [Hc Hs].
  destruct (is_space c) eqn:E.
  - apply andb_true_iff in Hc as [H32 Hout]. apply N.eqb_eq in H32. subst c.
    rewrite re_sub_run_cons_inside by exact E.
    rewrite re_sub_run_outside by (exact Hout || lia).
    rewrite IH by exact Hs. reflexivity.
  - rewrite re_sub_run_cons_outside by exact E. rewrite IH by exact Hs.
    reflexivity.
Qed.

(** Collapsing and stripping twice is collapsing and stripping once. *)
Lemma strip_re_sub_idem (s : str) :
  strip (re_sub is_space 1 (py " ")
           (strip (re_sub is_space 1 (py " ") s)))
  = strip (re_sub is_space 1 (py " ") s).
Proof.
  assert (Hss : single_spaced (strip (re_sub is_space 1 (py " ") s)) = true).
  { apply single_spaced_rstrip, single_spaced_lstrip,
      single_spaced_re_sub_run. reflexivity. }
  rewrite (re_sub_single_spaced _ Hss). unfold strip at 1.
  rewrite lstrip_fixed.
  - unfold strip. apply rstrip_idem.
  - unfold strip. apply starts_outside_rstrip, starts_outside_lstrip.
Qed.

(** ** Stripping commutes with a pass over characters that are not
       whitespace *)

Section StripPass.

Variable cls : N -> bool.
Variable k : nat.
Variable repl : str.
Hypothesis Hk : 1 <= k.
Hypothesis Hcls : forall c, cls c = true -> is_space c = false.
Hypothesis Hrepl : forallb cls repl = true.
Hypothesis Hne : repl <> [].

Lemma re_sub_run_nil_inv (pend s : str) :
  re_sub_run cls k repl pend s = [] -> pend = [] /\ s = [].
Proof using Hne.
  revert pend. induction s as [| c s IH]; intros pend H.
  - split; [| reflexivity]. simpl in H.
    destruct pend as [| d pend]; [reflexivity |].
    exfalso. apply (flush_run_nonempty k repl (d :: pend) Hne); [| exact H].
    discriminate.
  - exfalso. destruct (cls c) eqn:Hc.
    + rewrite re_sub_run_cons_inside in H by exact Hc.
      apply IH in H as [H _]. destruct pend; discriminate.
    + rewrite re_sub_run_cons_outside in H by exact Hc.
      destruct (flush_run k repl pend); discriminate.
Qed.

Lemma forallb_nonspace (r : str) :
  forallb cls r = true -> forallb (fun c => negb (is_space c)) r = true.
Proof using Hcls.
  rewrite !forallb_forall. intros H c Hc. rewrite (Hcls c (H c Hc)).
  reflexivity.
Qed.

Lemma rstrip_re_sub_run (pend s : str) :
  forallb cls pend = true ->
  rstrip (re_sub_run cls k repl pend s)
  = re_sub_run cls k repl pend (rstrip s).
Proof using Hk Hcls Hrepl Hne.
  revert pend. induction s as [| c s IH]; intros pend Hp.
  - simpl. rewrite <- (app_nil_r (flush_run k repl pend)) at 1.
    rewrite rstrip_nonspace by (apply forallb_nonspace, flush_run_cls; auto).
    apply app_nil_r.
  - assert (Hflush : forallb (fun c => negb (is_space c))
                       (flush_run k repl pend) = true)
      by (apply forallb_nonspace, flush_run_cls; auto).
    destruct (cls c) eqn:Hc.
    + rewrite re_sub_run_cons_inside by exact Hc.
      rewrite rstrip_cons_nonspace by (apply Hcls; exact Hc).
      rewrite re_sub_run_cons_inside by exact Hc. apply IH.
      rewrite forallb_app, Hp. simpl. rewrite Hc. reflexivity.
    + rewrite re_sub_run_cons_outside by exact Hc.
      rewrite rstrip_nonspace by exact Hflush.
      specialize (IH [] eq_refl).
      destruct (rstrip s) as [| d r] eqn:Hs.
      * (* nothing but whitespace follows *)
        simpl in IH. rewrite (flush_run_nil k repl Hk) in IH.
        cbn [rstrip]. rewrite IH, Hs.
        destruct (is_space c); simpl.
        -- apply app_nil_r.
        -- rewrite Hc, (flush_run_nil k repl Hk). reflexivity.
      * rewrite rstrip_cons_nonempty.
        -- rewrite IH. rewrite rstrip_cons_nonempty by (rewrite Hs; discriminate).
           rewrite Hs.
           rewrite (re_sub_run_cons_outside cls k repl pend c (d :: r) Hc).
           reflexivity.
        -- rewrite IH. intros Hnil. apply re_sub_run_nil_inv in Hnil as [_ Hnil].
           discriminate.
Qed.

Lemma lstrip_re_sub (s : str) :
  lstrip (re_sub cls k repl s) = re_sub cls k repl (lstrip s).
Proof using Hk Hcls Hrepl Hne.
  unfold re_sub. induction s as [| c s IH].
  - simpl. rewrite (flush_run_nil k repl Hk). reflexivity.
  - destruct (is_space c) eqn:Hsp.
    + assert (Hc : cls c = false).
      { destruct (cls c) eqn:E; [| reflexivity].
        rewrite (Hcls c E) in Hsp. discriminate. }
      rewrite re_sub_run_cons_outside by exact Hc.
      rewrite (flush_run_nil k repl Hk). simpl. rewrite Hsp. exact IH.
    + replace (lstrip (c :: s)) with (c :: s) by (simpl; rewrite Hsp; reflexivity).
      apply lstrip_fixed. destruct (cls c) eqn:Hc.
      * rewrite re_sub_run_cons_inside by exact Hc.
        destruct (re_sub_run_head cls k repl ([] ++ [c]) s Hne Hrepl)
          as (d & u & -> & Hd); [discriminate | simpl; rewrite Hc; reflexivity |].
        simpl. rewrite (Hcls d Hd). reflexivity.
      * rewrite re_sub_run_cons_outside by exact Hc.
        rewrite (flush_run_nil k repl Hk). simpl. rewrite Hsp. reflexivity.
Qed.

Lemma strip_re_sub (s : str) :
  strip (re_sub cls k repl s) = re_sub cls k repl (strip s).
Proof using Hk Hcls Hrepl Hne.
  unfold strip. rewrite lstrip_re_sub. unfold re_sub.
  apply rstrip_re_sub_run. reflexivity.
Qed.

End StripPass.

(** ** optimize_prompt is idempotent *)

Lemma eqb_class_disjoint (a b : N) :
  a <> b -> forall c, (a =? c)%N = true -> (b =? c)%N = false.
Proof.
  intros Hab c Hc. apply N.eqb_eq in Hc. subst c. apply N.eqb_neq. auto.
Qed.

Lemma eqb_class_nonspace (a : N) :
  is_space a = false -> forall c, (a =? c)%N = true -> is_space c = false.
Proof. intros Ha c Hc. apply N.eqb_eq in Hc. subst c. exact Ha. Qed.

(** A punctuation pass commutes with the whitespace normalisation. *)
Lemma punctuation_whitespace_commute (a : N) (repl s : str) :
  is_space a = false -> forallb (N.eqb a) repl = true -> repl <> [] ->
  strip (re_sub is_space 1 (py " ") (re_sub (N.eqb a) 2 repl s))
  = re_sub (N.eqb a) 2 repl (strip (re_sub is_space 1 (py " ") s)).
Proof.
  intros Ha Hr Hne.
  rewrite (re_sub_commute (N.eqb a) is_space 2 1 repl (py " "));
    try lia; try reflexivity; try assumption; try discriminate.
  - apply strip_re_sub; try assumption; try lia.
    apply eqb_class_nonspace. exact Ha.
  - apply eqb_class_nonspace. exact Ha.
Qed.

Lemma punctuation_commute (a b : N) (repl repl' s : str) :
  a <> b -> forallb (N.eqb a) repl = true -> forallb (N.eqb b) repl' = true ->
  repl <> [] -> repl' <> [] ->
  re_sub (N.eqb b) 2 repl' (re_sub (N.eqb a) 2 repl s)
  = re_sub (N.eqb a) 2 repl (re_sub (N.eqb b) 2 repl' s).
Proof.
  intros Hab Hr Hr' Hne Hne'. apply re_sub_commute; try lia; try assumption.
  apply eqb_class_disjoint. exact Hab.
Qed.

(** C5: normalising a normalised prompt changes nothing. *)
Theorem optimize_prompt_idempotent (x : str) :
  optimize_prompt (optimize_prompt x) = optimize_prompt x.
Proof.
  unfold optimize_prompt.
  rewrite !punctuation_whitespace_commute
    by (reflexivity || discriminate).
  rewrite strip_re_sub_idem.
  rewrite (punctuation_commute chr_qmark chr_dot (py "?") (py "..."))
    by (reflexivity || discriminate).
  rewrite (punctuation_commute chr_bang chr_dot (py "!") (py "..."))
    by (reflexivity || discriminate).
  rewrite (re_sub_idem (N.eqb chr_dot) 2 (py "...")) by (lia || reflexivity).
  rewrite (punctuation_commute chr_qmark chr_bang (py "?") (py "!"))
    by (reflexivity || discriminate).
  rewrite (re_sub_idem (N.eqb chr_bang) 2 (py "!")) by (lia || reflexivity).
  rewrite (re_sub_idem (N.eqb chr_qmark) 2 (py "?")) by (lia || reflexivity).
  reflexivity.
Qed.

(** ** Heap and effects *)

Lemma bind_unfold {A B} (m : M A) (f : A -> M B) (w : world) :
  (m ≫= f) w
  = match m w with
    | (Return a, w') => f a w'
    | (Raise e, w') => (Raise e, w')
    end.
Proof. reflexivity. Qed.

Lemma extends_refl (w : world) : extends w w.
Proof. unfold extends. auto. Qed.

Lemma extends_trans (w1 w2 w3 : world) :
  extends w1 w2 -> extends w2 w3 -> extends w1 w3.
Proof.
  unfold extends. intros (H1 & H2 & H3) (H4 & H5 & H6).
  repeat split; [| congruence | congruence].
  etrans; eassumption.
Qed.

Lemma extends_lookup (w w' : world) (l : loc) (o : object) :
  extends w w' -> objects w !! l = Some o -> objects w' !! l = Some o.
Proof. intros (Hsub & _) Hl. exact (lookup_weaken _ _ _ _ Hl Hsub). Qed.

Lemma new_fresh (o : object) (w : world) :
  exists l w',
    new o w = (Return l, w')
    /\ extends w w'
    /\ objects w !! l = None
    /\ objects w' !! l = Some o.
Proof.
  assert (Hfresh : objects w !! fresh (dom (objects w)) = None)
    by (apply not_elem_of_dom, is_fresh).
  eexists _, _. split; [reflexivity |]. simpl. repeat split.
  - apply insert_subseteq. exact Hfresh.
  - exact Hfresh.
  - apply lookup_insert_eq.
Qed.

Lemma lookup_attr_ref (h : gmap loc object) (l : loc) (o : object)
    (name : string) :
  h !! l = Some o -> lookup_attr h (VRef l) name = attrs o !! name.
Proof. intros Hl. simpl. rewrite Hl. reflexivity. Qed.

(** A new object that lacks the attribute does not change the outcome of
    looking it up, even through a reference that was dangling. *)
Lemma lookup_attr_new (h : gmap loc object) (l : loc) (o : object)
    (v : value) (name : string) :
  h !! l = None -> attrs o !! name = None ->
  lookup_attr (<[l := o]> h) v name = lookup_attr h v name.
Proof.
  intros Hl Ho. destruct v as [| | | | l' |]; try reflexivity. simpl.
  destruct (decide (l = l')) as [<- | Hne].
  - rewrite lookup_insert_eq, Hl. simpl. exact Ho.
  - rewrite lookup_insert_ne by exact Hne. reflexivity.
Qed.

Lemma is_runnable_extends (w w' : world) (v : value) :
  extends w w' -> is_runnable (objects w) v = true ->
  is_runnable (objects w') v = true.
Proof.
  intros Hext. destruct v as [| | | | l |]; simpl; try discriminate.
  destruct (objects w !! l) as [o |] eqn:Hl; [| discriminate].
  rewrite (extends_lookup w w' l o Hext Hl). auto.
Qed.

Lemma is_none_spec (v : value) : is_none v = true <-> v = VNone.
Proof. destruct v; simpl; split; congruence. Qed.

(** ** build_chain *)

Lemma with_config_spec (v : value) (run_name : string) (w : world) :
  is_runnable (objects w) v = true ->
  exists l w',
    with_config v run_name w = (Return l, w')
    /\ extends w w'
    /\ objects w !! l = None
    /\ objects w' !! l
       = Some (Object "RunnableBinding" true
                 {[ "bound" := v; "run_name" := VStr run_name ]}).
Proof. intros Hv. unfold with_config. rewrite Hv. apply new_fresh. Qed.

Lemma with_config_raises (v : value) (run_name : string) (w : world) :
  is_runnable (objects w) v = false ->
  with_config v run_name w
  = (Raise (attribute_error (objects w) v "with_config"), w).
Proof. intros Hv. unfold with_config. rewrite Hv. reflexivity. Qed.

Lemma build_chain_raises (retriever : value) (prompt llm : loc) (w : world) :
  is_runnable (objects w) retriever = false ->
  build_chain retriever prompt llm w
  = (Raise (attribute_error (objects w) retriever "with_config"), w).
Proof.
  intros Hv. unfold build_chain. rewrite bind_unfold.
  rewrite with_config_raises by exact Hv. reflexivity.
Qed.

Lemma build_chain_spec (retriever : value) (prompt llm : loc) (w : world) :
  is_runnable (objects w) retriever = true ->
  exists r w',
    build_chain retriever prompt llm w = (Return r, w')
    /\ extends w w'
    /\ objects w !! r = None
    /\ built_retriever (objects w') r = Some retriever
    /\ built_model (objects w') r = Some (VRef llm).
Proof.
  intros Hv. unfold build_chain.
  destruct (with_config_spec retriever "context_retriever" w Hv)
    as (l1 & w1 & E1 & X1 & _ & L1).
  rewrite bind_unfold, E1.
  destruct (new_fresh
              (Object "RunnableSequence" true
                 {[ "first" := VGetter "question";
                    "middle" := VList [VRef l1];
                    "last" := VFun "format_documents" ]}) w1)
    as (l2 & w2 & E2 & X2 & _ & L2).
  rewrite bind_unfold. unfold pipe at 1. rewrite E2.
  destruct (new_fresh
              (Object "RunnableAssign" true {[ "context" := VRef l2 ]}) w2)
    as (l3 & w3 & E3 & X3 & _ & L3).
  rewrite bind_unfold. unfold assign_context. rewrite E3.
  destruct (new_fresh
              (Object "RunnableSequence" true
                 {[ "first" := VRef l3;
                    "middle" := VList [VRef prompt];
                    "last" := VRef llm ]}) w3)
    as (l4 & w4 & E4 & X4 & _ & L4).
  rewrite bind_unfold. unfold pipe. rewrite E4.
  destruct (new_fresh
              (Object "RunnableWithMessageHistory" true
                 {[ "runnable" := VRef l4;
                    "get_session_history" := VFun "get_session_history";
                    "input_messages_key" := VStr "question";
                    "history_messages_key" := VStr "chat_history" ]}) w4)
    as (l5 & w5 & E5 & X5 & _ & L5).
  rewrite bind_unfold. unfold with_message_history. rewrite E5.
  assert (H5 : is_runnable (objects w5) (VRef l5) = true)
    by (simpl; rewrite L5; reflexivity).
  destruct (with_config_spec (VRef l5) "chain_answer" w5 H5)
    as (l6 & w6 & E6 & X6 & N6 & L6).
  rewrite E6. exists l6, w6.
  pose proof (extends_trans _ _ _ X5 X6) as X56.
  pose proof (extends_trans _ _ _ X4 X56) as X46.
  pose proof (extends_trans _ _ _ X3 X46) as X36.
  pose proof (extends_trans _ _ _ X2 X36) as X26.
  pose proof (extends_trans _ _ _ X1 X26) as X16.
  pose proof (extends_lookup _ _ _ _ X6 L5) as M5.
  pose proof (extends_lookup _ _ _ _ X56 L4) as M4.
  pose proof (extends_lookup _ _ _ _ X46 L3) as M3.
  pose proof (extends_lookup _ _ _ _ X36 L2) as M2.
  pose proof (extends_lookup _ _ _ _ X26 L1) as M1.
  split; [reflexivity |]. split; [exact X16 |]. split.
  - destruct (objects w !! l6) as [o |] eqn:Hl6; [| reflexivity].
    pose proof (extends_lookup _ _ _ _
                  (extends_trans _ _ _ X1
                     (extends_trans _ _ _ X2
                        (extends_trans _ _ _ X3
                           (extends_trans _ _ _ X4 X5)))) Hl6) as Hbad.
    congruence.
  - assert (A6 : lookup_attr (objects w6) (VRef l6) "bound" = Some (VRef l5))
      by (rewrite (lookup_attr_ref _ _ _ _ L6); reflexivity).
    assert (A5 : lookup_attr (objects w6) (VRef l5) "runnable"
                 = Some (VRef l4))
      by (rewrite (lookup_attr_ref _ _ _ _ M5); reflexivity).
    assert (A4 : lookup_attr (objects w6) (VRef l4) "first" = Some (VRef l3))
      by (rewrite (lookup_attr_ref _ _ _ _ M4); reflexivity).
    assert (B4 : lookup_attr (objects w6) (VRef l4) "last" = Some (VRef llm))
      by (rewrite (lookup_attr_ref _ _ _ _ M4); reflexivity).
    assert (A3 : lookup_attr (objects w6) (VRef l3) "context"
                 = Some (VRef l2))
      by (rewrite (lookup_attr_ref _ _ _ _ M3); reflexivity).
    assert (A2 : lookup_attr (objects w6) (VRef l2) "middle"
                 = Some (VList [VRef l1]))
      by (rewrite (lookup_attr_ref _ _ _ _ M2); reflexivity).
    assert (A1 : lookup_attr (objects w6) (VRef l1) "bound" = Some retriever)
      by (rewrite (lookup_attr_ref _ _ _ _ M1); reflexivity).
    unfold built_retriever, built_model.
    rewrite A6. cbn [mbind option_bind]. rewrite A5. cbn [mbind option_bind].
    rewrite A4, B4. cbn [mbind option_bind]. rewrite A3.
    cbn [mbind option_bind]. rewrite A2. cbn [mbind option_bind].
    rewrite A1. split; reflexivity.
Qed.

(** ** update_chain_llm *)

(** The probing leaves the state as it is and selects
    [retrieval_reference]; the function then gives the chain back or builds
    a new one around that reference. *)
Lemma update_chain_llm_unfold (chain llm : loc) (w : world) :
  let retriever := retrieval_reference (objects w) chain in
  update_chain_llm chain llm w
  = match lookup_attr (objects w) (VRef chain) "runnable" with
    | Some _ =>
        if is_none retriever then (Return chain, w)
        else (prompt ← chat_prompt_template;
              build_chain retriever prompt llm) w
    | None =>
        (prompt ← chat_prompt_template;
         if is_none retriever then mret chain
         else build_chain retriever prompt llm) w
    end.
Proof.
  cbv zeta. unfold update_chain_llm, retrieval_reference.
  rewrite bind_unfold. unfold hasattr at 1.
  destruct (lookup_attr (objects w) (VRef chain) "runnable")
    as [inner_chain |] eqn:Hrun.
  - rewrite bind_unfold. unfold getattr at 1. rewrite Hrun.
    rewrite bind_unfold. unfold hasattr at 1.
    destruct (lookup_attr (objects w) inner_chain "retriever")
      as [retriever |] eqn:Hret.
    + rewrite bind_unfold. unfold getattr at 1. rewrite Hret.
      destruct (is_none retriever); reflexivity.
    + rewrite !bind_unfold. unfold hasattr at 1.
      destruct (lookup_attr (objects w) inner_chain "first")
        as [first |] eqn:Hfirst.
      * rewrite !bind_unfold. unfold getattr at 1. rewrite Hfirst.
        unfold hasattr at 1.
        destruct (lookup_attr (objects w) first "retriever")
          as [retriever |] eqn:Hnested.
        -- rewrite !bind_unfold. unfold getattr at 1. rewrite Hfirst.
           unfold getattr at 1. rewrite Hnested.
           destruct (is_none retriever); reflexivity.
        -- reflexivity.
      * reflexivity.
  - rewrite !bind_unfold.
    destruct (new_fresh
                (Object "ChatPromptTemplate" true
                   {[ "messages" :=
                        VList [ VList [VStr "system"; VStr SYSTEM_PROMPT];
                                VList [VStr "MessagesPlaceholder";
                                       VStr "chat_history"];
                                VList [VStr "human"; VStr "{question}"] ] ]})
                w) as (prompt & wp & Eq & _ & Hnew & _).
    unfold chat_prompt_template. rewrite Eq.
    assert (Hsame : lookup_attr (objects wp) (VRef chain) "retriever"
                    = lookup_attr (objects w) (VRef chain) "retriever").
    { injection Eq as <- <-. cbn [objects].
      apply lookup_attr_new; [| reflexivity].
      apply not_elem_of_dom, is_fresh. }
    rewrite bind_unfold. unfold hasattr at 1. rewrite Hsame.
    destruct (lookup_attr (objects w) (VRef chain) "retriever")
      as [retriever |] eqn:Hret.
    + rewrite bind_unfold. unfold getattr at 1. rewrite Hsame.
      destruct (is_none retriever); reflexivity.
    + reflexivity.
Qed.

Lemma extends_fresh (w w' : world) (l : loc) :
  extends w w' -> objects w' !! l = None -> objects w !! l = None.
Proof.
  intros Hext Hl. destruct (objects w !! l) as [o |] eqn:E; [| reflexivity].
  rewrite (extends_lookup w w' l o Hext E) in Hl. discriminate.
Qed.

(** What happens once a retriever has been located: a prompt is made and
    the chain is built around the located reference, or the attempt to
    bind it raises. *)
Lemma rebuild_spec (retriever : value) (llm : loc) (w : world) :
  exists res w',
    (prompt ← chat_prompt_template; build_chain retriever prompt llm) w
    = (res, w')
    /\ extends w w'
    /\ match res with
       | Return r =>
           objects w !! r = None
           /\ built_retriever (objects w') r = Some retriever
           /\ built_model (objects w') r = Some (VRef llm)
       | Raise e =>
           is_runnable (objects w') retriever = false
           /\ e = attribute_error (objects w') retriever "with_config"
       end
    /\ (is_runnable (objects w) retriever = true -> exists r, res = Return r).
Proof.
  rewrite bind_unfold. unfold chat_prompt_template.
  destruct (new_fresh
              (Object "ChatPromptTemplate" true
                 {[ "messages" :=
                      VList [ VList [VStr "system"; VStr SYSTEM_PROMPT];
                              VList [VStr "MessagesPlaceholder";
                                     VStr "chat_history"];
                              VList [VStr "human"; VStr "{question}"] ] ]})
              w) as (prompt & wp & -> & Xp & _ & _).
  destruct (is_runnable (objects wp) retriever) eqn:Hrun.
  - destruct (build_chain_spec retriever prompt llm wp Hrun)
      as (r & w' & -> & X & Hr & Hret & Hllm).
    exists (Return r), w'. split; [reflexivity |].
    split; [exact (extends_trans _ _ _ Xp X) |].
    split; [| eauto].
    split; [apply (extends_fresh w wp); assumption | split; assumption].
  - rewrite (build_chain_raises retriever prompt llm wp Hrun).
    eexists _, wp. split; [reflexivity |]. split; [exact Xp |].
    split; [split; [exact Hrun | reflexivity] |].
    intros Hw. rewrite (is_runnable_extends w wp retriever Xp Hw) in Hrun.
    discriminate.
Qed.

(** C3: rebinding changes no object that exists.  It returns the chain it
    was given (when no retrieval stage is located), or a chain that did not
    exist before, which retrieves with the very reference located in the
    given chain and ends with the new model.  It returns whenever the
    located stage is a Runnable; otherwise binding it raises. *)
Theorem update_chain_llm_rebinds (chain llm : loc) (w : world) :
  let retriever := retrieval_reference (objects w) chain in
  exists res w',
    update_chain_llm chain llm w = (res, w')
    /\ (forall l o, objects w !! l = Some o -> objects w' !! l = Some o)
    /\ extends w w'
    /\ match res with
       | Return r =>
           (retriever = VNone /\ r = chain)
           \/ (retriever <> VNone
               /\ objects w !! r = None
               /\ built_retriever (objects w') r = Some retriever
               /\ built_model (objects w') r = Some (VRef llm))
       | Raise e =>
           retriever <> VNone
           /\ is_runnable (objects w') retriever = false
       end
    /\ (is_runnable (objects w) retriever = true -> exists r, res = Return r).
Proof.
  cbv zeta. rewrite update_chain_llm_unfold. cbv zeta.
  set (retriever := retrieval_reference (objects w) chain).
  assert (Hcases : forall res w',
    extends w w' ->
    match res with
    | Return r =>
        (retriever = VNone /\ r = chain)
        \/ (retriever <> VNone
            /\ objects w !! r = None
            /\ built_retriever (objects w') r = Some retriever
            /\ built_model (objects w') r = Some (VRef llm))
    | Raise e =>
        retriever <> VNone /\ is_runnable (objects w') retriever = false
    end ->
    (is_runnable (objects w) retriever = true -> exists r, res = Return r) ->
    exists res0 w0,
      (res, w') = (res0, w0)
      /\ (forall l o, objects w !! l = Some o -> objects w0 !! l = Some o)
      /\ extends w w0
      /\ match res0 with
         | Return r =>
             (retriever = VNone /\ r = chain)
             \/ (retriever <> VNone
                 /\ objects w !! r = None
                 /\ built_retriever (objects w0) r = Some retriever
                 /\ built_model (objects w0) r = Some (VRef llm))
         | Raise e =>
             retriever <> VNone
             /\ is_runnable (objects w0) retriever = false
         end
      /\ (is_runnable (objects w) retriever = true
          -> exists r, res0 = Return r)).
  { intros res w' X Hres Htot. exists res, w'.
    split; [reflexivity |].
    split; [intros l o; apply extends_lookup; exact X |].
    split; [exact X |]. split; assumption. }
  destruct (is_none retriever) eqn:Hnone.
  - (* no retrieval stage located: the chain is given back *)
    apply is_none_spec in Hnone.
    destruct (lookup_attr (objects w) (VRef chain) "runnable").
    + apply Hcases; [apply extends_refl | left; auto | eauto].
    + rewrite bind_unfold. unfold chat_prompt_template.
      destruct (new_fresh
                  (Object "ChatPromptTemplate" true
                     {[ "messages" :=
                          VList [ VList [VStr "system"; VStr SYSTEM_PROMPT];
                                  VList [VStr "MessagesPlaceholder";
                                         VStr "chat_history"];
                                  VList [VStr "human"; VStr "{question}"] ] ]})
                  w) as (prompt & wp & -> & Xp & _ & _).
      apply Hcases; [exact Xp | left; auto | eauto].
  - (* a retrieval stage is located: a new chain is built around it *)
    assert (Hsome : retriever <> VNone).
    { intros E. apply is_none_spec in E. congruence. }
    destruct (rebuild_spec retriever llm w)
      as (res & w' & Hbuild & X & Hres & Htot).
    assert (Hbuild' :
      (prompt ← chat_prompt_template;
       if false then mret chain else build_chain retriever prompt llm) w
      = (res, w')) by exact Hbuild.
    destruct (lookup_attr (objects w) (VRef chain) "runnable");
      [rewrite Hbuild | rewrite Hbuild'];
      (apply Hcases; [exact X | | exact Htot]);
      (destruct res as [r | e]; [right | split]; tauto).
Qed.

Lemma update_chain_llm_extends (chain llm : loc) (w : world)
    (res : outcome loc) (w' : world) :
  update_chain_llm chain llm w = (res, w') -> extends w w'.
Proof.
  rewrite update_chain_llm_unfold. cbv zeta.
  set (retriever := retrieval_reference (objects w) chain).
  destruct (rebuild_spec retriever llm w) as (res0 & w0 & Hbuild & X & _).
  assert (Hbuild' :
    (prompt ← chat_prompt_template;
     if false then mret chain else build_chain retriever prompt llm) w
    = (res0, w0)) by exact Hbuild.
  destruct (lookup_attr (objects w) (VRef chain) "runnable"),
    (is_none retriever).
  - intros [= _ <-]. apply extends_refl.
  - rewrite Hbuild. intros [= _ <-]. exact X.
  - rewrite bind_unfold. unfold chat_prompt_template.
    destruct (new_fresh
                (Object "ChatPromptTemplate" true
                   {[ "messages" :=
                        VList [ VList [VStr "system"; VStr SYSTEM_PROMPT];
                                VList [VStr "MessagesPlaceholder";
                                       VStr "chat_history"];
                                VList [VStr "human"; VStr "{question}"] ] ]})
                w) as (prompt & wp & -> & Xp & _ & _).
    intros [= _ <-]. exact Xp.
  - rewrite Hbuild'. intros [= _ <-]. exact X.
Qed.

(** ** The orchestrator *)

(** Whatever [update_chain_llm] raises is an [Exception]: the
    [AttributeError] of binding a stage that is not a Runnable. *)
Lemma update_chain_llm_raises (chain llm : loc) (w : world) (e : exn)
    (w' : world) :
  update_chain_llm chain llm w = (Raise e, w') ->
  e = attribute_error (objects w')
        (retrieval_reference (objects w) chain) "with_config"
  /\ is_Exception e = true.
Proof.
  rewrite update_chain_llm_unfold. cbv zeta.
  set (retriever := retrieval_reference (objects w) chain).
  destruct (rebuild_spec retriever llm w) as (res0 & w0 & Hbuild & _ & Hres & _).
  assert (Hbuild' :
    (prompt ← chat_prompt_template;
     if false then mret chain else build_chain retriever prompt llm) w
    = (res0, w0)) by exact Hbuild.
  destruct (lookup_attr (objects w) (VRef chain) "runnable"),
    (is_none retriever).
  - discriminate.
  - rewrite Hbuild. intros [= -> <-]. destruct Hres as [_ ->].
    split; reflexivity.
  - rewrite bind_unfold. unfold chat_prompt_template.
    destruct (new_fresh
                (Object "ChatPromptTemplate" true
                   {[ "messages" :=
                        VList [ VList [VStr "system"; VStr SYSTEM_PROMPT];
                                VList [VStr "MessagesPlaceholder";
                                       VStr "chat_history"];
                                VList [VStr "human"; VStr "{question}"] ] ]})
                w) as (prompt & wp & -> & _).
    discriminate.
  - rewrite Hbuild'. intros [= -> <-]. destruct Hres as [_ ->].
    split; reflexivity.
Qed.

(** The console handler is a new object; nothing else changes. *)
Lemma console_callbacks_spec (cfg : config) (w : world) :
  exists callbacks w0,
    console_callbacks cfg w = (callbacks, w0)
    /\ extends w w0
    /\ (DEBUG cfg = false -> callbacks = [] /\ w0 = w)
    /\ (DEBUG cfg = true ->
        exists handler,
          callbacks = [handler]
          /\ objects w !! handler = None
          /\ objects w0
             = <[handler := Object "ConsoleCallbackHandler" false ∅]>
                 (objects w)).
Proof.
  unfold console_callbacks. destruct (DEBUG cfg).
  - assert (Hfresh : objects w !! fresh (dom (objects w)) = None)
      by (apply not_elem_of_dom, is_fresh).
    eexists _, _. split; [reflexivity |]. split.
    + split; [| split; reflexivity]. cbn [objects].
      apply insert_subseteq. exact Hfresh.
    + split; [discriminate |]. intros _. eexists. split; [reflexivity |].
      split; [exact Hfresh | reflexivity].
  - exists [], w. split; [reflexivity |]. split; [apply extends_refl |].
    split; [auto | discriminate].
Qed.

Section OrchestratorProperties.

Variable ChatGroq : Q -> string -> Z -> outcome (gmap string value).

Variable astream_events :
  gmap loc object -> loc -> str -> str -> list loc -> run.

Lemma get_appropriate_llm_extends (query : str) (w : world)
    (res : outcome (loc * bool)) (w' : world) :
  get_appropriate_llm ChatGroq query w = (res, w') -> extends w w'.
Proof.
  unfold get_appropriate_llm.
  destruct (Binary64.assess_complexity query) as [c score].
  rewrite bind_unfold. unfold create_llm.
  destruct (ChatGroq TEMPERATURE (if c then COMPLEX_LLM else GENERAL_LLM)
              MAX_TOKENS) as [fields | e].
  - destruct (new_fresh (Object "ChatGroq" true fields) w)
      as (l & w1 & -> & X & _). intros [= _ <-]. exact X.
  - intros [= _ <-]. apply extends_refl.
Qed.

(** The body of the first [try] runs no pipeline and changes no object. *)
Lemma select_chain_effects (chain : loc) (question : str) (w : world)
    (res : outcome loc) (w' : world) :
  select_chain ChatGroq chain question w = (res, w') ->
  objects w ⊆ objects w' /\ invocations w' = invocations w.
Proof.
  unfold select_chain.
  destruct (Binary64.assess_complexity question) as [c score].
  rewrite bind_unfold.
  destruct (get_appropriate_llm ChatGroq question w) as [[[llm c'] | e] w1]
    eqn:Hllm.
  - pose proof (get_appropriate_llm_extends _ _ _ _ Hllm) as (S1 & _ & I1).
    rewrite bind_unfold.
    destruct (update_chain_llm chain llm w1) as [[updated | e] w2] eqn:Hup.
    + pose proof (update_chain_llm_extends _ _ _ _ _ Hup) as (S2 & _ & I2).
      destruct (negb (updated =? chain)%positive).
      * intros [= _ <-]. split; [etrans; eassumption | congruence].
      * intros [= _ <-]. simpl. split; [etrans; eassumption | congruence].
    + pose proof (update_chain_llm_extends _ _ _ _ _ Hup) as (S2 & _ & I2).
      intros [= _ <-]. split; [etrans; eassumption | congruence].
  - pose proof (get_appropriate_llm_extends _ _ _ _ Hllm) as (S1 & _ & I1).
    intros [= _ <-]. auto.
Qed.

(** Routing runs no pipeline and changes no object; what leaves it is not
    an [Exception]. *)
Lemma route_outcome (cfg : config) (chain : loc) (question : str)
    (w : world) :
  exists out w',
    route ChatGroq cfg chain question w = (out, w')
    /\ objects w ⊆ objects w'
    /\ invocations w' = invocations w
    /\ (forall e, out = Raise e ->
          is_Exception e = false
          /\ AUTO_COMPLEXITY_ROUTING cfg = true
          /\ select_chain ChatGroq chain question w = (Raise e, w')).
Proof.
  unfold route. destruct (AUTO_COMPLEXITY_ROUTING cfg).
  - unfold try_except.
    destruct (select_chain ChatGroq chain question w) as [[c | e] w1] eqn:Hs;
      destruct (select_chain_effects _ _ _ _ _ Hs) as [S1 I1].
    + eexists _, _. split; [reflexivity |]. split; [exact S1 |].
      split; [exact I1 | discriminate].
    + destruct (is_Exception e) eqn:He.
      * eexists _, _. split; [reflexivity |]. simpl.
        split; [exact S1 |]. split; [exact I1 | discriminate].
      * eexists _, _. split; [reflexivity |]. split; [exact S1 |].
        split; [exact I1 |]. intros e' [= <-]. auto.
  - exists (Return chain), w. split; [reflexivity |]. split; [reflexivity |].
    split; [reflexivity | discriminate].
Qed.

(** With routing disabled the chain is the one passed in and nothing
    happens. *)
Lemma route_disabled (cfg : config) (chain : loc) (question : str)
    (w : world) :
  AUTO_COMPLEXITY_ROUTING cfg = false ->
  route ChatGroq cfg chain question w = (Return chain, w).
Proof. intros H. unfold route. rewrite H. reflexivity. Qed.

Lemma select_chain_raises (chain : loc) (question : str) (w : world)
    (e : exn) (w1 : world) :
  get_appropriate_llm ChatGroq question w = (Raise e, w1)
  \/ (exists llm c w0,
        get_appropriate_llm ChatGroq question w = (Return (llm, c), w0)
        /\ update_chain_llm chain llm w0 = (Raise e, w1)) ->
  select_chain ChatGroq chain question w = (Raise e, w1).
Proof.
  unfold select_chain.
  destruct (Binary64.assess_complexity question) as [c score].
  rewrite bind_unfold. intros [-> | (llm & c' & w0 & -> & Hup)].
  - reflexivity.
  - rewrite bind_unfold, Hup. reflexivity.
Qed.

(** The streaming step runs the chain once, in the heap it is given plus
    the console handler; an [Exception] of the run becomes a last item,
    any other exception leaves the generator. *)
Lemma stream_spec (cfg : config) (chain : loc) (question session_id : str)
    (w : world) (callbacks : list loc) (w0 : world) :
  console_callbacks cfg w = (callbacks, w0) ->
  let r := astream_events (objects w0) chain question session_id callbacks in
  let caught :=
    match run_failure r with
    | Some e => if is_Exception e then Some e else None
    | None => None
    end in
  exists g w',
    stream astream_events cfg chain question session_id w = (g, w')
    /\ yielded g
       = flat_map forward (run_events r)
         ++ match caught with
            | Some e => [Text (error_message e)]
            | None => []
            end
    /\ raised g
       = match run_failure r with
         | Some e => if is_Exception e then None else Some e
         | None => None
         end
    /\ objects w' = run_objects r
    /\ stdout w'
       = stdout w ++ run_stdout r
         ++ match caught with
            | Some e => [py "Chain execution error: " ++ exn_str e]
            | None => []
            end
    /\ invocations w'
       = invocations w ++ [Invocation chain question session_id (DEBUG cfg)].
Proof.
  intros Hcb. cbv zeta. unfold stream. rewrite Hcb.
  destruct (console_callbacks_spec cfg w)
    as (cbs & w0' & Hcb' & (_ & Hout & Hinv) & _).
  rewrite Hcb in Hcb'. injection Hcb' as <- <-.
  destruct (run_failure
              (astream_events (objects w0) chain question session_id
                 callbacks)) as [e |]; [destruct (is_Exception e) |];
    eexists _, _; (split; [reflexivity |]); cbn [yielded raised objects
      stdout invocations]; rewrite ?app_nil_r, ?Hout, ?Hinv, <- ?app_assoc;
    repeat split; reflexivity.
Qed.

(** C8: with routing enabled, when the model factory raises an
    [Exception] or the rebinding raises (which it does with an
    [Exception] only), the failure is printed, the chain chosen is the
    location passed in, and the turn goes on: that chain, and no other, is
    run, once, and the turn is what streaming that chain gives. *)
Theorem routing_failure_falls_back (cfg : config) (chain : loc)
    (question session_id : str) (w w1 : world) (e : exn) :
  AUTO_COMPLEXITY_ROUTING cfg = true ->
  (get_appropriate_llm ChatGroq question w = (Raise e, w1)
   /\ is_Exception e = true)
  \/ (exists llm c w0,
        get_appropriate_llm ChatGroq question w = (Return (llm, c), w0)
        /\ update_chain_llm chain llm w0 = (Raise e, w1)) ->
  let question' := optimize_question cfg question in
  exists w2 g w3,
    is_Exception e = true
    /\ route ChatGroq cfg chain question w = (Return chain, w2)
    /\ objects w2 = objects w1
    /\ stdout w2
       = stdout w1 ++ [py "Error in dynamic complexity routing: "
                       ++ exn_str e ++ py ". Using original chain."]
    /\ ask_question ChatGroq astream_events cfg chain question session_id w
       = (g, w3)
    /\ (g, w3) = stream astream_events cfg chain question' session_id w2
    /\ invocations w3
       = invocations w
         ++ [Invocation chain question' session_id (DEBUG cfg)].
Proof.
  intros Hauto Hraise. cbv zeta.
  assert (He : is_Exception e = true).
  { destruct Hraise as [[_ He] | (llm & c & w0 & _ & Hup)]; [exact He |].
    apply (update_chain_llm_raises _ _ _ _ _ Hup). }
  assert (Hsel : select_chain ChatGroq chain question w = (Raise e, w1)).
  { apply select_chain_raises.
    destruct Hraise as [[H _] | H]; [left | right]; exact H. }
  destruct (select_chain_effects _ _ _ _ _ Hsel) as [_ Hinv].
  assert (Hroute :
    route ChatGroq cfg chain question w
    = (Return chain,
       World (objects w1)
         (stdout w1 ++ [py "Error in dynamic complexity routing: "
                        ++ exn_str e ++ py ". Using original chain."])
         (invocations w1))).
  { unfold route, try_except. rewrite Hauto, Hsel, He. reflexivity. }
  unfold ask_question. rewrite Hroute.
  match goal with
  | |- context [stream _ _ _ _ _ ?w2] =>
      destruct (console_callbacks_spec cfg w2) as (cbs & w0 & Hcb & _);
      destruct (stream_spec cfg chain (optimize_question cfg question)
                  session_id w2 cbs w0 Hcb)
        as (g & w3 & Hstream & _ & _ & _ & _ & Hinv3)
  end.
  eexists _, g, w3. split; [exact He |].
  split; [reflexivity |]. split; [reflexivity |]. split; [reflexivity |].
  split; [exact Hstream |]. split; [symmetry; exact Hstream |].
  rewrite Hinv3. cbn [invocations]. rewrite Hinv. reflexivity.
Qed.

Lemma forward_text_deltas (deltas : list str) :
  flat_map forward (map on_chain_stream deltas) = map Text deltas.
Proof.
  induction deltas as [| d deltas IH]; simpl; [reflexivity |].
  rewrite IH. reflexivity.
Qed.

(** C2, as amended: when the run of the chain that routing hands on
    delivers some events and then raises an [Exception], the turn yields
    what those events forward (the text of each delta, in order) followed
    by one item, the error message as a string, and ends there.  The chain
    is run once: nothing is retried or resumed.  When the run raises
    anything else, the turn yields what the events forward and the
    exception leaves the generator: no item follows. *)
Theorem stream_failure_yields_one_error (cfg : config) (chain : loc)
    (question session_id : str) (w : world) (chain' : loc) (w1 : world)
    (callbacks : list loc) (w1' : world) (e : exn) :
  let question' := optimize_question cfg question in
  let r := astream_events (objects w1') chain' question' session_id
             callbacks in
  route ChatGroq cfg chain question w = (Return chain', w1) ->
  console_callbacks cfg w1 = (callbacks, w1') ->
  run_failure r = Some e ->
  exists g w2,
    ask_question ChatGroq astream_events cfg chain question session_id w
    = (g, w2)
    /\ (is_Exception e = true ->
        g = Generated (flat_map forward (run_events r)
                       ++ [Text (error_message e)]) None)
    /\ (is_Exception e = false ->
        g = Generated (flat_map forward (run_events r)) (Some e))
    /\ error_message e
       = py "An error occurred while processing your question: "
         ++ exn_str e
    /\ (forall deltas, run_events r = map on_chain_stream deltas ->
          flat_map forward (run_events r) = map Text deltas)
    /\ invocations w2
       = invocations w
         ++ [Invocation chain' question' session_id (DEBUG cfg)].
Proof.
  cbv zeta. intros Hroute Hcb Hfail.
  destruct (route_outcome cfg chain question w)
    as (out & w0 & Hroute0 & _ & Hinv & _).
  rewrite Hroute in Hroute0. injection Hroute0 as <- <-.
  unfold ask_question. rewrite Hroute.
  unfold stream. rewrite Hcb, Hfail.
  destruct (console_callbacks_spec cfg w1)
    as (cbs & w0' & Hcb' & (_ & _ & Hinv') & _).
  rewrite Hcb in Hcb'. injection Hcb' as <- <-.
  destruct (is_Exception e); eexists _, _; (split; [reflexivity |]);
    (split; [intros; try discriminate; reflexivity |]);
    (split; [intros; try discriminate; reflexivity |]);
    (split; [reflexivity |]);
    (split; [intros deltas ->; apply forward_text_deltas |]);
    cbn [invocations]; rewrite Hinv', Hinv; reflexivity.
Qed.

End OrchestratorProperties.

(** ** The statements at sample turns *)

Lemma update_chain_llm_rebinds_witness :
  exists r w',
    update_chain_llm 4%positive 5%positive wrapped_world = (Return r, w')
    /\ objects wrapped_world !! r = None
    /\ objects w' !! 4%positive = objects wrapped_world !! 4%positive
    /\ built_retriever (objects w') r = Some (VRef 1%positive)
    /\ built_model (objects w') r = Some (VRef 5%positive).
Proof.
  destruct (update_chain_llm_rebinds 4%positive 5%positive wrapped_world)
    as (res & w' & Heq & Hkeep & _ & Hres & Htotal).
  destruct (Htotal eq_refl) as [r ->].
  exists r, w'. split; [exact Heq |].
  destruct Hres as [[Hnone _] | (_ & Hnew & Hret & Hllm)].
  - vm_compute in Hnone. discriminate Hnone.
  - split; [exact Hnew |]. split; [| split; [exact Hret | exact Hllm]].
    apply (Hkeep 4%positive). vm_compute. reflexivity.
Defined.

Lemma routing_failure_falls_back_witness :
  (exists w2,
     route failing_factory sample_config 1%positive (py "Why?") empty_world
     = (Return 1%positive, w2))
  /\ (exists w2,
        route working_factory sample_config 1%positive (py "Why?")
          unbindable_world
        = (Return 1%positive, w2)
        /\ stdout w2
           = [py "Error in dynamic complexity routing: 'str' object has no attribute 'with_config'. Using original chain."]).
Proof.
  split.
  - destruct (routing_failure_falls_back failing_factory interrupted_run
                sample_config 1%positive (py "Why?") (py "session-id-42")
                empty_world empty_world
                (Exn "GroqError" (py "The api_key client option must be set"))
                eq_refl (or_introl (conj eq_refl eq_refl)))
      as (w2 & _ & _ & _ & H & _).
    exists w2. exact H.
  - assert (Hllm : exists w0,
              get_appropriate_llm working_factory (py "Why?") unbindable_world
              = (Return (2%positive, false), w0)
              /\ exists w1,
                   update_chain_llm 1%positive 2%positive w0
                   = (Raise (Exn "AttributeError"
                               (py "'str' object has no attribute 'with_config'")),
                      w1)
                   /\ stdout w1 = []).
    { eexists. split; [vm_compute; reflexivity |].
      eexists. split; vm_compute; reflexivity. }
    destruct Hllm as (w0 & Hllm & w1 & Hup & Hout).
    destruct (routing_failure_falls_back working_factory interrupted_run
                sample_config 1%positive (py "Why?") (py "session-id-42")
                unbindable_world w1
                (Exn "AttributeError"
                   (py "'str' object has no attribute 'with_config'"))
                eq_refl
                (or_intror (ex_intro _ 2%positive
                              (ex_intro _ false
                                 (ex_intro _ w0 (conj Hllm Hup))))))
      as (w2 & _ & _ & _ & H & _ & Hprint & _).
    exists w2. split; [exact H |]. rewrite Hprint, Hout. reflexivity.
Defined.

Lemma stream_failure_yields_one_error_witness :
  exists w2,
    ask_question working_factory interrupted_run sample_config 4%positive
      (py "What   is  an embedding??") (py "session-id-42") wrapped_world
    = (Generated
         [ Documents [Document (py "Embeddings are vectors.")];
           Text (py "Embeddings ");
           Text (py "are");
           Text (py "An error occurred while processing your question: Connection error.") ]
         None,
       w2).
Proof.
  assert (Hroute : exists chain' w1,
            route working_factory sample_config 4%positive
              (py "What   is  an embedding??") wrapped_world
            = (Return chain', w1))
    by (eexists _, _; vm_compute; reflexivity).
  destruct Hroute as (chain' & w1 & Hroute).
  destruct (stream_failure_yields_one_error working_factory interrupted_run
              sample_config 4%positive (py "What   is  an embedding??")
              (py "session-id-42") wrapped_world chain' w1 [] w1
              (Exn "APIConnectionError" (py "Connection error."))
              Hroute eq_refl eq_refl)
    as (g & w2 & Hask & Hg & _).
  exists w2. rewrite Hask, (Hg eq_refl). reflexivity.
Defined.

(** C2 as stated fails.  A run that is cancelled after its events makes
    the turn yield what they forward and then raise: no item follows, and
    the sequence is not the prefix followed by one more item.  And an item
    that carries the error message is a string like any delta: a run that
    fails at once and a run that streams the same text and ends normally
    give the same turn. *)
Lemma stream_failure_counterexample :
  let cancelled :=
    fst (ask_question working_factory cancelled_run sample_config 4%positive
           (py "What   is  an embedding??") (py "session-id-42")
           wrapped_world) in
  yielded cancelled = flat_map forward sample_events
  /\ raised cancelled = Some (BaseExn "CancelledError" [])
  /\ (forall message,
        cancelled
        <> Generated (flat_map forward sample_events ++ [Text message]) None)
  /\ fst (ask_question working_factory failing_run sample_config 4%positive
            (py "What   is  an embedding??") (py "session-id-42")
            wrapped_world)
     = fst (ask_question working_factory parroting_run sample_config
              4%positive (py "What   is  an embedding??")
              (py "session-id-42") wrapped_world).
Proof.
  cbv zeta.
  assert (H : fst (ask_question working_factory cancelled_run sample_config
                     4%positive (py "What   is  an embedding??")
                     (py "session-id-42") wrapped_world)
              = Generated (flat_map forward sample_events)
                  (Some (BaseExn "CancelledError" [])))
    by (vm_compute; reflexivity).
  rewrite H. split; [reflexivity |]. split; [reflexivity |].
  split; [intros message E; discriminate E |].
  vm_compute. reflexivity.
Qed.

(* ===================================================================== *)
(** * Part III: further properties of the code *)
(* ===================================================================== *)

(** ** remove_links *)

Lemma starts_link_head (prefix s : str) :
  forallb (fun c => negb (is_space c)) prefix = true ->
  starts_link prefix s = true -> starts_outside (fun c => negb (is_space c)) s = false.
Proof.
  destruct prefix as [| a prefix], s as [| b s]; simpl; try discriminate.
  - intros _ H. rewrite H. reflexivity.
  - intros Hp H. apply andb_true_iff in Hp as [Ha _].
    apply andb_true_iff in H as [Hab _]. apply N.eqb_eq in Hab. subst b.
    rewrite Ha. reflexivity.
Qed.

(** Whether a link starts is decided by the characters before the next
    whitespace. *)
Lemma starts_link_cut (prefix u t : str) :
  forallb (fun c => negb (is_space c)) prefix = true ->
  starts_outside (fun c => negb (is_space c)) t = true ->
  starts_link prefix (u ++ t) = starts_link prefix u.
Proof.
  intros Hp Ht. revert u. induction prefix as [| a prefix IH]; intros u.
  - destruct u as [| b u]; [| reflexivity]. simpl.
    destruct t as [| c t]; [reflexivity |]. simpl in Ht.
    rewrite negb_involutive in Ht. rewrite Ht. reflexivity.
  - simpl in Hp. apply andb_true_iff in Hp as [Ha Hp].
    destruct u as [| b u]; simpl.
    + destruct t as [| c t]; [reflexivity |]. simpl in Ht.
      rewrite negb_involutive in Ht.
      destruct (N.eqb_spec a c) as [-> | _]; [| reflexivity].
      rewrite Ht in Ha. discriminate.
    + rewrite IH by exact Hp. reflexivity.
Qed.

Lemma starts_link_app (prefix u t : str) :
  starts_link prefix u = true -> starts_link prefix (u ++ t) = true.
Proof.
  revert u. induction prefix as [| a prefix IH]; intros [| b u]; simpl;
    try discriminate; auto.
  rewrite !andb_true_iff. intros [Hab H]. auto.
Qed.

Lemma link_prefixes_nonspace :
  forallb (forallb (fun c => negb (is_space c))) LINK_PREFIXES = true.
Proof. vm_compute. reflexivity. Qed.

Lemma link_starts_cut (u t : str) :
  starts_outside (fun c => negb (is_space c)) t = true ->
  link_starts (u ++ t) = link_starts u.
Proof.
  intros Ht. unfold link_starts.
  pose proof link_prefixes_nonspace as Hall. revert Hall.
  induction LINK_PREFIXES as [| p ps IH]; [reflexivity |].
  cbn [forallb existsb]. intros Hall.
  apply andb_true_iff in Hall as [Hp Hps].
  rewrite (starts_link_cut p u t Hp Ht), (IH Hps). reflexivity.
Qed.

Lemma link_starts_app (u t : str) :
  link_starts u = true -> link_starts (u ++ t) = true.
Proof.
  unfold link_starts. rewrite !existsb_exists. intros (p & Hin & H).
  exists p. split; [exact Hin | apply starts_link_app; exact H].
Qed.

Lemma link_starts_nonspace (c : N) (s : str) :
  link_starts (c :: s) = true -> is_space c = false.
Proof.
  unfold link_starts. rewrite existsb_exists. intros (p & Hin & H).
  pose proof link_prefixes_nonspace as Hall.
  rewrite forallb_forall in Hall. specialize (Hall p Hin).
  pose proof (starts_link_head p (c :: s) Hall H) as Hc. simpl in Hc.
  rewrite negb_involutive in Hc. exact Hc.
Qed.

Lemma link_starts_space (c : N) (s : str) :
  is_space c = true -> link_starts (c :: s) = false.
Proof.
  intros Hc. destruct (link_starts (c :: s)) eqn:H; [| reflexivity].
  rewrite (link_starts_nonspace c s H) in Hc. discriminate.
Qed.

Lemma remove_links_from_cons_space (inside : bool) (c : N) (s : str) :
  is_space c = true ->
  remove_links_from inside (c :: s) = c :: remove_links_from false s.
Proof.
  intros Hc. cbn [remove_links_from]. rewrite Hc.
  rewrite (link_starts_space c s Hc). destruct inside; reflexivity.
Qed.

(** Inside a match the output resumes at the next whitespace. *)
Lemma remove_links_from_inside (s : str) :
  starts_outside (fun c => negb (is_space c)) (remove_links_from true s)
  = true.
Proof.
  induction s as [| c s IH]; [reflexivity |]. cbn [remove_links_from].
  destruct (is_space c) eqn:Hc; [| exact IH]. simpl. rewrite Hc. reflexivity.
Qed.

(** The output is a prefix of the input, cut at the first link, followed
    by whitespace or nothing. *)
Lemma remove_links_from_prefix (s : str) :
  exists u t t',
    s = u ++ t'
    /\ remove_links_from false s = u ++ t
    /\ starts_outside (fun c => negb (is_space c)) t = true.
Proof.
  induction s as [| c s (u & t & t' & Hs & Hr & Ht)].
  - exists [], [], []. auto.
  - cbn [remove_links_from]. destruct (link_starts (c :: s)) eqn:Hl.
    + exists [], (remove_links_from true s), (c :: s).
      repeat split. apply remove_links_from_inside.
    + exists (c :: u), t, t'. rewrite Hr. simpl. rewrite <- Hs. auto.
Qed.

(** X1: removing the links of a text twice is removing them once. *)
Theorem remove_links_idempotent (text : str) :
  remove_links (remove_links text) = remove_links text.
Proof.
  unfold remove_links.
  assert (H : forall inside,
    remove_links_from false (remove_links_from inside text)
    = remove_links_from inside text).
  { induction text as [| c s IH]; intros inside; [destruct inside; reflexivity |].
    destruct (is_space c) eqn:Hc.
    - rewrite !remove_links_from_cons_space by exact Hc.
      rewrite IH. reflexivity.
    - destruct inside; cbn [remove_links_from]; [rewrite Hc; apply IH |].
      destruct (link_starts (c :: s)) eqn:Hl; [apply IH |].
      destruct (remove_links_from_prefix s) as (u & t & t' & Hs & Hr & Ht).
      assert (Hl' : link_starts (c :: remove_links_from false s) = false).
      { rewrite Hr. change (c :: u ++ t) with ((c :: u) ++ t).
        rewrite (link_starts_cut (c :: u) t Ht).
        destruct (link_starts (c :: u)) eqn:Hu; [| reflexivity].
        pose proof (link_starts_app (c :: u) t' Hu) as Hbad.
        simpl in Hbad. rewrite <- Hs, Hl in Hbad. discriminate. }
      cbn [remove_links_from]. rewrite Hl', IH. reflexivity. }
  apply H.
Qed.

Lemma remove_links_from_app_space (inside : bool) (a : str) (c : N)
    (b : str) :
  is_space c = true ->
  remove_links_from inside (a ++ c :: b)
  = remove_links_from inside a ++ c :: remove_links_from false b.
Proof.
  intros Hc. revert inside. induction a as [| x a IH]; intros inside.
  - simpl app. rewrite remove_links_from_cons_space by exact Hc.
    destruct inside; reflexivity.
  - simpl app. cbn [remove_links_from].
    change (x :: a ++ c :: b) with ((x :: a) ++ c :: b).
    rewrite (link_starts_cut (x :: a) (c :: b))
      by (simpl; rewrite Hc; reflexivity).
    destruct inside.
    + destruct (is_space x); rewrite IH; reflexivity.
    + destruct (link_starts (x :: a)); rewrite IH; reflexivity.
Qed.

(** X2: a link never runs across whitespace, so the links of a text are
    removed separately on either side of a whitespace character, which
    stays where it is. *)
Theorem remove_links_app_space (a : str) (c : N) (b : str) :
  is_space c = true ->
  remove_links (a ++ c :: b) = remove_links a ++ c :: remove_links b.
Proof. intros Hc. apply remove_links_from_app_space. exact Hc. Qed.

Lemma remove_links_app_space_witness :
  remove_links (py "see www.a.org" ++ 32%N :: py "now")
  = remove_links (py "see www.a.org") ++ 32%N :: remove_links (py "now").
Proof. apply remove_links_app_space. vm_compute. reflexivity. Defined.

(** X3: the whitespace of a text is untouched and nothing is added: the
    output keeps every whitespace character, in order, and is a
    subsequence of the input. *)
Theorem remove_links_keeps_whitespace (text : str) :
  List.filter is_space (remove_links text) = List.filter is_space text
  /\ sublist (remove_links text) text
  /\ length (remove_links text) <= length text.
Proof.
  unfold remove_links.
  assert (H : forall inside,
    List.filter is_space (remove_links_from inside text)
    = List.filter is_space text
    /\ sublist (remove_links_from inside text) text).
  { induction text as [| c s IH]; intros inside; [split; constructor |].
    destruct (is_space c) eqn:Hc.
    - rewrite remove_links_from_cons_space by exact Hc.
      cbn [List.filter]. rewrite Hc.
      destruct (IH false) as [-> Hsub]. split; [reflexivity |].
      apply sublist_skip. exact Hsub.
    - cbn [remove_links_from List.filter]. rewrite ?Hc.
      destruct inside; [| destruct (link_starts (c :: s))].
      + destruct (IH true) as [-> Hsub]. split; [reflexivity |].
        apply sublist_cons. exact Hsub.
      + destruct (IH true) as [-> Hsub]. split; [reflexivity |].
        apply sublist_cons. exact Hsub.
      + cbn [List.filter]. rewrite Hc.
        destruct (IH false) as [-> Hsub]. split; [reflexivity |].
        apply sublist_skip. exact Hsub. }
  destruct (H false) as [Hf Hs]. repeat split; auto.
  apply sublist_length. exact Hs.
Qed.

(** ** format_documents *)

Lemma join_cons (sep part : str) (parts : list str) :
  parts <> [] -> join sep (part :: parts) = part ++ sep ++ join sep parts.
Proof. destruct parts; [contradiction | reflexivity]. Qed.

Lemma remove_links_join (c : N) (parts : list str) :
  is_space c = true ->
  remove_links (join [c] parts) = join [c] (map remove_links parts).
Proof.
  intros Hc. induction parts as [| part parts IH]; [reflexivity |].
  destruct parts as [| part' parts]; [reflexivity |].
  change (map remove_links (part :: part' :: parts))
    with (remove_links part :: map remove_links (part' :: parts)).
  rewrite (join_cons [c] part (part' :: parts)) by (intros E; discriminate E).
  rewrite (join_cons [c] (remove_links part)
             (map remove_links (part' :: parts)))
    by (intros E; discriminate E).
  cbn [app].
  change (remove_links (part ++ c :: join [c] (part' :: parts)))
    with (remove_links_from false (part ++ c :: join [c] (part' :: parts))).
  rewrite remove_links_from_app_space by exact Hc.
  change (remove_links_from false (join [c] (part' :: parts)))
    with (remove_links (join [c] (part' :: parts))).
  rewrite IH. reflexivity.
Qed.

Lemma format_documents_texts (documents : list document) (texts : list str) :
  fold_left
    (fun texts doc => (texts ++ [page_content doc]) ++ [py "---"])
    documents texts
  = texts ++ flat_map (fun doc => [page_content doc; py "---"]) documents.
Proof.
  revert texts. induction documents as [| doc documents IH]; intros texts.
  - simpl. rewrite app_nil_r. reflexivity.
  - cbn [fold_left flat_map]. rewrite IH, <- !app_assoc. reflexivity.
Qed.

(** X4: the context given to the model is, for each document in order, its
    content with the links removed, then a line [---]; these lines are
    joined by single newlines.  A link is removed within its document
    only. *)
Theorem format_documents_per_document (documents : list document) :
  format_documents documents
  = join [chr_newline]
      (flat_map (fun doc => [remove_links (page_content doc); py "---"])
         documents).
Proof.
  unfold format_documents. rewrite format_documents_texts. cbn [app].
  rewrite remove_links_join by reflexivity. f_equal.
  induction documents as [| doc documents IH]; [reflexivity |].
  cbn [flat_map app map]. rewrite IH. reflexivity.
Qed.

(** ** truncate_text: what is kept *)

Lemma slice_prefix (s : str) (n : Z) :
  (0 <= n <= Z.of_nat (length s))%Z ->
  slice s None (Some n) = firstn (Z.to_nat n) s.
Proof.
  intros Hn. unfold slice, slice_index.
  destruct (Z.ltb_spec n 0) as [Hneg | _]; [lia |].
  rewrite Z.min_l, Z.sub_0_r by lia. reflexivity.
Qed.

Lemma slice_suffix (s : str) (n : Z) :
  (0 < n <= Z.of_nat (length s))%Z ->
  slice s (Some (- n)%Z) None = skipn (length s - Z.to_nat n) s.
Proof.
  intros Hn. unfold slice, slice_index.
  destruct (Z.ltb_spec (- n) 0) as [_ | Hpos]; [| lia].
  rewrite Z.max_r by lia.
  replace (Z.to_nat (- n + Z.of_nat (length s))) with (length s - Z.to_nat n)
    by lia.
  apply firstn_all2. rewrite length_skipn. lia.
Qed.

Lemma slice_middle (s : str) (a n : Z) :
  (0 <= a)%Z -> (0 < n)%Z -> (a <= Z.of_nat (length s) - n)%Z ->
  slice s (Some a) (Some (- n)%Z)
  = firstn (length s - Z.to_nat n - Z.to_nat a) (skipn (Z.to_nat a) s).
Proof.
  intros Ha Hn Hle. unfold slice, slice_index.
  destruct (Z.ltb_spec a 0) as [Hneg | _]; [lia |].
  destruct (Z.ltb_spec (- n) 0) as [_ | Hpos]; [| lia].
  rewrite Z.min_l, Z.max_r by lia. f_equal. lia.
Qed.

(** The middle part and the conclusion are adjacent in the text: together
    they are its last [max_length - max_length / 3] characters. *)
Lemma truncate_text_long (text : str) (max_length : Z) :
  (3 <= max_length)%Z -> (max_length < Z.of_nat (length text))%Z ->
  truncate_text text max_length
  = firstn (Z.to_nat (max_length / 3)) text
    ++ py "..."
    ++ skipn (length text - Z.to_nat (max_length - max_length / 3)) text.
Proof.
  intros H3 Hlt. unfold truncate_text.
  destruct (Z.leb_spec (Z.of_nat (length text)) max_length) as [Hle | _];
    [lia |].
  assert (Hq : (1 <= max_length / 3)%Z) by (apply Z.div_le_lower_bound; lia).
  assert (Hq' : (3 * (max_length / 3) <= max_length)%Z)
    by (apply Z.mul_div_le; lia).
  rewrite slice_prefix, slice_suffix, slice_middle by lia.
  f_equal. f_equal.
  set (a := length text - Z.to_nat (max_length - max_length / 3)).
  replace (Z.to_nat
             (Z.of_nat (length text)
              - (max_length - max_length / 3 - max_length / 3)
              - max_length / 3)) with a by lia.
  replace (length text - Z.to_nat (max_length / 3))
    with (a + (length text - Z.to_nat (max_length / 3) - a)) at 2 by lia.
  rewrite Nat.add_comm, <- skipn_skipn. apply firstn_skipn.
Qed.

(** X5: a text longer than a maximum of at least 3 is cut in its middle:
    the first [max_length / 3] characters and the last
    [max_length - max_length / 3] are kept around three dots, and the
    [len - max_length] characters between them are dropped. *)
Theorem truncate_text_drops_middle (text : str) (max_length : Z) :
  (3 <= max_length)%Z -> (max_length < Z.of_nat (length text))%Z ->
  exists intro middle conclusion : str,
    text = intro ++ middle ++ conclusion
    /\ truncate_text text max_length = intro ++ py "..." ++ conclusion
    /\ Z.of_nat (length intro) = (max_length / 3)%Z
    /\ Z.of_nat (length conclusion) = (max_length - max_length / 3)%Z
    /\ Z.of_nat (length middle) = (Z.of_nat (length text) - max_length)%Z.
Proof.
  intros H3 Hlt.
  assert (Hq : (1 <= max_length / 3)%Z) by (apply Z.div_le_lower_bound; lia).
  assert (Hq' : (3 * (max_length / 3) <= max_length)%Z)
    by (apply Z.mul_div_le; lia).
  set (i := Z.to_nat (max_length / 3)).
  set (a := length text - Z.to_nat (max_length - max_length / 3)).
  exists (firstn i text), (firstn (a - i) (skipn i text)), (skipn a text).
  split; [| split; [apply truncate_text_long; assumption |]].
  - replace a with (i + (a - i)) at 2 by (unfold a, i; lia).
    rewrite Nat.add_comm, <- skipn_skipn.
    rewrite (firstn_skipn (a - i) (skipn i text)).
    symmetry. apply firstn_skipn.
  - rewrite !length_firstn, !length_skipn. unfold a, i. lia.
Qed.

Lemma truncate_text_drops_middle_witness :
  exists intro middle conclusion : str,
    py "abcdefghij" = intro ++ middle ++ conclusion
    /\ truncate_text (py "abcdefghij") 6 = intro ++ py "..." ++ conclusion
    /\ Z.of_nat (length intro) = 2%Z
    /\ Z.of_nat (length conclusion) = 4%Z
    /\ Z.of_nat (length middle) = 4%Z.
Proof.
  apply (truncate_text_drops_middle (py "abcdefghij") 6).
  - lia.
  - vm_compute. reflexivity.
Defined.

(** X6: for a maximum of at least 3, truncating a truncated text changes
    nothing, although the truncated text is longer than the maximum. *)
Theorem truncate_text_idempotent (text : str) (max_length : Z) :
  (3 <= max_length)%Z ->
  truncate_text (truncate_text text max_length) max_length
  = truncate_text text max_length.
Proof.
  intros H3.
  destruct (Z.leb_spec (Z.of_nat (length text)) max_length) as [Hle | Hlt].
  - assert (Hsame : truncate_text text max_length = text).
    { unfold truncate_text.
      destruct (Z.leb_spec (Z.of_nat (length text)) max_length);
        [reflexivity | lia]. }
    rewrite !Hsame. reflexivity.
  - assert (Hq : (1 <= max_length / 3)%Z)
      by (apply Z.div_le_lower_bound; lia).
    assert (Hq' : (3 * (max_length / 3) <= max_length)%Z)
      by (apply Z.mul_div_le; lia).
    rewrite (truncate_text_long text max_length H3 Hlt).
    set (i := Z.to_nat (max_length / 3)).
    set (j := Z.to_nat (max_length - max_length / 3)).
    set (A := firstn i text). set (B := skipn (length text - j) text).
    assert (HA : length A = i) by (unfold A; rewrite length_firstn; lia).
    assert (HB : length B = j) by (unfold B; rewrite length_skipn; lia).
    assert (Hlen : length (A ++ py "..." ++ B) = i + 3 + j).
    { rewrite !length_app, HA, HB. change (length (py "...")) with 3. lia. }
    rewrite truncate_text_long by (rewrite ?Hlen; lia).
    fold i j. rewrite Hlen.
    rewrite firstn_app, HA, Nat.sub_diag, firstn_O, app_nil_r.
    rewrite <- HA at 1. rewrite firstn_all.
    replace (i + 3 + j - j) with (length A + 3) by lia.
    rewrite skipn_app, (skipn_all2 A) by lia.
    replace (length A + 3 - length A) with 3 by lia.
    change (skipn 3 (py "..." ++ B)) with B. reflexivity.
Qed.

Lemma truncate_text_idempotent_witness :
  truncate_text (truncate_text (py "abcdefghij") 6) 6
  = truncate_text (py "abcdefghij") 6.
Proof. apply truncate_text_idempotent. lia. Defined.

(** ** optimize_prompt: what it keeps and what it guarantees *)

Section PassKeeps.

(** [keep] selects characters outside the class of the pass. *)
Variable cls keep : N -> bool.
Variable k : nat.
Variable repl : str.
Hypothesis Hk : 1 <= k.
Hypothesis Hkeep : forall c, keep c = true -> cls c = false.
Hypothesis Hrepl : forallb cls repl = true.

Lemma filter_outside_class (r : str) :
  forallb cls r = true -> List.filter keep r = [].
Proof using Hkeep.
  induction r as [| c r IH]; simpl; [reflexivity |].
  intros H. apply andb_true_iff in H as [Hc Hr].
  destruct (keep c) eqn:E; [rewrite (Hkeep c E) in Hc; discriminate |].
  auto.
Qed.

Lemma re_sub_run_keeps (pend s : str) :
  forallb cls pend = true ->
  List.filter keep (re_sub_run cls k repl pend s) = List.filter keep s.
Proof using Hk Hkeep Hrepl.
  revert pend. induction s as [| c s IH]; intros pend Hp.
  - simpl. apply filter_outside_class, flush_run_cls; assumption.
  - destruct (cls c) eqn:Hc.
    + rewrite re_sub_run_cons_inside by exact Hc.
      rewrite IH by (rewrite forallb_app, Hp; simpl; rewrite Hc; reflexivity).
      cbn [List.filter]. destruct (keep c) eqn:E; [| reflexivity].
      rewrite (Hkeep c E) in Hc. discriminate.
    + rewrite re_sub_run_cons_outside by exact Hc.
      rewrite List.filter_app.
      rewrite (filter_outside_class (flush_run k repl pend))
        by (apply flush_run_cls; assumption).
      cbn [List.filter app]. rewrite IH by reflexivity. reflexivity.
Qed.

End PassKeeps.

Lemma lstrip_keeps (keep : N -> bool) (s : str) :
  (forall c, keep c = true -> is_space c = false) ->
  List.filter keep (lstrip s) = List.filter keep s.
Proof.
  intros Hkeep. induction s as [| c s IH]; [reflexivity |].
  cbn [lstrip]. destruct (is_space c) eqn:Hc; [| reflexivity].
  cbn [List.filter]. destruct (keep c) eqn:E; [| exact IH].
  rewrite (Hkeep c E) in Hc. discriminate.
Qed.

Lemma rstrip_keeps (keep : N -> bool) (s : str) :
  (forall c, keep c = true -> is_space c = false) ->
  List.filter keep (rstrip s) = List.filter keep s.
Proof.
  intros Hkeep. induction s as [| c s IH]; [reflexivity |].
  cbn [rstrip]. destruct (rstrip s) as [| d r] eqn:Hr.
  - cbn [List.filter] in *. rewrite <- IH.
    destruct (is_space c) eqn:Hc; [| reflexivity].
    destruct (keep c) eqn:E; [| reflexivity].
    rewrite (Hkeep c E) in Hc. discriminate.
  - cbn [List.filter] in *. rewrite <- IH. reflexivity.
Qed.

(** X7: the normaliser touches only whitespace, dots, exclamation marks
    and question marks: the other characters of the prompt come out
    unchanged, all of them and in the same order. *)
Theorem optimize_prompt_keeps_other_characters (keep : N -> bool)
    (prompt : str) :
  (forall c, keep c = true ->
     is_space c = false /\ c <> chr_dot /\ c <> chr_bang /\ c <> chr_qmark) ->
  List.filter keep (optimize_prompt prompt) = List.filter keep prompt.
Proof.
  intros Hkeep. unfold optimize_prompt, re_sub, strip.
  assert (Hne : forall a, (forall c, keep c = true -> c <> a) ->
                forall c, keep c = true -> (a =? c)%N = false).
  { intros a Ha c Hc. apply N.eqb_neq. intros <-. exact (Ha a Hc eq_refl). }
  rewrite (re_sub_run_keeps (N.eqb chr_qmark) keep 2 (py "?"));
    [| lia | apply Hne; intros c Hc; apply Hkeep; exact Hc
     | reflexivity | reflexivity].
  rewrite (re_sub_run_keeps (N.eqb chr_bang) keep 2 (py "!"));
    [| lia | apply Hne; intros c Hc; apply Hkeep; exact Hc
     | reflexivity | reflexivity].
  rewrite (re_sub_run_keeps (N.eqb chr_dot) keep 2 (py "..."));
    [| lia | apply Hne; intros c Hc; apply Hkeep; exact Hc
     | reflexivity | reflexivity].
  rewrite rstrip_keeps, lstrip_keeps
    by (intros c Hc; apply Hkeep; exact Hc).
  apply (re_sub_run_keeps is_space keep 1 (py " "));
    [lia | intros c Hc; apply Hkeep; exact Hc | reflexivity | reflexivity].
Qed.

Lemma optimize_prompt_keeps_other_characters_witness :
  List.filter (fun c => (97 <=? c)%N && (c <=? 122)%N)
    (optimize_prompt (py "  so...   what??  "))
  = py "sowhat".
Proof.
  rewrite (optimize_prompt_keeps_other_characters
             (fun c => (97 <=? c)%N && (c <=? 122)%N)).
  - vm_compute. reflexivity.
  - intros c Hc. apply andb_true_iff in Hc as [Hlo Hhi].
    apply N.leb_le in Hlo, Hhi. unfold chr_dot, chr_bang, chr_qmark.
    repeat split; try lia. unfold is_space.
    repeat match goal with
           | |- context [(?a <=? ?b)%N] => destruct (N.leb_spec a b); try lia
           | |- context [(?a =? ?b)%N] => destruct (N.eqb_spec a b); try lia
           end; reflexivity.
Defined.

Lemma forallb_filter_nil (p : N -> bool) (s : str) :
  forallb p s = true <-> List.filter (fun c => negb (p c)) s = [].
Proof.
  induction s as [| c s IH]; simpl; [tauto |].
  destruct (p c); simpl; [exact IH | split; discriminate].
Qed.

Lemma lstrip_nil_iff (s : str) : lstrip s = [] <-> forallb is_space s = true.
Proof.
  induction s as [| c s IH]; simpl; [tauto |].
  destruct (is_space c); simpl; [exact IH | split; discriminate].
Qed.

Lemma rstrip_nil_iff (s : str) : rstrip s = [] <-> forallb is_space s = true.
Proof.
  induction s as [| c s IH]; simpl; [tauto |].
  destruct (rstrip s) as [| d r].
  - destruct (is_space c); simpl; [| split; discriminate].
    split; intros _; [apply IH |]; reflexivity.
  - split; [discriminate |]. intros H. apply andb_true_iff in H as [_ H].
    apply IH in H. discriminate.
Qed.

Lemma strip_nil_iff (s : str) : strip s = [] <-> forallb is_space s = true.
Proof.
  unfold strip. rewrite rstrip_nil_iff. split.
  - intros H. apply lstrip_nil_iff.
    pose proof (starts_outside_lstrip s) as Hout.
    destruct (lstrip s) as [| d u]; [reflexivity |].
    simpl in H, Hout. apply andb_true_iff in H as [Hd _].
    rewrite Hd in Hout. discriminate.
  - intros H. apply lstrip_nil_iff in H. rewrite H. reflexivity.
Qed.

Lemma re_sub_space_all_space (s : str) :
  forallb is_space (re_sub is_space 1 (py " ") s) = true
  <-> forallb is_space s = true.
Proof.
  rewrite !forallb_filter_nil. unfold re_sub.
  rewrite (re_sub_run_keeps is_space (fun c => negb (is_space c)) 1 (py " "));
    [tauto | lia | | reflexivity | reflexivity].
  intros c Hc. apply negb_true_iff. exact Hc.
Qed.

(** The normal form is empty exactly for a prompt of whitespace only. *)
Lemma optimize_prompt_nil_iff (prompt : str) :
  optimize_prompt prompt = [] <-> forallb is_space prompt = true.
Proof.
  rewrite <- re_sub_space_all_space, <- strip_nil_iff.
  unfold optimize_prompt, re_sub. split.
  - intros H.
    apply (re_sub_run_nil_inv (N.eqb chr_qmark) 2 (py "?")) in H as [_ H];
      [| discriminate].
    apply (re_sub_run_nil_inv (N.eqb chr_bang) 2 (py "!")) in H as [_ H];
      [| discriminate].
    apply (re_sub_run_nil_inv (N.eqb chr_dot) 2 (py "...")) in H as [_ H];
      [| discriminate].
    exact H.
  - intros ->. reflexivity.
Qed.

(** X8: with token optimization on, a question that has a character other
    than whitespace is replaced by its normal form, which is not empty; a
    question of whitespace only (its normal form is empty) goes on as it
    was typed.  The question handed on is empty only if the one typed
    was. *)
Theorem optimize_question_adopts (cfg : config) (question : str) :
  USE_TOKEN_OPTIMIZATION cfg = true ->
  (optimize_prompt question = [] <-> forallb is_space question = true)
  /\ (forallb is_space question = true ->
      optimize_question cfg question = question)
  /\ (forallb is_space question = false ->
      optimize_question cfg question = optimize_prompt question
      /\ optimize_prompt question <> [])
  /\ (question <> [] -> optimize_question cfg question <> []).
Proof.
  intros Huse. pose proof (optimize_prompt_nil_iff question) as Hnil.
  unfold optimize_question. rewrite Huse. cbv zeta.
  split; [exact Hnil |]. split; [| split].
  - intros Hws. apply Hnil in Hws. rewrite Hws. reflexivity.
  - intros Hws.
    assert (Hne : optimize_prompt question <> []).
    { intros E. apply Hnil in E. rewrite E in Hws. discriminate. }
    split; [| exact Hne].
    destruct (optimize_prompt question); [contradiction | reflexivity].
  - intros Hq. destruct (optimize_prompt question) eqn:E;
      [exact Hq | discriminate].
Qed.

Lemma optimize_question_adopts_witness :
  optimize_question sample_config (py "   ") = py "   "
  /\ optimize_question sample_config (py " Why   not?? ") = py "Why not?".
Proof.
  destruct (optimize_question_adopts sample_config (py "   ") eq_refl)
    as (_ & Hspace & _).
  destruct (optimize_question_adopts sample_config (py " Why   not?? ")
              eq_refl) as (_ & _ & Hother & _).
  split.
  - apply Hspace. vm_compute. reflexivity.
  - destruct Hother as [-> _]; vm_compute; reflexivity.
Defined.

Lemma rstrip_snoc_space (a : str) (c : N) :
  is_space c = true -> rstrip (a ++ [c]) = rstrip a.
Proof.
  intros Hc. induction a as [| x a IH].
  - simpl. rewrite Hc. reflexivity.
  - simpl app. cbn [rstrip]. rewrite IH. reflexivity.
Qed.

Lemma rstrip_length (s : str) : length (rstrip s) <= length s.
Proof.
  induction s as [| c s IH]; [reflexivity |].
  cbn [rstrip]. destruct (rstrip s) as [| d r].
  - destruct (is_space c); simpl; lia.
  - simpl in *. lia.
Qed.

(** The whitespace normalisation can be seen as the last step. *)
Lemma optimize_prompt_whitespace_last (prompt : str) :
  optimize_prompt prompt
  = strip (re_sub is_space 1 (py " ")
             (re_sub (N.eqb chr_qmark) 2 (py "?")
                (re_sub (N.eqb chr_bang) 2 (py "!")
                   (re_sub (N.eqb chr_dot) 2 (py "...") prompt)))).
Proof.
  unfold optimize_prompt.
  rewrite !punctuation_whitespace_commute by (reflexivity || discriminate).
  reflexivity.
Qed.

(** X9: in a normalised prompt every whitespace character is a space (code
    32) that is not followed by whitespace, and the prompt neither starts
    nor ends with whitespace. *)
Theorem optimize_prompt_whitespace_normal (prompt : str) :
  let out := optimize_prompt prompt in
  single_spaced out = true
  /\ starts_outside is_space out = true
  /\ lstrip out = out
  /\ rstrip out = out
  /\ (forall a c b, out = a ++ c :: b -> is_space c = true ->
        c = 32%N /\ a <> [] /\ b <> []).
Proof.
  cbv zeta. rewrite optimize_prompt_whitespace_last.
  set (y := re_sub (N.eqb chr_qmark) 2 (py "?") _).
  assert (Hss : single_spaced (strip (re_sub is_space 1 (py " ") y)) = true).
  { apply single_spaced_rstrip, single_spaced_lstrip,
      single_spaced_re_sub_run. reflexivity. }
  assert (Hout : starts_outside is_space
                   (strip (re_sub is_space 1 (py " ") y)) = true)
    by (apply starts_outside_rstrip, starts_outside_lstrip).
  assert (Hr : rstrip (strip (re_sub is_space 1 (py " ") y))
               = strip (re_sub is_space 1 (py " ") y))
    by apply rstrip_idem.
  split; [exact Hss |]. split; [exact Hout |].
  split; [apply lstrip_fixed; exact Hout |]. split; [exact Hr |].
  revert Hss Hout Hr. generalize (strip (re_sub is_space 1 (py " ") y)).
  intros out Hss Hout Hr a c b -> Hc.
  assert (H32 : c = 32%N).
  { clear Hout Hr. induction a as [| x a IH].
    - simpl in Hss. rewrite Hc in Hss.
      apply andb_true_iff in Hss as [Hss _].
      apply andb_true_iff in Hss as [Hss _]. apply N.eqb_eq. exact Hss.
    - simpl in Hss. apply andb_true_iff in Hss as [_ Hss]. auto. }
  split; [exact H32 |]. split.
  - intros ->. simpl in Hout. rewrite Hc in Hout. discriminate.
  - intros ->. rewrite (rstrip_snoc_space a c Hc) in Hr.
    pose proof (rstrip_length a) as Hlen. rewrite Hr, length_app in Hlen.
    simpl in Hlen. lia.
Qed.

(** ** Runs of a punctuation mark after its pass *)

Section RunBound.

Variable c : N.
Variable m : nat.
Hypothesis Hm : 1 <= m.

Lemma forallb_eqb_repeat (r : str) :
  forallb (N.eqb c) r = true -> r = repeat c (length r).
Proof.
  induction r as [| d r IH]; simpl; [reflexivity |].
  intros H. apply andb_true_iff in H as [Hd Hr].
  apply N.eqb_eq in Hd. subst d. f_equal. auto.
Qed.

Lemma flush_run_repeat (pend : str) :
  forallb (N.eqb c) pend = true ->
  exists j, j <= m /\ flush_run 2 (repeat c m) pend = repeat c j.
Proof using Hm.
  intros Hp. unfold flush_run. destruct (Nat.leb_spec 2 (length pend)).
  - exists m. auto.
  - exists (length pend). split; [lia | apply forallb_eqb_repeat; exact Hp].
Qed.

Lemma startswith_repeat_short (n j : nat) (t : str) :
  j < n -> starts_outside (N.eqb c) t = true ->
  startswith (repeat c n) (repeat c j ++ t) = false.
Proof.
  revert n. induction j as [| j IH]; intros n Hj Ht.
  - destruct n as [| n]; [lia |]. simpl.
    destruct t as [| d t]; [reflexivity |]. simpl in Ht.
    apply negb_true_iff in Ht. rewrite Ht. reflexivity.
  - destruct n as [| n]; [lia |]. simpl. rewrite IH by (lia || exact Ht).
    apply andb_false_r.
Qed.

Lemma contains_repeat_short (n j : nat) (t : str) :
  j < n -> starts_outside (N.eqb c) t = true ->
  contains (repeat c n) (repeat c j ++ t) = contains (repeat c n) t.
Proof.
  intros Hj Ht. induction j as [| j IH]; [reflexivity |].
  change (repeat c (S j) ++ t) with (c :: (repeat c j ++ t)).
  cbn [contains].
  change (c :: (repeat c j ++ t)) with (repeat c (S j) ++ t).
  rewrite startswith_repeat_short by assumption.
  rewrite IH by lia. reflexivity.
Qed.

Lemma contains_repeat_cons_other (n : nat) (d : N) (t : str) :
  1 <= n -> (c =? d)%N = false ->
  contains (repeat c n) (d :: t) = contains (repeat c n) t.
Proof.
  intros Hn Hd. destruct n as [| n]; [lia |].
  cbn [contains]. simpl startswith. rewrite Hd. reflexivity.
Qed.

(** After the pass that replaces runs of at least two [c] by [m] of them,
    no run is longer than [m]. *)
Lemma re_sub_run_bounds_runs (pend s : str) :
  forallb (N.eqb c) pend = true ->
  contains (repeat c (S m)) (re_sub_run (N.eqb c) 2 (repeat c m) pend s)
  = false.
Proof using Hm.
  revert pend. induction s as [| d s IH]; intros pend Hp.
  - cbn [re_sub_run]. destruct (flush_run_repeat pend Hp) as (j & Hj & ->).
    rewrite <- (app_nil_r (repeat c j)).
    rewrite contains_repeat_short by (lia || reflexivity). reflexivity.
  - destruct (N.eqb c d) eqn:Hd.
    + rewrite re_sub_run_cons_inside by exact Hd. apply IH.
      rewrite forallb_app, Hp. simpl. rewrite Hd. reflexivity.
    + rewrite re_sub_run_cons_outside by exact Hd.
      destruct (flush_run_repeat pend Hp) as (j & Hj & ->).
      rewrite contains_repeat_short
        by (lia || (simpl; rewrite Hd; reflexivity)).
      rewrite contains_repeat_cons_other by (lia || exact Hd).
      apply IH. reflexivity.
Qed.

End RunBound.

(** X10: a normalised prompt holds no two exclamation marks in a row, no
    two question marks in a row and no four dots in a row. *)
Theorem optimize_prompt_punctuation_normal (prompt : str) :
  contains (py "!!") (optimize_prompt prompt) = false
  /\ contains (py "??") (optimize_prompt prompt) = false
  /\ contains (py "....") (optimize_prompt prompt) = false.
Proof.
  unfold optimize_prompt.
  set (w := strip (re_sub is_space 1 (py " ") prompt)).
  split; [| split].
  - rewrite (punctuation_commute chr_bang chr_qmark (py "!") (py "?"))
      by (reflexivity || discriminate).
    apply (re_sub_run_bounds_runs chr_bang 1); [lia | reflexivity].
  - apply (re_sub_run_bounds_runs chr_qmark 1); [lia | reflexivity].
  - rewrite <- (punctuation_commute chr_bang chr_dot (py "!") (py "..."))
      by (reflexivity || discriminate).
    rewrite <- (punctuation_commute chr_qmark chr_dot (py "?") (py "..."))
      by (reflexivity || discriminate).
    apply (re_sub_run_bounds_runs chr_dot 3); [lia | reflexivity].
Qed.

(** ** optimize_messages *)

Lemma optimize_prompt_stable (prompt : str) :
  optimize_prompt (optimize_prompt prompt) = optimize_prompt prompt.
Proof.
  unfold optimize_prompt.
  rewrite !punctuation_whitespace_commute by (reflexivity || discriminate).
  rewrite strip_re_sub_idem.
  rewrite (punctuation_commute chr_qmark chr_dot (py "?") (py "..."))
    by (reflexivity || discriminate).
  rewrite (punctuation_commute chr_bang chr_dot (py "!") (py "..."))
    by (reflexivity || discriminate).
  rewrite (re_sub_idem (N.eqb chr_dot) 2 (py "...")) by (lia || reflexivity).
  rewrite (punctuation_commute chr_qmark chr_bang (py "?") (py "!"))
    by (reflexivity || discriminate).
  rewrite (re_sub_idem (N.eqb chr_bang) 2 (py "!")) by (lia || reflexivity).
  rewrite (re_sub_idem (N.eqb chr_qmark) 2 (py "?")) by (lia || reflexivity).
  reflexivity.
Qed.

Section MessagesProperties.

Variable is_human_message : string -> bool.
Variable human_defaults : gmap string value.

Lemma optimize_messages_map (messages acc : list message) :
  fold_left
    (fun optimized_messages m =>
       optimized_messages
       ++ [optimize_message is_human_message human_defaults m])
    messages acc
  = acc ++ map (optimize_message is_human_message human_defaults) messages.
Proof.
  revert acc. induction messages as [| m messages IH]; intros acc.
  - simpl. rewrite app_nil_r. reflexivity.
  - cbn [fold_left map]. rewrite IH, <- app_assoc. reflexivity.
Qed.

Lemma optimize_message_stable (m : message) :
  optimize_message is_human_message human_defaults
    (optimize_message is_human_message human_defaults m)
  = optimize_message is_human_message human_defaults m.
Proof.
  destruct m as [c [s | parts] fields]; [| reflexivity].
  unfold optimize_message at 2 3. cbn [message_content message_class
                                        message_fields].
  destruct (is_human_message c) eqn:Hh; unfold optimize_message;
    cbn [message_content message_class message_fields];
    rewrite optimize_prompt_stable.
  - destruct (is_human_message "HumanMessage"); reflexivity.
  - rewrite Hh. reflexivity.
Qed.

(** X11: optimising a list of messages a second time changes nothing; the
    result has as many messages as the input, in the same order: the
    message at each position comes from the message at that position. *)
Theorem optimize_messages_idempotent (messages : list message) :
  optimize_messages is_human_message human_defaults
    (optimize_messages is_human_message human_defaults messages)
  = optimize_messages is_human_message human_defaults messages
  /\ length (optimize_messages is_human_message human_defaults messages)
     = length messages
  /\ (forall i : nat,
        optimize_messages is_human_message human_defaults messages !! i
        = optimize_message is_human_message human_defaults
            <$> messages !! i).
Proof.
  unfold optimize_messages. rewrite !optimize_messages_map. cbn [app].
  split; [| split; [apply length_map | intros i; apply list_lookup_fmap]].
  rewrite map_map. apply map_ext. intros m. apply optimize_message_stable.
Qed.

(** X12: what happens to each message.  One whose content is a string gets
    the normalised string.  If it is a HumanMessage, every other field is
    reset to the default of a new HumanMessage; otherwise class and
    fields are kept.  A message whose content is a list is returned as it
    is. *)
Theorem optimize_messages_each (messages : list message) (i : nat)
    (m : message) :
  messages !! i = Some m ->
  exists m',
    optimize_messages is_human_message human_defaults messages !! i = Some m'
    /\ match message_content m with
       | CStr s =>
           message_content m' = CStr (optimize_prompt s)
           /\ (if is_human_message (message_class m)
               then message_class m' = "HumanMessage"%string
                    /\ message_fields m' = human_defaults
               else message_class m' = message_class m
                    /\ message_fields m' = message_fields m)
       | CParts _ => m' = m
       end.
Proof.
  intros Hi. unfold optimize_messages. rewrite optimize_messages_map.
  cbn [app]. exists (optimize_message is_human_message human_defaults m).
  split.
  - rewrite list_lookup_fmap, Hi. reflexivity.
  - unfold optimize_message. destruct (message_content m) as [s | parts].
    + destruct (is_human_message (message_class m)); simpl; auto.
    + reflexivity.
Qed.

End MessagesProperties.

Lemma optimize_messages_each_witness :
  exists m',
    optimize_messages (String.eqb "HumanMessage") ∅
      [ Message "HumanMessage" (CStr (py "Hi   there!!"))
          {[ "name" := VStr "ada" ]} ] !! 0
    = Some m'
    /\ message_content m' = CStr (py "Hi there!")
    /\ message_fields m' = ∅.
Proof.
  destruct (optimize_messages_each (String.eqb "HumanMessage") ∅
              [ Message "HumanMessage" (CStr (py "Hi   there!!"))
                  {[ "name" := VStr "ada" ]} ] 0 _ eq_refl)
    as (m' & Hm & Hc & _ & Hf).
  exists m'. split; [exact Hm |]. split; [exact Hc | exact Hf].
Defined.

(** ** Chains as build_chain makes them *)

(** The chain that [build_chain] returns is the binding made by its last
    [with_config]. *)
Lemma build_chain_top (retriever : value) (prompt llm : loc) (w : world)
    (r : loc) (w' : world) :
  build_chain retriever prompt llm w = (Return r, w') ->
  exists history,
    objects w' !! r
    = Some (Object "RunnableBinding" true
              {[ "bound" := VRef history; "run_name" := VStr "chain_answer" ]}).
Proof.
  destruct (is_runnable (objects w) retriever) eqn:Hv;
    [| rewrite (build_chain_raises retriever prompt llm w Hv); discriminate].
  unfold build_chain.
  destruct (with_config_spec retriever "context_retriever" w Hv)
    as (l1 & w1 & E1 & _).
  rewrite bind_unfold, E1.
  destruct (new_fresh
              (Object "RunnableSequence" true
                 {[ "first" := VGetter "question";
                    "middle" := VList [VRef l1];
                    "last" := VFun "format_documents" ]}) w1)
    as (l2 & w2 & E2 & _).
  rewrite bind_unfold. unfold pipe at 1. rewrite E2.
  destruct (new_fresh
              (Object "RunnableAssign" true {[ "context" := VRef l2 ]}) w2)
    as (l3 & w3 & E3 & _).
  rewrite bind_unfold. unfold assign_context. rewrite E3.
  destruct (new_fresh
              (Object "RunnableSequence" true
                 {[ "first" := VRef l3;
                    "middle" := VList [VRef prompt];
                    "last" := VRef llm ]}) w3)
    as (l4 & w4 & E4 & _).
  rewrite bind_unfold. unfold pipe. rewrite E4.
  destruct (new_fresh
              (Object "RunnableWithMessageHistory" true
                 {[ "runnable" := VRef l4;
                    "get_session_history" := VFun "get_session_history";
                    "input_messages_key" := VStr "question";
                    "history_messages_key" := VStr "chat_history" ]}) w4)
    as (l5 & w5 & E5 & _ & _ & L5).
  rewrite bind_unfold. unfold with_message_history. rewrite E5.
  assert (H5 : is_runnable (objects w5) (VRef l5) = true)
    by (simpl; rewrite L5; reflexivity).
  destruct (with_config_spec (VRef l5) "chain_answer" w5 H5)
    as (l6 & w6 & E6 & _ & _ & L6).
  rewrite E6. intros [= <- <-]. exists l5. exact L6.
Qed.

(** Such a binding shows neither [runnable] nor [retriever] to the
    probing. *)
Lemma retrieval_reference_binding (h : gmap loc object) (r : loc)
    (bound : value) (run_name : string) :
  h !! r = Some (Object "RunnableBinding" true
                   {[ "bound" := bound; "run_name" := VStr run_name ]}) ->
  retrieval_reference h r = VNone.
Proof.
  intros Hr. unfold retrieval_reference.
  rewrite !(lookup_attr_ref h r _ _ Hr). reflexivity.
Qed.

Lemma update_chain_llm_unlocated (chain llm : loc) (w : world) :
  retrieval_reference (objects w) chain = VNone ->
  exists w',
    update_chain_llm chain llm w = (Return chain, w')
    /\ extends w w'
    /\ retrieval_reference (objects w') chain = VNone.
Proof.
  intros Hnone. rewrite update_chain_llm_unfold. cbv zeta. rewrite Hnone.
  cbn [is_none].
  destruct (lookup_attr (objects w) (VRef chain) "runnable") eqn:Hrun.
  - exists w. split; [reflexivity |]. split; [apply extends_refl | exact Hnone].
  - rewrite bind_unfold. unfold chat_prompt_template.
    set (o := Object "ChatPromptTemplate" true _).
    destruct (new_fresh o w) as (prompt & wp & Eq & Xp & Hfresh & _).
    rewrite Eq. exists wp. split; [reflexivity |]. split; [exact Xp |].
    assert (Hobj : objects wp = <[prompt := o]> (objects w))
      by (injection Eq as <- <-; reflexivity).
    revert Hnone. unfold retrieval_reference. rewrite Hobj, Hrun.
    rewrite !(lookup_attr_new (objects w) prompt o) by (exact Hfresh || reflexivity).
    rewrite Hrun. auto.
Qed.

Lemma update_chain_llm_result (chain llm : loc) (w : world) (r : loc)
    (w' : world) :
  update_chain_llm chain llm w = (Return r, w') ->
  (r = chain
   /\ retrieval_reference (objects w) chain = VNone
   /\ retrieval_reference (objects w') chain = VNone)
  \/ (objects w !! r = None
      /\ retrieval_reference (objects w) chain <> VNone
      /\ built_retriever (objects w') r
         = Some (retrieval_reference (objects w) chain)
      /\ built_model (objects w') r = Some (VRef llm)
      /\ exists history,
           objects w' !! r
           = Some (Object "RunnableBinding" true
                     {[ "bound" := VRef history;
                        "run_name" := VStr "chain_answer" ]})).
Proof.
  destruct (is_none (retrieval_reference (objects w) chain)) eqn:Hnone.
  - apply is_none_spec in Hnone.
    destruct (update_chain_llm_unlocated chain llm w Hnone)
      as (w0 & -> & _ & Hstill).
    intros [= <- <-]. left. auto.
  - assert (Hsome : retrieval_reference (objects w) chain <> VNone).
    { intros E. apply is_none_spec in E. congruence. }
    rewrite update_chain_llm_unfold. cbv zeta. rewrite Hnone.
    set (retriever := retrieval_reference (objects w) chain) in *.
    assert (Hsame :
      (prompt ← chat_prompt_template;
       if false then mret chain else build_chain retriever prompt llm) w
      = (prompt ← chat_prompt_template; build_chain retriever prompt llm) w)
      by reflexivity.
    destruct (lookup_attr (objects w) (VRef chain) "runnable");
      rewrite ?Hsame; intros Hbuild;
      destruct (rebuild_spec retriever llm w)
        as (res & w0 & Hspec & X & Hres & _);
      rewrite Hbuild in Hspec; injection Hspec as <- <-;
      destruct Hres as (Hfresh & Hret & Hllm);
      right; (split; [exact Hfresh |]); (split; [exact Hsome |]);
      (split; [exact Hret |]); (split; [exact Hllm |]);
      revert Hbuild; rewrite bind_unfold;
      destruct (chat_prompt_template w) as [[prompt | e] wp];
      try discriminate; apply build_chain_top.
Qed.

Lemma retrieval_reference_allocated (h : gmap loc object) (chain : loc) :
  retrieval_reference h chain <> VNone -> is_Some (h !! chain).
Proof.
  intros Hsome. destruct (h !! chain) as [o |] eqn:Hc; [eauto |].
  exfalso. apply Hsome. unfold retrieval_reference. simpl. rewrite Hc.
  reflexivity.
Qed.

Lemma update_chain_llm_returns (chain llm : loc) (w : world) :
  is_runnable (objects w) (retrieval_reference (objects w) chain) = true ->
  exists r w', update_chain_llm chain llm w = (Return r, w').
Proof.
  intros Hrun. rewrite update_chain_llm_unfold. cbv zeta.
  set (retriever := retrieval_reference (objects w) chain) in *.
  assert (Hnone : is_none retriever = false)
    by (destruct retriever; try reflexivity; discriminate).
  rewrite Hnone.
  destruct (rebuild_spec retriever llm w) as (res & w0 & Hspec & _ & _ & Htot).
  destruct (Htot Hrun) as [r ->].
  assert (Hspec' :
    (prompt ← chat_prompt_template;
     if false then mret chain else build_chain retriever prompt llm) w
    = (Return r, w0)) by exact Hspec.
  destruct (lookup_attr (objects w) (VRef chain) "runnable");
    [rewrite Hspec | rewrite Hspec']; eauto.
Qed.

(** X13: [create_chain] builds a chain that did not exist, around the very
    retriever and model it is given, and changes nothing that exists.  It
    raises the [AttributeError] of the interpreter if the retriever is not
    a Runnable. *)
Theorem create_chain_builds (llm retriever : loc) (w : world) :
  (is_runnable (objects w) (VRef retriever) = true ->
   exists r w',
     create_chain llm retriever w = (Return r, w')
     /\ extends w w'
     /\ objects w !! r = None
     /\ built_retriever (objects w') r = Some (VRef retriever)
     /\ built_model (objects w') r = Some (VRef llm))
  /\ (forall o, objects w !! retriever = Some o -> runnable o = false ->
      exists w',
        create_chain llm retriever w
        = (Raise (Exn "AttributeError"
                    (py ("'" ++ cls o
                         ++ "' object has no attribute 'with_config'"))),
           w')
        /\ extends w w').
Proof.
  unfold create_chain. split.
  - intros Hrun.
    destruct (rebuild_spec (VRef retriever) llm w)
      as (res & w' & Hspec & X & Hres & Htot).
    destruct (Htot Hrun) as [r ->]. exists r, w'.
    destruct Hres as (Hfresh & Hret & Hllm). auto.
  - intros o Ho Hnot. rewrite bind_unfold. unfold chat_prompt_template.
    set (p := Object "ChatPromptTemplate" true _).
    destruct (new_fresh p w) as (prompt & wp & -> & Xp & _ & _).
    exists wp. split; [| exact Xp].
    pose proof (extends_lookup w wp retriever o Xp Ho) as Ho'.
    rewrite build_chain_raises by (simpl; rewrite Ho'; exact Hnot).
    unfold attribute_error, type_name. rewrite Ho'. reflexivity.
Qed.

Lemma create_chain_builds_witness :
  exists r w',
    create_chain 5%positive 1%positive wrapped_world = (Return r, w')
    /\ extends wrapped_world w'
    /\ objects wrapped_world !! r = None
    /\ built_retriever (objects w') r = Some (VRef 1%positive)
    /\ built_model (objects w') r = Some (VRef 5%positive).
Proof.
  apply (proj1 (create_chain_builds 5%positive 1%positive wrapped_world)).
  vm_compute. reflexivity.
Defined.

(** X14: a chain that [update_chain_llm] has returned is final: given to
    [update_chain_llm] again, with any model, it comes back as it is. *)
Theorem update_chain_llm_final (chain llm llm' : loc) (w : world) (r : loc)
    (w' : world) :
  update_chain_llm chain llm w = (Return r, w') ->
  exists w'',
    update_chain_llm r llm' w' = (Return r, w'') /\ extends w' w''.
Proof.
  intros Hup.
  assert (Hnone : retrieval_reference (objects w') r = VNone).
  { destruct (update_chain_llm_result chain llm w r w' Hup)
      as [(-> & _ & H) | (_ & _ & _ & _ & history & Hr)]; [exact H |].
    exact (retrieval_reference_binding _ _ _ _ Hr). }
  destruct (update_chain_llm_unlocated r llm' w' Hnone) as (w'' & H & X & _).
  eauto.
Qed.

Lemma update_chain_llm_final_witness :
  exists r w' w'',
    update_chain_llm 4%positive 5%positive wrapped_world = (Return r, w')
    /\ r <> 4%positive
    /\ update_chain_llm r 5%positive w' = (Return r, w'').
Proof.
  assert (H : exists w',
            update_chain_llm 4%positive 5%positive wrapped_world
            = (Return 12%positive, w'))
    by (eexists; vm_compute; reflexivity).
  destruct H as (w' & H).
  destruct (update_chain_llm_final 4%positive 5%positive 5%positive
              wrapped_world 12%positive w' H) as (w'' & H' & _).
  exists 12%positive, w', w''. split; [exact H |].
  split; [discriminate | exact H'].
Defined.

(** ** More on the orchestrator *)

Section OrchestratorMore.

Variable ChatGroq : Q -> string -> Z -> outcome (gmap string value).

Variable astream_events :
  gmap loc object -> loc -> str -> str -> list loc -> run.

Lemma get_appropriate_llm_cases (query : str) (w : world) :
  let is_complex := fst (Binary64.assess_complexity query) in
  match ChatGroq TEMPERATURE (if is_complex then COMPLEX_LLM else GENERAL_LLM)
          MAX_TOKENS with
  | Raise e => get_appropriate_llm ChatGroq query w = (Raise e, w)
  | Return fields =>
      exists llm w',
        get_appropriate_llm ChatGroq query w = (Return (llm, is_complex), w')
        /\ objects w !! llm = None
        /\ objects w' = <[llm := Object "ChatGroq" true fields]> (objects w)
        /\ stdout w' = stdout w
        /\ invocations w' = invocations w
  end.
Proof.
  cbv zeta. unfold get_appropriate_llm.
  destruct (Binary64.assess_complexity query) as [c score]. cbn [fst].
  rewrite bind_unfold. unfold create_llm.
  destruct (ChatGroq TEMPERATURE (if c then COMPLEX_LLM else GENERAL_LLM)
              MAX_TOKENS) as [fields | e]; [| reflexivity].
  eexists _, _. split; [reflexivity |]. cbn [objects stdout invocations].
  split; [apply not_elem_of_dom, is_fresh | auto].
Qed.

(** X15: the router asks the factory for the complex model exactly when the
    score, as binary64 arithmetic gives it, exceeds 0.30.  What the factory
    raises is raised unchanged and nothing is created; otherwise the
    client is a new object and comes with the classification. *)
Theorem get_appropriate_llm_selects (query : str) (w : world) :
  let is_complex := fst (Binary64.assess_complexity query) in
  let model_name := if is_complex then COMPLEX_LLM else GENERAL_LLM in
  (model_name = COMPLEX_LLM
   <-> (Binary64.literal 0.30 < snd (Binary64.assess_complexity query))%Q)
  /\ match ChatGroq TEMPERATURE model_name MAX_TOKENS with
     | Raise e => get_appropriate_llm ChatGroq query w = (Raise e, w)
     | Return fields =>
         exists llm w',
           get_appropriate_llm ChatGroq query w
           = (Return (llm, is_complex), w')
           /\ objects w !! llm = None
           /\ objects w' = <[llm := Object "ChatGroq" true fields]> (objects w)
           /\ stdout w' = stdout w
           /\ invocations w' = invocations w
     end.
Proof.
  cbv zeta. split.
  - rewrite <- (binary64_assess_lowered_is_complex (lower query)).
    change (Binary64.assess_lowered (lower query))
      with (Binary64.assess_complexity query).
    destruct (fst (Binary64.assess_complexity query)); split;
      try reflexivity; discriminate.
  - exact (get_appropriate_llm_cases query w).
Qed.

Lemma route_chain (cfg : config) (chain : loc) (question : str) (w : world)
    (chain' : loc) (w1 : world) :
  route ChatGroq cfg chain question w = (Return chain', w1) ->
  chain' = chain \/ objects w !! chain' = None.
Proof.
  unfold route. destruct (AUTO_COMPLEXITY_ROUTING cfg);
    [| intros [= <- <-]; auto].
  unfold try_except, select_chain.
  destruct (Binary64.assess_complexity question) as [c score].
  rewrite bind_unfold.
  destruct (get_appropriate_llm ChatGroq question w) as [[[llm c'] | e] w0]
    eqn:Hllm;
    [| destruct (is_Exception e); [intros [= <- <-]; auto | discriminate]].
  pose proof (get_appropriate_llm_extends ChatGroq _ _ _ _ Hllm) as X0.
  rewrite bind_unfold.
  destruct (update_chain_llm chain llm w0) as [[updated | e] w2] eqn:Hup;
    [| destruct (is_Exception e); [intros [= <- <-]; auto | discriminate]].
  destruct (Pos.eqb_spec updated chain) as [-> | Hne]; cbn [negb].
  - intros [= <- <-]. auto.
  - intros [= <- <-]. right.
    destruct (update_chain_llm_result chain llm w0 updated w2 Hup)
      as [(-> & _) | (Hfresh & _)]; [contradiction |].
    exact (extends_fresh w w0 updated X0 Hfresh).
Qed.

(** What leaves the routing step was raised by the model factory, outside
    [Exception], and nothing had happened by then. *)
Lemma route_raises (cfg : config) (chain : loc) (question : str) (w : world)
    (e : exn) (w1 : world) :
  route ChatGroq cfg chain question w = (Raise e, w1) ->
  is_Exception e = false
  /\ AUTO_COMPLEXITY_ROUTING cfg = true
  /\ w1 = w
  /\ ChatGroq TEMPERATURE
       (if fst (Binary64.assess_complexity question)
        then COMPLEX_LLM else GENERAL_LLM) MAX_TOKENS
     = Raise e.
Proof.
  intros Hroute.
  destruct (route_outcome ChatGroq cfg chain question w)
    as (out & w' & Hroute' & _ & _ & Hraise).
  rewrite Hroute in Hroute'. injection Hroute' as <- <-.
  destruct (Hraise e eq_refl) as (He & Hauto & Hsel).
  split; [exact He |]. split; [exact Hauto |].
  revert Hsel. unfold select_chain.
  pose proof (get_appropriate_llm_cases question w) as Hcases.
  cbv zeta in Hcases.
  destruct (Binary64.assess_complexity question) as [c score].
  cbn [fst] in *. rewrite bind_unfold.
  destruct (ChatGroq TEMPERATURE (if c then COMPLEX_LLM else GENERAL_LLM)
              MAX_TOKENS) as [fields | e'].
  - destruct Hcases as (l & wl & -> & _). rewrite bind_unfold.
    destruct (update_chain_llm chain l wl) as [[updated | e'] w2] eqn:Hup.
    + destruct (negb (updated =? chain)%positive); discriminate.
    + intros [= -> <-].
      destruct (update_chain_llm_raises _ _ _ _ _ Hup) as [_ He'].
      congruence.
  - rewrite Hcases. intros [= -> <-]. auto.
Qed.

(** X16: a turn lets no [Exception] out: what the generator raises, if
    anything, is outside [Exception].  It runs one chain, once, with the
    question as optimised and the session id given, and that chain is the
    one passed in or one that did not exist before; unless the model
    factory raised outside [Exception], and then nothing is yielded,
    nothing is run and the state is as it was. *)
Theorem ask_question_outcome (cfg : config) (chain : loc)
    (question session_id : str) (w : world) :
  exists g w',
    ask_question ChatGroq astream_events cfg chain question session_id w
    = (g, w')
    /\ (forall e, raised g = Some e -> is_Exception e = false)
    /\ ((exists chain',
           (chain' = chain \/ objects w !! chain' = None)
           /\ invocations w'
              = invocations w
                ++ [Invocation chain' (optimize_question cfg question)
                      session_id (DEBUG cfg)])
        \/ (exists e,
              g = Generated [] (Some e)
              /\ w' = w
              /\ AUTO_COMPLEXITY_ROUTING cfg = true
              /\ ChatGroq TEMPERATURE
                   (if fst (Binary64.assess_complexity question)
                    then COMPLEX_LLM else GENERAL_LLM) MAX_TOKENS
                 = Raise e)).
Proof.
  unfold ask_question.
  destruct (route ChatGroq cfg chain question w) as [[chain' | e] w1]
    eqn:Hroute.
  - destruct (route_outcome ChatGroq cfg chain question w)
      as (out & w0 & Hroute0 & _ & Hinv & _).
    rewrite Hroute in Hroute0. injection Hroute0 as <- <-.
    destruct (console_callbacks_spec cfg w1) as (cbs & w0 & Hcb & _).
    destruct (stream_spec astream_events cfg chain'
                (optimize_question cfg question) session_id w1 cbs w0 Hcb)
      as (g & w' & -> & _ & Hraised & _ & _ & Hinv').
    exists g, w'. split; [reflexivity |]. split.
    + intros e. rewrite Hraised.
      destruct (run_failure _) as [e' |]; [| discriminate].
      destruct (is_Exception e') eqn:He'; [discriminate |].
      intros [= <-]. exact He'.
    + left. exists chain'. split; [exact (route_chain _ _ _ _ _ _ Hroute) |].
      rewrite Hinv', Hinv. reflexivity.
  - destruct (route_raises _ _ _ _ _ _ Hroute) as (He & Hauto & -> & Hraise).
    eexists _, _. split; [reflexivity |]. split.
    + intros e' [= <-]. exact He.
    + right. exists e. auto.
Qed.

(** X17: with routing off the model factory plays no part, and nothing is
    created or printed before the run, but for the console handler when
    debugging is on; the chain run is the one passed in.  What the turn
    yields is what the events of the run forward, then the error message
    if the run raised an [Exception]; it leaves the heap as the run did,
    and what was printed is what the run printed, then the error line. *)
Theorem ask_question_without_routing (cfg : config) (chain : loc)
    (question session_id : str) (w : world) (callbacks : list loc)
    (w0 : world) :
  AUTO_COMPLEXITY_ROUTING cfg = false ->
  console_callbacks cfg w = (callbacks, w0) ->
  let question' := optimize_question cfg question in
  let r := astream_events (objects w0) chain question' session_id
             callbacks in
  let caught :=
    match run_failure r with
    | Some e => if is_Exception e then Some e else None
    | None => None
    end in
  exists g w',
    (forall factory,
       ask_question factory astream_events cfg chain question session_id w
       = (g, w'))
    /\ (DEBUG cfg = false -> callbacks = [] /\ w0 = w)
    /\ yielded g
       = flat_map forward (run_events r)
         ++ match caught with
            | Some e => [Text (error_message e)]
            | None => []
            end
    /\ raised g
       = match run_failure r with
         | Some e => if is_Exception e then None else Some e
         | None => None
         end
    /\ objects w' = run_objects r
    /\ stdout w'
       = stdout w ++ run_stdout r
         ++ match caught with
            | Some e => [py "Chain execution error: " ++ exn_str e]
            | None => []
            end
    /\ invocations w'
       = invocations w
         ++ [Invocation chain question' session_id (DEBUG cfg)].
Proof.
  intros Hoff Hcb. cbv zeta.
  destruct (stream_spec astream_events cfg chain
              (optimize_question cfg question) session_id w callbacks w0 Hcb)
    as (g & w' & Hstream & Hspec).
  exists g, w'. split.
  - intros factory. unfold ask_question, route. rewrite Hoff. exact Hstream.
  - split; [| exact Hspec].
    destruct (console_callbacks_spec cfg w) as (cbs & w0' & Hcb' & _ & H & _).
    rewrite Hcb in Hcb'. injection Hcb' as <- <-. exact H.
Qed.

(** X18: a chain as [create_chain] builds it is never rebound: whatever the
    question and the configuration, the chain that routing hands on is
    that very chain; routing hands nothing on only when the model factory
    raises outside [Exception].  With routing on and a factory that works,
    a client is created, found of no use, and the warning is printed. *)
Theorem created_chain_is_not_rebound (llm retriever : loc) (w0 : world)
    (chain : loc) (w : world) (cfg : config) (question : str) :
  create_chain llm retriever w0 = (Return chain, w) ->
  exists out w1,
    route ChatGroq cfg chain question w = (out, w1)
    /\ match out with
       | Return r => r = chain
       | Raise e =>
           is_Exception e = false
           /\ ChatGroq TEMPERATURE
                (if fst (Binary64.assess_complexity question)
                 then COMPLEX_LLM else GENERAL_LLM) MAX_TOKENS
              = Raise e
       end
    /\ (AUTO_COMPLEXITY_ROUTING cfg = false -> out = Return chain)
    /\ (AUTO_COMPLEXITY_ROUTING cfg = true ->
        forall fields,
          ChatGroq TEMPERATURE
            (if fst (Binary64.assess_complexity question)
             then COMPLEX_LLM else GENERAL_LLM) MAX_TOKENS
          = Return fields ->
          out = Return chain
          /\ stdout w1
             = stdout w
               ++ [py "Warning: Could not update chain with dynamic routing, using original chain"]).
Proof.
  intros Hcreate.
  assert (Hbinding : exists history,
    objects w !! chain
    = Some (Object "RunnableBinding" true
              {[ "bound" := VRef history;
                 "run_name" := VStr "chain_answer" ]})).
  { revert Hcreate. unfold create_chain. rewrite bind_unfold.
    destruct (chat_prompt_template w0) as [[prompt | e] wp];
      [apply build_chain_top | discriminate]. }
  destruct Hbinding as (history & Hchain).
  unfold route. destruct (AUTO_COMPLEXITY_ROUTING cfg);
    [| exists (Return chain), w; split; [reflexivity |]; split; [reflexivity |];
       split; [reflexivity | discriminate]].
  unfold try_except, select_chain.
  pose proof (get_appropriate_llm_cases question w) as Hcases.
  cbv zeta in Hcases.
  destruct (Binary64.assess_complexity question) as [c score].
  cbn [fst] in *. rewrite bind_unfold.
  destruct (ChatGroq TEMPERATURE (if c then COMPLEX_LLM else GENERAL_LLM)
              MAX_TOKENS) as [fields | e].
  - destruct Hcases as (l & wl & -> & Hfresh & Hobj & Hout & _).
    assert (Hnone : retrieval_reference (objects wl) chain = VNone).
    { apply (retrieval_reference_binding _ _ (VRef history) "chain_answer").
      rewrite Hobj, lookup_insert_ne; [exact Hchain | congruence]. }
    destruct (update_chain_llm_unlocated chain l wl Hnone)
      as (w2 & Hup & X2 & _).
    rewrite bind_unfold, Hup, Pos.eqb_refl. cbn [negb].
    rewrite bind_unfold. unfold print.
    eexists _, _. split; [reflexivity |]. split; [reflexivity |].
    split; [discriminate |]. intros _ fields' _. split; [reflexivity |].
    cbn [stdout]. destruct X2 as (_ & -> & _). rewrite Hout. reflexivity.
  - rewrite Hcases. destruct (is_Exception e) eqn:He.
    + rewrite bind_unfold. unfold print.
      eexists _, _. split; [reflexivity |]. split; [reflexivity |].
      split; [discriminate |]. intros _ fields H. discriminate H.
    + eexists _, _. split; [reflexivity |]. split; [auto |].
      split; [discriminate |]. intros _ fields H. discriminate H.
Qed.

(** X19: when the factory gives a client and the retrieval stage located in
    the chain is a Runnable, routing hands on a chain that did not exist
    before, distinct from the one passed in, which retrieves with the
    located reference and ends with the new client; nothing is printed,
    and that chain is the one the turn runs, letting no [Exception]
    out. *)
Theorem route_rebinds (cfg : config) (chain : loc)
    (question session_id : str) (w : world) (llm : loc) (c : bool)
    (w0 : world) :
  AUTO_COMPLEXITY_ROUTING cfg = true ->
  get_appropriate_llm ChatGroq question w = (Return (llm, c), w0) ->
  is_runnable (objects w0) (retrieval_reference (objects w0) chain) = true ->
  exists r w1 g w2,
    route ChatGroq cfg chain question w = (Return r, w1)
    /\ r <> chain
    /\ objects w !! r = None
    /\ built_retriever (objects w1) r
       = Some (retrieval_reference (objects w0) chain)
    /\ built_model (objects w1) r = Some (VRef llm)
    /\ stdout w1 = stdout w
    /\ ask_question ChatGroq astream_events cfg chain question session_id w
       = (g, w2)
    /\ (forall e, raised g = Some e -> is_Exception e = false)
    /\ invocations w2
       = invocations w
         ++ [Invocation r (optimize_question cfg question) session_id
               (DEBUG cfg)].
Proof.
  intros Hauto Hllm Hrun.
  pose proof (get_appropriate_llm_extends ChatGroq _ _ _ _ Hllm) as X0.
  destruct (update_chain_llm_returns chain llm w0 Hrun) as (r & w1 & Hup).
  pose proof (update_chain_llm_extends _ _ _ _ _ Hup) as X1.
  assert (Hsome : retrieval_reference (objects w0) chain <> VNone).
  { intros E. rewrite E in Hrun. discriminate. }
  destruct (update_chain_llm_result chain llm w0 r w1 Hup)
    as [(_ & Hnone & _) | (Hfresh & _ & Hret & Hmodel & _)];
    [contradiction |].
  assert (Hne : r <> chain).
  { intros ->. destruct (retrieval_reference_allocated _ _ Hsome) as [o Ho].
    congruence. }
  assert (Hroute : route ChatGroq cfg chain question w = (Return r, w1)).
  { unfold route, try_except, select_chain. rewrite Hauto.
    destruct (Binary64.assess_complexity question) as [c' score].
    rewrite bind_unfold, Hllm, bind_unfold, Hup.
    destruct (Pos.eqb_spec r chain) as [E | _]; [contradiction |].
    reflexivity. }
  destruct (console_callbacks_spec cfg w1) as (cbs & w1' & Hcb & _).
  destruct (stream_spec astream_events cfg r (optimize_question cfg question)
              session_id w1 cbs w1' Hcb)
    as (g & w2 & Hstream & _ & Hraised & _ & _ & Hinv).
  exists r, w1, g, w2.
  split; [exact Hroute |]. split; [exact Hne |].
  split; [exact (extends_fresh w w0 r X0 Hfresh) |].
  split; [exact Hret |]. split; [exact Hmodel |].
  destruct X0 as (_ & S0 & I0), X1 as (_ & S1 & I1).
  split; [congruence |]. split; [| split].
  - unfold ask_question. rewrite Hroute. exact Hstream.
  - intros e. rewrite Hraised.
    destruct (run_failure _) as [e' |]; [| discriminate].
    destruct (is_Exception e') eqn:He'; [discriminate |].
    intros [= <-]. exact He'.
  - rewrite Hinv. congruence.
Qed.

End OrchestratorMore.

Lemma ask_question_without_routing_witness :
  exists w',
    ask_question failing_factory interrupted_run (Config false true false)
      4%positive (py "What   now??") (py "s") wrapped_world
    = (Generated
         [ Documents [Document (py "Embeddings are vectors.")];
           Text (py "Embeddings ");
           Text (py "are");
           Text (error_message
                   (Exn "APIConnectionError" (py "Connection error."))) ]
         None,
       w')
    /\ stdout w' = [py "Chain execution error: Connection error."].
Proof.
  destruct (ask_question_without_routing interrupted_run
              (Config false true false) 4%positive (py "What   now??")
              (py "s") wrapped_world [] wrapped_world eq_refl eq_refl)
    as ([items failure] & w' & H & _ & Hitems & Hraised & _ & Hout & _).
  exists w'. rewrite (H failing_factory).
  cbn [yielded raised] in Hitems, Hraised. rewrite Hitems, Hraised, Hout.
  split; reflexivity.
Defined.

Lemma created_chain_is_not_rebound_witness :
  exists chain w w1,
    create_chain 5%positive 1%positive wrapped_world = (Return chain, w)
    /\ route working_factory sample_config chain (py "Why is it ethical?") w
       = (Return chain, w1).
Proof.
  assert (H : exists w,
            create_chain 5%positive 1%positive wrapped_world
            = (Return 12%positive, w))
    by (eexists; vm_compute; reflexivity).
  destruct H as (w & H).
  destruct (created_chain_is_not_rebound working_factory 5%positive
              1%positive wrapped_world 12%positive w sample_config
              (py "Why is it ethical?") H)
    as (out & w1 & Hroute & _ & _ & Hon).
  destruct (Hon eq_refl _ eq_refl) as [-> _].
  exists 12%positive, w, w1. split; [exact H | exact Hroute].
Defined.

Lemma route_rebinds_witness :
  exists r w1,
    route working_factory sample_config 4%positive (py "Why?") wrapped_world
    = (Return r, w1)
    /\ r <> 4%positive
    /\ built_retriever (objects w1) r = Some (VRef 1%positive).
Proof.
  assert (H : exists w0,
            get_appropriate_llm working_factory (py "Why?") wrapped_world
            = (Return (6%positive, false), w0)
            /\ retrieval_reference (objects w0) 4%positive = VRef 1%positive
            /\ is_runnable (objects w0) (VRef 1%positive) = true).
  { eexists. split; [vm_compute; reflexivity |].
    split; vm_compute; reflexivity. }
  destruct H as (w0 & Hllm & Href & Hrun).
  rewrite <- Href in Hrun.
  destruct (route_rebinds working_factory interrupted_run sample_config
              4%positive (py "Why?") (py "s") wrapped_world 6%positive false
              w0 eq_refl Hllm Hrun)
    as (r & w1 & _ & _ & Hroute & Hne & _ & Hret & _).
  exists r, w1. rewrite Href in Hret. auto.
Defined.

(** ** ask_chain *)

Lemma fold_receive (events : list item) (c : chat) :
  full_response (fold_left receive events c)
  = full_response c
    ++ flat_map (fun event => match event with
                              | Text s => s
                              | Documents _ => []
                              end) events
  /\ documents (fold_left receive events c)
     = documents c
       ++ flat_map (fun event => match event with
                                 | Text _ => []
                                 | Documents docs => docs
                                 end) events.
Proof.
  revert c. induction events as [| event events IH]; intros c.
  - simpl. rewrite !app_nil_r. auto.
  - cbn [fold_left flat_map]. destruct (IH (receive c event)) as [-> ->].
    destruct event; cbn [receive full_response documents app];
      rewrite <- ?app_assoc; auto.
Qed.

Lemma sources_from_spec (i : nat) (docs : list document) :
  map fst (sources_from i docs) = seq (i + 1) (length docs)
  /\ map snd (sources_from i docs) = map page_content docs.
Proof.
  revert i. induction docs as [| doc docs IH]; intros i; [auto |].
  cbn [sources_from map seq length fst snd].
  destruct (IH (S i)) as [-> ->]. auto.
Qed.

Lemma flat_map_forward_text (events : list event) :
  flat_map (fun event => match event with
                         | Text s => s
                         | Documents _ => []
                         end) (flat_map forward events)
  = flat_map (fun ev => match ev with
                        | on_chain_stream s => s
                        | _ => []
                        end) events.
Proof.
  induction events as [| ev events IH]; [reflexivity |].
  cbn [flat_map]. rewrite flat_map_app, IH.
  destruct ev; cbn [forward flat_map app]; rewrite ?app_nil_r; reflexivity.
Qed.

Lemma flat_map_forward_documents (events : list event) :
  flat_map (fun event => match event with
                         | Text _ => []
                         | Documents docs => docs
                         end) (flat_map forward events)
  = flat_map (fun ev => match ev with
                        | on_retriever_end output => output
                        | _ => []
                        end) events.
Proof.
  induction events as [| ev events IH]; [reflexivity |].
  cbn [flat_map]. rewrite flat_map_app, IH.
  destruct ev; cbn [forward flat_map app]; rewrite ?app_nil_r; reflexivity.
Qed.

(** What consuming the forwarded events, then some last items, leaves. *)
Lemma ask_chain_consume_forward (events : list event) (last : list item) :
  let a := ask_chain_consume (flat_map forward events ++ last) in
  answer_message a
  = ("assistant"%string,
     flat_map (fun ev => match ev with
                         | on_chain_stream s => s
                         | _ => []
                         end) events
     ++ flat_map (fun event => match event with
                               | Text s => s
                               | Documents _ => []
                               end) last)
  /\ map fst (answer_sources a)
     = seq 1 (length
                (flat_map (fun ev => match ev with
                                     | on_retriever_end output => output
                                     | _ => []
                                     end) events
                 ++ flat_map (fun event => match event with
                                           | Text _ => []
                                           | Documents docs => docs
                                           end) last))
  /\ map snd (answer_sources a)
     = map page_content
         (flat_map (fun ev => match ev with
                              | on_retriever_end output => output
                              | _ => []
                              end) events
          ++ flat_map (fun event => match event with
                                    | Text _ => []
                                    | Documents docs => docs
                                    end) last).
Proof.
  cbv zeta. unfold ask_chain_consume. cbn [answer_message answer_sources].
  destruct (fold_receive (flat_map forward events ++ last) (Chat [] [] []))
    as [-> ->].
  cbn [full_response documents app].
  rewrite !flat_map_app, flat_map_forward_text, flat_map_forward_documents.
  destruct (sources_from_spec 0
              (flat_map (fun ev => match ev with
                                   | on_retriever_end output => output
                                   | _ => []
                                   end) events
               ++ flat_map (fun event => match event with
                                         | Text _ => []
                                         | Documents docs => docs
                                         end) last)) as [-> ->].
  auto.
Qed.

Section Page.

Variable ChatGroq : Q -> string -> Z -> outcome (gmap string value).

Variable astream_events :
  gmap loc object -> loc -> str -> str -> list loc -> run.

(** X20: the assistant message that [ask_chain] stores is all the streamed
    text, in order; when the run fails with an [Exception] the error
    message is appended to whatever text had arrived, with nothing in
    between.  The sources shown are the retrieved documents, numbered from
    1.  When the run fails with anything else, [ask_chain] raises it and
    stores no message. *)
Theorem ask_chain_stores (cfg : config) (question : str) (chain : loc)
    (w : world) (chain' : loc) (w1 : world) (callbacks : list loc)
    (w1' : world) :
  route ChatGroq cfg chain question w = (Return chain', w1) ->
  console_callbacks cfg w1 = (callbacks, w1') ->
  let r := astream_events (objects w1') chain'
             (optimize_question cfg question) (py "session-id-42")
             callbacks in
  let streamed :=
    flat_map (fun ev => match ev with
                        | on_chain_stream s => s
                        | _ => []
                        end) (run_events r) in
  let retrieved :=
    flat_map (fun ev => match ev with
                        | on_retriever_end output => output
                        | _ => []
                        end) (run_events r) in
  let stores (res : outcome answer) (text : str) :=
    exists a,
      res = Return a
      /\ answer_message a = ("assistant"%string, text)
      /\ map fst (answer_sources a) = seq 1 (length retrieved)
      /\ map snd (answer_sources a) = map page_content retrieved in
  exists res w2,
    ask_chain ChatGroq astream_events cfg question chain w = (res, w2)
    /\ match run_failure r with
       | None => stores res streamed
       | Some e =>
           if is_Exception e then stores res (streamed ++ error_message e)
           else res = Raise e
       end.
Proof.
  intros Hroute Hcb. cbv zeta.
  unfold ask_chain, ask_question. rewrite Hroute.
  unfold stream. rewrite Hcb.
  set (r := astream_events (objects w1') chain'
              (optimize_question cfg question) (py "session-id-42")
              callbacks).
  destruct (run_failure r) as [e |]; [destruct (is_Exception e) |];
    cbn [raised yielded]; eexists _, _; (split; [reflexivity |]).
  - eexists. split; [reflexivity |].
    pose proof (ask_chain_consume_forward (run_events r)
                  [Text (error_message e)]) as H.
    cbv zeta in H. cbn [flat_map app] in H. rewrite !app_nil_r in H.
    exact H.
  - reflexivity.
  - eexists. split; [reflexivity |].
    pose proof (ask_chain_consume_forward (run_events r) []) as H.
    cbv zeta in H. cbn [flat_map app] in H. rewrite !app_nil_r in H.
    exact H.
Qed.

End Page.

Lemma ask_chain_stores_witness :
  (exists a w2,
     ask_chain working_factory interrupted_run sample_config (py "Why?")
       4%positive wrapped_world
     = (Return a, w2)
     /\ answer_message a
        = ("assistant"%string,
           py "Embeddings areAn error occurred while processing your question: Connection error."))
  /\ (exists w2,
        ask_chain working_factory cancelled_run sample_config (py "Why?")
          4%positive wrapped_world
        = (Raise (BaseExn "CancelledError" []), w2)).
Proof.
  assert (Hroute : exists chain' w1,
            route working_factory sample_config 4%positive (py "Why?")
              wrapped_world
            = (Return chain', w1))
    by (eexists _, _; vm_compute; reflexivity).
  destruct Hroute as (chain' & w1 & Hroute). split.
  - destruct (ask_chain_stores working_factory interrupted_run sample_config
                (py "Why?") 4%positive wrapped_world chain' w1 [] w1 Hroute
                eq_refl) as (res & w2 & H & a & -> & Hmsg & _).
    exists a, w2. split; [exact H | exact Hmsg].
  - destruct (ask_chain_stores working_factory cancelled_run sample_config
                (py "Why?") 4%positive wrapped_world chain' w1 [] w1 Hroute
                eq_refl) as (res & w2 & H & Hres).
    exists w2. cbn in Hres. rewrite <- Hres. exact H.
Defined.

(** ** More on the classification *)

Lemma lower_char_idem (c : N) : lower_char (lower_char c) = lower_char c.
Proof.
  unfold lower_char.
  destruct ((65 <=? c) && (c <=? 90)
            || (192 <=? c) && (c <=? 222) && negb (c =? 215))%N eqn:Hb;
    [| rewrite Hb; reflexivity].
  rewrite orb_true_iff, !andb_true_iff, !N.leb_le in Hb.
  assert (Hout : ((65 <=? c + 32) && (c + 32 <=? 90)
                  || (192 <=? c + 32) && (c + 32 <=? 222)
                     && negb (c + 32 =? 215))%N = false).
  { destruct (N.leb_spec 65 (c + 32)), (N.leb_spec (c + 32) 90),
      (N.leb_spec 192 (c + 32)), (N.leb_spec (c + 32) 222);
      cbn [andb orb]; try reflexivity; lia. }
  rewrite Hout. reflexivity.
Qed.

Lemma lower_idem (s : str) : lower (lower s) = lower s.
Proof.
  unfold lower. rewrite map_map. apply map_ext. exact lower_char_idem.
Qed.

Lemma lower_char_latin1 (c : N) :
  (c <? 256)%N = true -> (lower_char c <? 256)%N = true.
Proof.
  rewrite !N.ltb_lt. unfold lower_char.
  destruct ((65 <=? c) && (c <=? 90)
            || (192 <=? c) && (c <=? 222) && negb (c =? 215))%N eqn:Hb;
    [| auto].
  rewrite orb_true_iff, !andb_true_iff, !N.leb_le in Hb. lia.
Qed.

(** X21: on the code points below 256, where [lower] is [str.lower], the
    classification does not depend on letter case: a query and its
    lower-cased form, which stays below 256, get the same result, and so
    do two queries that differ in case only. *)
Theorem assess_complexity_ignores_case (q q' : str) :
  latin1 q = true -> latin1 q' = true ->
  latin1 (lower q) = true
  /\ Binary64.assess_complexity (lower q) = Binary64.assess_complexity q
  /\ (lower q = lower q' ->
      Binary64.assess_complexity q = Binary64.assess_complexity q').
Proof.
  intros Hq _. split; [| split].
  - unfold latin1, lower in *. rewrite forallb_forall in *.
    intros c Hc. apply in_map_iff in Hc as (d & <- & Hd).
    apply lower_char_latin1, Hq, Hd.
  - unfold Binary64.assess_complexity. rewrite lower_idem. reflexivity.
  - unfold Binary64.assess_complexity. intros ->. reflexivity.
Qed.



Lemma py_min_unit_mono (a a' : Q) : (a <= a' -> py_min a 1 <= py_min a' 1)%Q.
Proof.
  intros Ha.
  destruct (py_min_cases a 1) as [[? ->] | [? ->]],
           (py_min_cases a' 1) as [[? ->] | [? ->]]; lra.
Qed.

(** ** A high-weight term, in binary64

    What holds of the exact scores with a margin holds of the scores the
    interpreter computes: rounding is monotone, so a bound that is itself
    a binary64 number passes through every operation. *)

Lemma binary64_count_terms_floor (terms : list str) (default : Q)
    (query : str) (count b : Q) :
  (0 <= default)%Q -> (0 <= b)%Q -> (b <= Binary64.round b)%Q ->
  (b <= count)%Q ->
  (b <= Binary64.count_terms terms default query count)%Q.
Proof.
  intros Hdef Hb Hfix. revert count.
  induction terms as [| x terms IH]; intros count Hc; [exact Hc |].
  rewrite binary64_count_terms_cons. apply IH.
  destruct (contains x query); [| exact Hc].
  pose proof (literal_nonneg _ (term_weight_nonneg x default Hdef)) as Hw.
  eapply Qle_trans; [exact Hfix |]. apply round_mono; lra.
Qed.

Lemma binary64_count_terms_hit (terms : list str) (default : Q)
    (query : str) (count b : Q) (t : str) :
  (0 <= default)%Q -> (0 <= count)%Q ->
  (0 <= b)%Q -> (b <= Binary64.round b)%Q ->
  (b <= Binary64.literal (dict_get TERM_WEIGHTS t default))%Q ->
  In t terms -> contains t query = true ->
  (b <= Binary64.count_terms terms default query count)%Q.
Proof.
  intros Hdef Hc Hb Hfix Hw Hin Hyes. revert count Hc.
  induction terms as [| x terms IH]; intros count Hc; [destruct Hin |].
  rewrite binary64_count_terms_cons.
  destruct Hin as [-> | Hin].
  - rewrite Hyes. apply binary64_count_terms_floor; try assumption.
    eapply Qle_trans; [exact Hfix |]. apply round_mono; lra.
  - apply IH; [exact Hin |].
    destruct (contains x query); [| exact Hc].
    apply add_nonneg; [exact Hc |].
    apply literal_nonneg, term_weight_nonneg, Hdef.
Qed.

Lemma binary64_indicator_count_hit (query t : str) :
  In t HIGH_WEIGHT_TERMS -> contains t query = true ->
  (3 <= Binary64.indicator_count query)%Q.
Proof.
  intros Hin Hc.
  assert (Hfix : (3 <= Binary64.round 3)%Q) by (vm_compute; discriminate).
  assert (Hlit : forall w, (3 <= w)%Q -> (3 <= Binary64.literal w)%Q).
  { intros w Hw. eapply Qle_trans; [exact Hfix |].
    apply round_mono; lra. }
  assert (Hboost : forall count,
            (3 <= count)%Q -> (3 <= Binary64.topic_boost query count)%Q).
  { intros count H. unfold Binary64.topic_boost.
    destruct (existsb _ AI_TERMS); [| exact H].
    destruct (existsb _ ETHICS_TERMS); [| exact H].
    pose proof (literal_nonneg 1.5 ltac:(lra)).
    eapply Qle_trans; [exact Hfix |]. apply round_mono; lra. }
  destruct (high_weight_terms_spec t Hin) as (_ & H1 & H2 & [Hmem | Hmem]);
    unfold Binary64.indicator_count; apply Hboost.
  - apply binary64_count_terms_floor; try lra.
    apply (binary64_count_terms_hit _ _ _ _ _ t); try lra; auto.
  - apply (binary64_count_terms_hit _ _ _ _ _ t); try lra; auto.
    apply binary64_count_terms_nonneg; lra.
Qed.

(** One term of weight 3.0 makes the query complex, with a score of at
    least 0.35, in binary64 as well. *)
Lemma binary64_high_weight_term_is_complex (q t : str) :
  In t HIGH_WEIGHT_TERMS -> contains t (lower q) = true ->
  fst (Binary64.assess_complexity q) = true
  /\ (Binary64.literal 0.35 <= snd (Binary64.assess_complexity q))%Q.
Proof.
  intros Hin Hc.
  pose proof (binary64_indicator_count_hit (lower q) t Hin Hc) as H3.
  pose proof (binary64_length_score_range (lower q)) as HL.
  pose proof (binary64_sentence_score_range (lower q)) as HS.
  assert (Hi : (1 # 2 <= Binary64.indicator_score (lower q))%Q).
  { unfold Binary64.indicator_score. rewrite literal_one.
    apply Qle_trans with (py_min (Binary64.div 3 6) 1);
      [vm_compute; discriminate |].
    apply py_min_unit_mono, div_mono; [lra | exact H3 | reflexivity]. }
  assert (Hscore : (Binary64.literal 0.35
                    <= Binary64.complexity_score (lower q))%Q).
  { unfold Binary64.complexity_score.
    eapply Qle_trans;
      [| apply (weighted_sum_mono 0 (1 # 2) 0); split; (assumption || lra
                                                        || apply HL
                                                        || apply HS)].
    vm_compute. discriminate. }
  split; [| exact Hscore].
  apply (binary64_assess_lowered_is_complex (lower q)).
  change (Binary64.literal 0.30 < Binary64.complexity_score (lower q))%Q.
  eapply Qlt_le_trans; [| exact Hscore]. vm_compute. reflexivity.
Qed.

(** Appending a term of weight 3.0 to a query classified simple raises
    its score, in binary64 as well. *)
Lemma binary64_high_weight_term_monotone (q sep t : str) :
  In t HIGH_WEIGHT_TERMS ->
  fst (Binary64.assess_complexity q) = false ->
  (snd (Binary64.assess_complexity q)
   < snd (Binary64.assess_complexity (q ++ t)))%Q
  /\ (snd (Binary64.assess_complexity q)
      < snd (Binary64.assess_complexity (q ++ sep ++ t)))%Q.
Proof.
  intros Hin Hsimple.
  destruct (high_weight_terms_spec t Hin) as (Hlow & _).
  assert (Hq : (snd (Binary64.assess_complexity q)
                <= Binary64.literal 0.30)%Q).
  { apply Qnot_lt_le. intros H.
    apply (binary64_assess_lowered_is_complex (lower q)) in H.
    change (Binary64.assess_lowered (lower q))
      with (Binary64.assess_complexity q) in H. congruence. }
  assert (Hgen : forall sep',
    (snd (Binary64.assess_complexity q)
     < snd (Binary64.assess_complexity (q ++ sep' ++ t)))%Q).
  { intros sep'.
    assert (Hc : contains t (lower (q ++ sep' ++ t)) = true).
    { unfold lower in *. rewrite !map_app, Hlow.
      apply contains_app_l, contains_app_l, contains_self. }
    destruct (binary64_high_weight_term_is_complex _ t Hin Hc) as [_ H].
    eapply Qle_lt_trans; [exact Hq |].
    eapply Qlt_le_trans; [| exact H]. vm_compute. reflexivity. }
  split; [exact (Hgen []) | exact (Hgen sep)].
Qed.

(** ** Queries without indicators *)

Lemma binary64_count_terms_no_hit (terms : list str) (default : Q)
    (query : str) (count : Q) :
  (forall t, In t terms -> contains t query = false) ->
  Binary64.count_terms terms default query count = count.
Proof.
  revert count. induction terms as [| x terms IH]; intros count Hno;
    [reflexivity |].
  rewrite binary64_count_terms_cons, (Hno x (or_introl eq_refl)).
  apply IH. intros t Ht. apply Hno. right. exact Ht.
Qed.

(** A query of fewer than 200 characters has a length score of at most
    0.995; one of 200 or more has the length score 1. *)
Lemma binary64_length_score_short (query : str) :
  length query < 200 ->
  (Binary64.length_score query <= 8962163258467287 # 9007199254740992)%Q.
Proof.
  intros Hlen. unfold Binary64.length_score. rewrite literal_one.
  apply Qle_trans with (py_min (Binary64.div (of_nat 199) 200) 1);
    [| vm_compute; discriminate].
  apply py_min_unit_mono, div_mono;
    [apply of_nat_nonneg | apply of_nat_mono; lia | reflexivity].
Qed.

Lemma binary64_length_score_long (query : str) :
  200 <= length query -> (Binary64.length_score query == 1)%Q.
Proof.
  intros Hlen. unfold Binary64.length_score. rewrite literal_one.
  assert (H : (1 <= Binary64.div (of_nat (length query)) 200)%Q).
  { apply Qle_trans with (Binary64.div (of_nat 200) 200);
      [vm_compute; discriminate |].
    apply div_mono;
      [apply of_nat_nonneg | apply of_nat_mono; exact Hlen | reflexivity]. }
  destruct (py_min_cases (Binary64.div (of_nat (length query)) 200) 1)
    as [[_ ->] | [H' ->]]; [reflexivity | lra].
Qed.

(** X23: length and sentence structure alone make a query complex in one
    case only.  A query in which no indicator and no phrase occurs, and to
    which the topic boost does not apply, has the indicator count 0 and a
    score of at most 0.2 + 0.1, which in binary64 is
    0.30000000000000004.  With fewer than 200 characters it is simple;
    with 200 or more and a sentence score of 1 it scores exactly that
    sum and is complex. *)
Theorem no_indicator_score (q : str) :
  (forall t, In t (COMPLEXITY_INDICATORS ++ COMPLEX_PHRASES) ->
     contains t (lower q) = false) ->
  existsb (fun term => contains term (lower q)) AI_TERMS = false
  \/ existsb (fun term => contains term (lower q)) ETHICS_TERMS = false ->
  Binary64.indicator_count (lower q) = 0%Q
  /\ (snd (Binary64.assess_complexity q)
      <= 1351079888211149 # 4503599627370496)%Q
  /\ (length (lower q) < 200 -> fst (Binary64.assess_complexity q) = false)
  /\ (200 <= length (lower q) ->
      (Binary64.sentence_score (lower q) == 1)%Q ->
      Binary64.assess_complexity q
      = (true, (1351079888211149 # 4503599627370496)%Q)).
Proof.
  intros Hno Hboost.
  assert (Hcount : Binary64.indicator_count (lower q) = 0%Q).
  { unfold Binary64.indicator_count.
    rewrite !binary64_count_terms_no_hit
      by (intros t Ht; apply Hno, in_or_app; auto).
    unfold Binary64.topic_boost. destruct Hboost as [-> | ->]; [reflexivity |].
    destruct (existsb _ AI_TERMS); reflexivity. }
  assert (Hi : Binary64.indicator_score (lower q) = 0%Q).
  { unfold Binary64.indicator_score. rewrite Hcount. vm_compute. reflexivity. }
  pose proof (binary64_length_score_range (lower q)) as HL.
  pose proof (binary64_sentence_score_range (lower q)) as HS.
  change (snd (Binary64.assess_complexity q))
    with (Binary64.complexity_score (lower q)).
  split; [exact Hcount |]. split; [| split].
  - unfold Binary64.complexity_score. rewrite Hi.
    eapply Qle_trans;
      [apply (weighted_sum_mono _ _ _ 1 0 1); split; (assumption || lra) |].
    vm_compute. discriminate.
  - intros Hlen.
    pose proof (binary64_length_score_short (lower q) Hlen) as HL'.
    assert (Hscore : (Binary64.complexity_score (lower q)
                      <= Binary64.literal 0.30)%Q).
    { unfold Binary64.complexity_score. rewrite Hi.
      eapply Qle_trans;
        [apply (weighted_sum_mono _ _ _
                  (8962163258467287 # 9007199254740992) 0 1);
         split; (assumption || lra || apply HL || apply HS) |].
      vm_compute. discriminate. }
    destruct (fst (Binary64.assess_complexity q)) eqn:E; [| reflexivity].
    apply (binary64_assess_lowered_is_complex (lower q)) in E.
    change (Binary64.literal 0.30 < Binary64.complexity_score (lower q))%Q
      in E. lra.
  - intros Hlen Hs.
    pose proof (binary64_length_score_long (lower q) Hlen) as Hl.
    assert (Hscore : Binary64.complexity_score (lower q)
                     = (1351079888211149 # 4503599627370496)%Q).
    { unfold Binary64.complexity_score. rewrite Hi.
      unfold Binary64.mul at 1 3.
      rewrite (round_comp (Binary64.literal 0.20
                           * Binary64.length_score (lower q))
                 (Binary64.literal 0.20 * 1))
        by (rewrite Hl; reflexivity).
      rewrite (round_comp (Binary64.literal 0.10
                           * Binary64.sentence_score (lower q))
                 (Binary64.literal 0.10 * 1))
        by (rewrite Hs; reflexivity).
      vm_compute. reflexivity. }
    unfold Binary64.assess_complexity, Binary64.assess_lowered.
    rewrite Hscore. vm_compute. reflexivity.
Qed.

Lemma no_indicator_score_witness :
  fst (Binary64.assess_complexity
         (py "List the key components of the system, one by one, with the page on which each of them is described."))
  = false
  /\ Binary64.assess_complexity (concat (repeat (py "x ") 100))
     = (true, (1351079888211149 # 4503599627370496)%Q).
Proof.
  assert (Hno : forall q,
            forallb (fun t => negb (contains t (lower q)))
              (COMPLEXITY_INDICATORS ++ COMPLEX_PHRASES) = true ->
            forall t, In t (COMPLEXITY_INDICATORS ++ COMPLEX_PHRASES) ->
                      contains t (lower q) = false).
  { intros q H t Ht. rewrite forallb_forall in H.
    apply negb_true_iff. exact (H t Ht). }
  split.
  - apply no_indicator_score.
    + apply Hno. vm_compute. reflexivity.
    + left. vm_compute. reflexivity.
    + vm_compute. lia.
  - apply no_indicator_score.
    + apply Hno. vm_compute. reflexivity.
    + left. vm_compute. reflexivity.
    + vm_compute. lia.
    + vm_compute. reflexivity.
Defined.

(** ** The length of a normalised prompt *)

Lemma re_sub_run_length (cls : N -> bool) (k : nat) (repl pend s : str) :
  length repl <= k ->
  length (re_sub_run cls k repl pend s) <= length pend + length s.
Proof.
  intros Hrepl.
  assert (Hflush : forall p, length (flush_run k repl p) <= length p).
  { intros p. unfold flush_run. destruct (Nat.leb_spec k (length p)); lia. }
  revert pend. induction s as [| c s IH]; intros pend.
  - simpl. specialize (Hflush pend). lia.
  - cbn [re_sub_run]. destruct (cls c).
    + specialize (IH (pend ++ [c])). rewrite length_app in IH. simpl in *.
      lia.
    + rewrite length_app. specialize (IH []). specialize (Hflush pend).
      simpl in *. lia.
Qed.

Lemma lstrip_length (s : str) : length (lstrip s) <= length s.
Proof.
  induction s as [| c s IH]; [reflexivity |].
  cbn [lstrip]. destruct (is_space c); simpl in *; lia.
Qed.

(** Without two of the mark in a row the pass changes nothing. *)
Lemma re_sub_run_no_pair (c : N) (repl pend s : str) :
  forallb (N.eqb c) pend = true -> length pend <= 1 ->
  contains [c; c] (pend ++ s) = false ->
  re_sub_run (N.eqb c) 2 repl pend s = pend ++ s.
Proof.
  revert pend. induction s as [| d s IH]; intros pend Hp Hlen Hno.
  - simpl. unfold flush_run.
    destruct (Nat.leb_spec 2 (length pend)); [lia |].
    rewrite app_nil_r. reflexivity.
  - destruct (N.eqb c d) eqn:Hd.
    + apply N.eqb_eq in Hd. subst d.
      destruct pend as [| x pend].
      * rewrite re_sub_run_cons_inside by apply N.eqb_refl.
        apply (IH [c]); [simpl; rewrite N.eqb_refl; reflexivity | simpl; lia
                        | exact Hno].
      * exfalso. destruct pend; [| simpl in Hlen; lia].
        simpl in Hp. rewrite andb_true_r in Hp. apply N.eqb_eq in Hp.
        subst x. simpl in Hno. rewrite N.eqb_refl in Hno. discriminate.
    + rewrite re_sub_run_cons_outside by exact Hd.
      unfold flush_run. destruct (Nat.leb_spec 2 (length pend)); [lia |].
      f_equal. f_equal. apply (IH []); [reflexivity | simpl; lia |].
      destruct (contains [c; c] ([] ++ s)) eqn:E; [| reflexivity].
      rewrite <- Hno. symmetry.
      apply (contains_app_l [c; c] (pend ++ [d]) s) in E.
      rewrite <- app_assoc in E. exact E.
Qed.

(** X24: a prompt without two dots in a row never gets longer by
    normalisation. *)
Theorem optimize_prompt_never_longer (prompt : str) :
  contains (py "..") prompt = false ->
  length (optimize_prompt prompt) <= length prompt.
Proof.
  intros Hno. rewrite optimize_prompt_whitespace_last.
  assert (Hdots : re_sub (N.eqb chr_dot) 2 (py "...") prompt = prompt)
    by (apply (re_sub_run_no_pair chr_dot (py "...") [] prompt);
        [reflexivity | simpl; lia | exact Hno]).
  rewrite Hdots. unfold strip, re_sub.
  pose proof (rstrip_length
                (lstrip (re_sub_run is_space 1 (py " ") []
                   (re_sub_run (N.eqb chr_qmark) 2 (py "?") []
                      (re_sub_run (N.eqb chr_bang) 2 (py "!") [] prompt)))))
    as H1.
  pose proof (lstrip_length
                (re_sub_run is_space 1 (py " ") []
                   (re_sub_run (N.eqb chr_qmark) 2 (py "?") []
                      (re_sub_run (N.eqb chr_bang) 2 (py "!") [] prompt))))
    as H2.
  pose proof (re_sub_run_length is_space 1 (py " ") []
                (re_sub_run (N.eqb chr_qmark) 2 (py "?") []
                   (re_sub_run (N.eqb chr_bang) 2 (py "!") [] prompt))
                ltac:(simpl; lia)) as H3.
  pose proof (re_sub_run_length (N.eqb chr_qmark) 2 (py "?") []
                (re_sub_run (N.eqb chr_bang) 2 (py "!") [] prompt)
                ltac:(simpl; lia)) as H4.
  pose proof (re_sub_run_length (N.eqb chr_bang) 2 (py "!") [] prompt
                ltac:(simpl; lia)) as H5.
  simpl length in *. lia.
Qed.

Lemma optimize_prompt_never_longer_witness :
  length (optimize_prompt (py "  Why.   Not??  "))
  <= length (py "  Why.   Not??  ").
Proof. apply optimize_prompt_never_longer. vm_compute. reflexivity. Defined.

Lemma optimize_prompt_whitespace_normal_witness :
  optimize_prompt (py " a   b ") = py "a b".
Proof.
  assert (H : optimize_prompt (py " a   b ") = [97%N] ++ 32%N :: [98%N])
    by (vm_compute; reflexivity).
  destruct (optimize_prompt_whitespace_normal (py " a   b "))
    as (_ & _ & _ & _ & Hspace).
  destruct (Hspace [97%N] 32%N [98%N] H eq_refl) as (_ & _ & _).
  exact H.
Defined.

Lemma assess_complexity_ignores_case_witness :
  Binary64.assess_complexity (py "WHY is it so?")
  = Binary64.assess_complexity (py "why IS it so?").
Proof.
  apply (assess_complexity_ignores_case (py "WHY is it so?")
           (py "why IS it so?"));
    vm_compute; reflexivity.
Defined.

(** ** Terms listed more than once *)




